(** * Pandora storage client: a model of [pandora/storage_client.py]

    The class [Storage] is a facade over a Redis-compatible key-value store.
    Every method is a short sequence of Redis commands issued through
    redis-py, so the model has three layers:

    - the store: one key space whose values are hashes, sets or sorted
      sets, each key with an optional time to live;
    - the commands of redis-py that the source calls, as computations in a
      state-and-exception monad (an exception keeps the writes that were
      made before it was raised, as in Python);
    - the methods of [Storage], transcribed call by call.

    Python strings are modelled by [string], one character per code point
    below 256. *)

From Stdlib Require Import QArith Qcanon Ascii.
From stdpp Require Import numbers gmap strings list fin_maps sorting pretty.

(** ** Values of the store *)

(** A score of a sorted set is a double; a finite double is the rational
    it denotes. *)
Abbreviation score := Qc.

Inductive rval :=
  | RHash (h : gmap string string)
  | RSet (s : gset string)
  | RZSet (z : gmap string score).

(** A key holds a value and, when [EXPIRE] was called on it, the number of
    seconds it has left ([Some t] with [0 < t]). *)
Record entry := Entry { e_val : rval; e_ttl : option Z }.

Abbreviation db := (gmap string entry).

(** ** Exceptions and the monad *)

Inductive exn :=
  | KeyError (k : string)     (* d[k] on a dict without k *)
  | ValueError                (* datetime.fromisoformat on a malformed string *)
  | DataError                 (* redis-py refuses the arguments *)
  | WrongType                 (* ResponseError: WRONGTYPE ... *)
  | NotAFloat.                (* ResponseError: min or max is not a float *)

Inductive result (A : Type) :=
  | Ok (a : A)
  | Raise (e : exn).
Arguments Ok {A} a.
Arguments Raise {A} e.

Definition M (A : Type) : Type := db → result A * db.

Definition ret {A} (a : A) : M A := λ σ, (Ok a, σ).
Definition raise {A} (e : exn) : M A := λ σ, (Raise e, σ).
Definition bind {A B} (m : M A) (k : A → M B) : M B := λ σ,
  match m σ with
  | (Ok a, σ') => k a σ'
  | (Raise e, σ') => (Raise e, σ')
  end.

Declare Scope storage_scope.
Delimit Scope storage_scope with storage.
Notation "'let*' x := m 'in' k" := (bind m (λ x, k))
  (at level 10, x name, m at level 100, k at level 200) : storage_scope.
Notation "m ;; k" := (bind m (λ _, k))
  (at level 100, k at level 200, right associativity) : storage_scope.
Open Scope storage_scope.

(** [for x in l: body x], the body run for its effect. *)
Fixpoint for_each {A} (l : list A) (body : A → M unit) : M unit :=
  match l with
  | [] => ret tt
  | x :: l' => body x ;; for_each l' body
  end.

(** [for x in l: acc = body acc x], a loop that threads an accumulator. *)
Fixpoint for_fold {A B} (l : list A) (acc : B) (body : B → A → M B) : M B :=
  match l with
  | [] => ret acc
  | x :: l' => let* acc' := body acc x in for_fold l' acc' body
  end.

Definition run {A} (m : M A) (σ : db) : result A := (m σ).1.
Definition exec {A} (m : M A) (σ : db) : db := (m σ).2.

(** ** Python values used by the methods *)

(** [d[k]] on a dict. *)
Definition getitem (d : gmap string string) (k : string) : M string :=
  match d !! k with
  | Some v => ret v
  | None => raise (KeyError k)
  end.

(** [str.isspace] on the code points below 256. *)
Definition py_isspace (c : ascii) : bool :=
  let n := Ascii.N_of_ascii c in
  ((9 <=? n) && (n <=? 13) || (28 <=? n) && (n <=? 32)
   || (n =? 133) || (n =? 160))%N.

Fixpoint lstrip (s : string) : string :=
  match s with
  | String c s' => if py_isspace c then lstrip s' else s
  | EmptyString => EmptyString
  end.

Fixpoint rstrip (s : string) : string :=
  match s with
  | String c s' =>
      match rstrip s' with
      | EmptyString => if py_isspace c then EmptyString else String c EmptyString
      | r => String c r
      end
  | EmptyString => EmptyString
  end.

(** [s.strip()] *)
Definition strip (s : string) : string := rstrip (lstrip s).

(** [l.sort(key=..., reverse=True)] once the keys are computed: the sort of
    Python is stable, also when reversed, and a stable sort has one result,
    the one of this insertion sort. [lt x y] says that the key of [x] is
    strictly below the key of [y]. *)
Fixpoint insert_desc {A} (lt : A → A → bool) (x : A) (l : list A) : list A :=
  match l with
  | [] => [x]
  | y :: l' => if lt x y then y :: insert_desc lt x l' else x :: l
  end.

Definition sort_desc {A} (lt : A → A → bool) (l : list A) : list A :=
  foldr (insert_desc lt) [] l.

(** [sorted(l)] on strings, ascending. *)
Fixpoint insert_asc (x : string) (l : list string) : list string :=
  match l with
  | [] => [x]
  | y :: l' => if String.ltb y x then y :: insert_asc x l' else x :: l
  end.

Definition sorted (l : list string) : list string := foldr insert_asc [] l.

(** [l.sort(key=operator.itemgetter(k), reverse=True)] on a list of dicts:
    the keys are computed first, for every element, and a dict without
    the field raises [KeyError] before anything is moved. *)
Fixpoint itemgetter_keys (k : string) (l : list (gmap string string))
  : M (list (string * gmap string string)) :=
  match l with
  | [] => ret []
  | d :: l' =>
      let* v := getitem d k in
      let* r := itemgetter_keys k l' in
      ret ((v, d) :: r)
  end.

Definition key_lt (x y : string * gmap string string) : bool :=
  String.ltb x.1 y.1.

Definition sort_by_field_desc (k : string) (l : list (gmap string string))
  : M (list (gmap string string)) :=
  let* keyed := itemgetter_keys k l in
  ret ((sort_desc key_lt keyed).*2).

(** A Python [float], and the [str | float] argument of the range queries. *)
Inductive pyfloat := FNegInf | FFin (q : score) | FPosInf | FNaN.

Inductive pyarg := AStr (s : string) | AFloat (x : pyfloat).

(** A value of a [dict[str, str | int]]. *)
Inductive pyval := PStr (s : string) | PInt (n : Z).

(** [str(v)], which is also what redis-py sends for [v]. *)
Definition py_str (v : pyval) : string :=
  match v with
  | PStr s => s
  | PInt n => pretty n
  end.

(** [f'{x}'] for an optional string: [None] prints as its name. *)
Definition fmt_opt (x : option string) : string := default "None" x.

(** ** What the model takes from outside the repository *)

Class Runtime := {
  (** [datetime.fromisoformat(s).timestamp()]; [None] when the string is
      refused ([ValueError]). *)
  iso_timestamp : string → option score;
  (** The order in which Python iterates over the set that [smembers]
      returns: some order of its elements. *)
  set_iter : gset string → list string;
  set_iter_perm : ∀ s, set_iter s ≡ₚ elements s;
  (** [get_config('generic', 'session_expire')], in seconds. *)
  session_expire : Z;
  (** How Redis reads a number in a range bound. *)
  strtod : string → option pyfloat;
  strtod_plus_inf : strtod "+Inf" = Some FPosInf
}.

(** ** Redis commands, as redis-py exposes them *)

Definition hgetall (k : string) : M (gmap string string) := λ σ,
  match σ !! k with
  | None => (Ok ∅, σ)
  | Some (Entry (RHash h) _) => (Ok h, σ)
  | Some _ => (Raise WrongType, σ)
  end.

(** [HSET k f1 v1 f2 v2 ...]: the fields given are written, the other
    fields of an existing hash stay, and so does its time to live. redis-py
    refuses an empty mapping. *)
Definition hmset (k : string) (mapping : gmap string string) : M unit := λ σ,
  if decide (mapping = ∅) then (Raise DataError, σ) else
  match σ !! k with
  | None => (Ok tt, <[k := Entry (RHash mapping) None]> σ)
  | Some (Entry (RHash h) t) => (Ok tt, <[k := Entry (RHash (mapping ∪ h)) t]> σ)
  | Some _ => (Raise WrongType, σ)
  end.

Definition hset (k f v : string) : M unit := λ σ,
  match σ !! k with
  | None => (Ok tt, <[k := Entry (RHash {[f := v]}) None]> σ)
  | Some (Entry (RHash h) t) => (Ok tt, <[k := Entry (RHash (<[f := v]> h)) t]> σ)
  | Some _ => (Raise WrongType, σ)
  end.

Definition hexists (k f : string) : M bool := λ σ,
  match σ !! k with
  | None => (Ok false, σ)
  | Some (Entry (RHash h) _) => (Ok (bool_decide (is_Some (h !! f))), σ)
  | Some _ => (Raise WrongType, σ)
  end.

(** [HDEL k f]: a hash that loses its last field is removed with its key. *)
Definition hdel (k f : string) : M unit := λ σ,
  match σ !! k with
  | None => (Ok tt, σ)
  | Some (Entry (RHash h) t) =>
      let h' := delete f h in
      (Ok tt, if decide (h' = ∅) then delete k σ
              else <[k := Entry (RHash h') t]> σ)
  | Some _ => (Raise WrongType, σ)
  end.

Definition smembers (k : string) : M (gset string) := λ σ,
  match σ !! k with
  | None => (Ok ∅, σ)
  | Some (Entry (RSet s) _) => (Ok s, σ)
  | Some _ => (Raise WrongType, σ)
  end.

Definition sadd (k x : string) : M unit := λ σ,
  match σ !! k with
  | None => (Ok tt, <[k := Entry (RSet {[x]}) None]> σ)
  | Some (Entry (RSet s) t) => (Ok tt, <[k := Entry (RSet ({[x]} ∪ s)) t]> σ)
  | Some _ => (Raise WrongType, σ)
  end.

(** [SREM k x1 x2 ...]: a set that loses its last member is removed. *)
Definition srem (k : string) (xs : list string) : M unit := λ σ,
  match σ !! k with
  | None => (Ok tt, σ)
  | Some (Entry (RSet s) t) =>
      let s' := s ∖ list_to_set xs in
      (Ok tt, if decide (s' = ∅) then delete k σ
              else <[k := Entry (RSet s') t]> σ)
  | Some _ => (Raise WrongType, σ)
  end.

Definition zadd (k member : string) (sc : score) : M unit := λ σ,
  match σ !! k with
  | None => (Ok tt, <[k := Entry (RZSet {[member := sc]}) None]> σ)
  | Some (Entry (RZSet z) t) => (Ok tt, <[k := Entry (RZSet (<[member := sc]> z)) t]> σ)
  | Some _ => (Raise WrongType, σ)
  end.

(** A bound of a score range: inclusive, or exclusive when the argument is
    a string that starts with an opening parenthesis. *)
Record zbound := ZBound { b_excl : bool; b_val : pyfloat }.

Definition non_nan (excl : bool) (x : pyfloat) : option zbound :=
  match x with
  | FNaN => None
  | _ => Some (ZBound excl x)
  end.

Definition parse_bound `{Runtime} (a : pyarg) : option zbound :=
  match a with
  | AFloat x => non_nan false x
  | AStr (String "("%char s) => x ← strtod s; non_nan true x
  | AStr s => x ← strtod s; non_nan false x
  end.

Definition above (lo : zbound) (x : score) : bool :=
  match b_val lo with
  | FNegInf => true
  | FFin q => if b_excl lo then bool_decide (q < x)%Qc else bool_decide (q ≤ x)%Qc
  | _ => false
  end.

Definition below (hi : zbound) (x : score) : bool :=
  match b_val hi with
  | FPosInf => true
  | FFin q => if b_excl hi then bool_decide (x < q)%Qc else bool_decide (x ≤ q)%Qc
  | _ => false
  end.

Definition in_range (lo hi : zbound) (x : score) : bool := above lo x && below hi x.

(** The members of a sorted set are ordered by score, and by name among
    equal scores. *)
Definition zlt (x y : string * score) : bool :=
  bool_decide (x.2 < y.2)%Qc || (bool_decide (x.2 = y.2) && String.ltb x.1 y.1).

Definition zrange_desc (z : gmap string score) (lo hi : zbound) : list string :=
  (sort_desc zlt (filter (λ p, in_range lo hi p.2) (map_to_list z))).*1.

Definition with_bounds `{Runtime} {A} (min max : pyarg) (k : zbound → zbound → M A) : M A :=
  match parse_bound min, parse_bound max with
  | Some lo, Some hi => k lo hi
  | _, _ => raise NotAFloat
  end.

Definition zsetval (k : string) : M (gmap string score) := λ σ,
  match σ !! k with
  | None => (Ok ∅, σ)
  | Some (Entry (RZSet z) _) => (Ok z, σ)
  | Some _ => (Raise WrongType, σ)
  end.

(** [zcount(name, min, max)] *)
Definition zcount `{Runtime} (k : string) (min max : pyarg) : M nat :=
  let* z := zsetval k in
  with_bounds min max (λ lo hi,
    ret (length (filter (λ p : string * score, in_range lo hi p.2) (map_to_list z)))).

(** [zrevrangebyscore(name, max, min)] *)
Definition zrevrangebyscore `{Runtime} (k : string) (max min : pyarg) : M (list string) :=
  let* z := zsetval k in
  with_bounds min max (λ lo hi, ret (zrange_desc z lo hi)).

Definition delete_keys (ks : list string) : M unit := λ σ,
  (Ok tt, foldr delete σ ks).

(** [EXPIRE k secs]: a time to live that is not positive removes the key. *)
Definition expire (k : string) (secs : Z) : M bool := λ σ,
  match σ !! k with
  | None => (Ok false, σ)
  | Some e =>
      (Ok true, if bool_decide (secs ≤ 0)%Z then delete k σ
                else <[k := Entry (e_val e) (Some secs)]> σ)
  end.

Definition exists_key (k : string) : M bool := λ σ,
  (Ok (bool_decide (is_Some (σ !! k))), σ).

(** The store after [d] seconds: the keys whose time is up are gone. *)
Definition elapse (d : Z) (σ : db) : db :=
  omap (λ e, match e_ttl e with
             | None => Some e
             | Some t => if bool_decide (d < t)%Z
                         then Some (Entry (e_val e) (Some (t - d)%Z))
                         else None
             end) σ.

(** ** The methods of [Storage] *)

Abbreviation record := (gmap string string).

Section Storage.
Context `{Runtime}.

(** *** User *)

Definition get_user (user_id : string) : M record :=
  hgetall ("users:" +:+ user_id).

Definition set_user (user : record) : M unit :=
  let* session_id := getitem user "session_id" in
  hmset ("users:" +:+ session_id) user ;;
  expire ("users:" +:+ session_id) session_expire ;;
  sadd "users" session_id.

(** One turn of the loop of [get_users]: [users] and [to_pop] are the two
    lists the loop appends to. *)
Definition get_users_step (acc : list record * list string) (session_id : string)
  : M (list record * list string) :=
  let* user := hgetall ("users:" +:+ session_id) in
  if bool_decide (user ≠ ∅)
  then ret (acc.1 ++ [user], acc.2)
  else ret (acc.1, acc.2 ++ [session_id]).

Definition get_users : M (list record) :=
  let* members := smembers "users" in
  let* acc := for_fold (set_iter members) ([], []) get_users_step in
  (if bool_decide (acc.2 ≠ []) then srem "users" acc.2 else ret tt) ;;
  sort_by_field_desc "last_seen" acc.1.

Definition del_users : M unit :=
  let* members := smembers "users" in
  let to_delete := (λ key, "users:" +:+ key) <$> set_iter members in
  delete_keys (to_delete ++ ["users"]).

(** *** Role *)

Definition get_role (role_name : string) : M record :=
  hgetall ("roles:" +:+ role_name).

Definition get_roles : M (list record) :=
  let* members := smembers "roles" in
  for_fold (sorted (set_iter members)) []
    (λ roles role_name, let* role := get_role role_name in ret (roles ++ [role])).

Definition set_role (role : record) : M unit :=
  let* name := getitem role "name" in
  hmset ("roles:" +:+ name) role ;;
  sadd "roles" name.

Definition has_roles : M bool := exists_key "roles".

(** *** Observable *)

Definition fromisoformat_timestamp (s : string) : M score :=
  match iso_timestamp s with
  | Some t => ret t
  | None => raise ValueError
  end.

Definition set_observable (observable : record) : M unit :=
  let* last_seen := getitem observable "last_seen" in
  let* timestamp := fromisoformat_timestamp last_seen in
  let* sha256 := getitem observable "sha256" in
  let* observable_type := getitem observable "observable_type" in
  let identifier := sha256 +:+ "-" +:+ observable_type in
  hmset ("observables:" +:+ identifier) observable ;;
  let* old := hexists ("observables:" +:+ identifier) "warninglist" in
  (if old then hdel ("observables:" +:+ identifier) "warninglist" else ret tt) ;;
  zadd "observables" identifier timestamp.

(** [if not identifier] holds for [None] and for the empty string. *)
Definition get_observable (sha256 observable_type identifier : option string)
  : M record :=
  let identifier :=
    match identifier with
    | None | Some "" => fmt_opt sha256 +:+ "-" +:+ fmt_opt observable_type
    | Some i => i
    end in
  hgetall ("observables:" +:+ identifier).

Definition get_task_observables (task_uuid : string) : M (list record) :=
  let* members := smembers (task_uuid +:+ ":observables") in
  for_fold (set_iter members) []
    (λ observables identifier,
       let* observable := get_observable None None (Some identifier) in
       if bool_decide (observable ≠ ∅)
       then ret (observables ++ [observable])
       else ret observables).

Definition add_task_observable (task_uuid sha256 observable_type : string) : M unit :=
  sadd (task_uuid +:+ ":observables") (sha256 +:+ "-" +:+ observable_type).

(** *** Observables lists *)

Definition get_suspicious_observables : M record :=
  hgetall "suspicious_observables".

Definition add_suspicious_observable (observable observable_type : string) : M unit :=
  hset "suspicious_observables" (strip observable) (strip observable_type).

Definition delete_suspicious_observable (observable : string) : M unit :=
  hdel "suspicious_observables" (strip observable).

Definition get_legitimate_observables : M record :=
  hgetall "legitimate_observables".

Definition add_legitimate_observable (observable observable_type : string) : M unit :=
  hset "legitimate_observables" (strip observable) (strip observable_type).

Definition delete_legitimate_observable (observable : string) : M unit :=
  hdel "legitimate_observables" (strip observable).

(** *** File *)

Definition get_file (file_id : string) : M record :=
  hgetall ("files:" +:+ file_id).

Definition set_file (file_details : gmap string pyval) : M unit :=
  match file_details !! "uuid" with
  | None => raise (KeyError "uuid")
  | Some uuid =>
      hmset ("files:" +:+ py_str uuid) (py_str <$> file_details) ;;
      sadd "files" (py_str uuid)
  end.

Definition get_files : M (list record) :=
  let* members := smembers "files" in
  for_fold (set_iter members) []
    (λ files uuid, let* file := get_file uuid in ret (files ++ [file])).

(** *** Task *)

Definition get_task (task_id : string) : M record :=
  hgetall ("tasks:" +:+ task_id).

Definition set_task (task : record) : M unit :=
  let* save_date := getitem task "save_date" in
  let* timestamp := fromisoformat_timestamp save_date in
  let* uuid := getitem task "uuid" in
  hmset ("tasks:" +:+ uuid) task ;;
  zadd "tasks" uuid timestamp.

Definition get_tasks (first_date last_date : pyarg) : M (list record) :=
  let* uuids := zrevrangebyscore "tasks" last_date first_date in
  let* tasks := for_fold uuids []
    (λ tasks uuid, let* task := get_task uuid in ret (tasks ++ [task])) in
  sort_by_field_desc "save_date" tasks.

Definition count_tasks (first_date last_date : pyarg) : M nat :=
  zcount "tasks" first_date last_date.

(** The defaults of the two keyword arguments. *)
Definition first_date_default : pyarg := AFloat (FFin 0%Qc).
Definition last_date_default : pyarg := AStr "+Inf".

Definition add_extracted_reference (parent_task_uuid extracted_task_uuid : string)
  : M unit :=
  sadd ("tasks:" +:+ parent_task_uuid +:+ ":extracted") extracted_task_uuid.

Definition get_extracted_references (task_id : string) : M (gset string) :=
  smembers ("tasks:" +:+ task_id +:+ ":extracted").

(** *** Report *)

Definition get_report (task_uuid worker_name : string) : M record :=
  hgetall ("reports:" +:+ task_uuid +:+ "-" +:+ worker_name).

Definition set_report (report : record) : M unit :=
  let* task_uuid := getitem report "task_uuid" in
  let* worker_name := getitem report "worker_name" in
  hmset ("reports:" +:+ task_uuid +:+ "-" +:+ worker_name) report ;;
  hdel ("tasks:" +:+ task_uuid) "status".

End Storage.

(** ** What a key holds, by type

    [hash_at σ k = Some h] says that [hgetall k] answers [h]: the key holds
    the hash [h], or it is absent and [h] is empty. [None] is a key of
    another type. The same for sets and sorted sets. *)

Definition hash_at (σ : db) (k : string) : option record :=
  match σ !! k with
  | None => Some ∅
  | Some (Entry (RHash h) _) => Some h
  | Some _ => None
  end.

Definition set_at (σ : db) (k : string) : option (gset string) :=
  match σ !! k with
  | None => Some ∅
  | Some (Entry (RSet s) _) => Some s
  | Some _ => None
  end.

Definition zset_at (σ : db) (k : string) : option (gmap string score) :=
  match σ !! k with
  | None => Some ∅
  | Some (Entry (RZSet z) _) => Some z
  | Some _ => None
  end.

Definition rmap {A B} (f : A → B) (r : result A) : result B :=
  match r with
  | Ok a => Ok (f a)
  | Raise e => Raise e
  end.

(** ** A concrete runtime

    Dates are read as [YYYY-MM-DD], optionally followed by [T] or a space
    and [HH:MM:SS], on a clock in UTC; a set is iterated in the order of
    [elements]; a session lives one hour. *)

Module Concrete.

Definition digit (c : ascii) : option Z :=
  let n := Z.of_N (N_of_ascii c) in
  if bool_decide (48 ≤ n ≤ 57)%Z then Some (n - 48)%Z else None.

Fixpoint number (acc : Z) (l : list ascii) : option Z :=
  match l with
  | [] => Some acc
  | c :: l' => d ← digit c; number (10 * acc + d)%Z l'
  end.

Definition leap (y : Z) : bool :=
  bool_decide (y `mod` 4 = 0)%Z
  && (negb (bool_decide (y `mod` 100 = 0)%Z) || bool_decide (y `mod` 400 = 0)%Z).

Definition days_in_month (y m : Z) : Z :=
  if bool_decide (m = 2)%Z then (if leap y then 29 else 28)%Z
  else if bool_decide (m = 4 ∨ m = 6 ∨ m = 9 ∨ m = 11)%Z then 30%Z
  else 31%Z.

(** Days from 1970-01-01 to the given day of the proleptic Gregorian
    calendar. *)
Definition days_from_civil (y m d : Z) : Z :=
  let y' := (if bool_decide (m ≤ 2)%Z then y - 1 else y)%Z in
  let era := (y' `div` 400)%Z in
  let yoe := (y' - era * 400)%Z in
  let mp := ((m + 9) `mod` 12)%Z in
  let doy := ((153 * mp + 2) `div` 5 + d - 1)%Z in
  let doe := (yoe * 365 + yoe `div` 4 - yoe `div` 100 + doy)%Z in
  (era * 146097 + doe - 719468)%Z.

Definition date_seconds (ys ms ds : list ascii) : option Z :=
  y ← number 0 ys; m ← number 0 ms; d ← number 0 ds;
  if bool_decide (1 ≤ y ∧ 1 ≤ m ≤ 12 ∧ 1 ≤ d ≤ days_in_month y m)%Z
  then Some (days_from_civil y m d * 86400)%Z else None.

Definition time_seconds (hs ms ss : list ascii) : option Z :=
  h ← number 0 hs; m ← number 0 ms; s ← number 0 ss;
  if bool_decide (h < 24 ∧ m < 60 ∧ s < 60)%Z
  then Some (h * 3600 + m * 60 + s)%Z else None.

Definition utc_seconds (s : string) : option Z :=
  match String.list_ascii_of_string s with
  | [y1; y2; y3; y4; "-"; m1; m2; "-"; d1; d2]%char =>
      date_seconds [y1; y2; y3; y4] [m1; m2] [d1; d2]
  | [y1; y2; y3; y4; "-"; m1; m2; "-"; d1; d2; sep;
     h1; h2; ":"; n1; n2; ":"; s1; s2]%char =>
      if bool_decide (sep = "T" ∨ sep = " ")%char then
        day ← date_seconds [y1; y2; y3; y4] [m1; m2] [d1; d2];
        t ← time_seconds [h1; h2] [n1; n2] [s1; s2];
        Some (day + t)%Z
      else None
  | _ => None
  end.

Definition utc_timestamp (s : string) : option score :=
  (λ n, Q2Qc (inject_Z n)) <$> utc_seconds s.

(** Infinite bounds and decimal integers. *)
Definition read_bound (s : string) : option pyfloat :=
  if bool_decide (s = "+Inf" ∨ s = "+inf" ∨ s = "inf") then Some FPosInf
  else if bool_decide (s = "-Inf" ∨ s = "-inf") then Some FNegInf
  else match String.list_ascii_of_string s with
       | [] => None
       | l => (λ n, FFin (Q2Qc (inject_Z n))) <$> number 0 l
       end.

#[export] Instance runtime : Runtime := {|
  iso_timestamp := utc_timestamp;
  set_iter := elements;
  set_iter_perm := λ s, reflexivity (elements s);
  session_expire := 3600;
  strtod := read_bound;
  strtod_plus_inf := eq_refl
|}.

End Concrete.

(** ** The entity families, for statements about all of them *)


Section entities.
Context `{Runtime}.







End entities.

(** ** Orders on lists of records *)

(** The field [f] of [a] is at least the field [f] of [b], both present. *)
Definition field_ge (f : string) (a b : record) : Prop :=
  ∃ x y, a !! f = Some x ∧ b !! f = Some y ∧ String.le y x.

Definition field_le (f : string) (a b : record) : Prop :=
  ∃ x y, a !! f = Some x ∧ b !! f = Some y ∧ String.le x y.

(** Sorted by the field [f], descending: every record comes before the
    records whose field is smaller or equal. *)
Definition sorted_desc_by (f : string) (l : list record) : Prop :=
  StronglySorted (field_ge f) l.

Definition sorted_asc_by (f : string) (l : list record) : Prop :=
  StronglySorted (field_le f) l.

(** ** Stores that keep to the schema *)

(** What [hgetall] answers for the record of a session, of a task, of a
    role and of an observable; the empty dict when the key holds no hash. *)
Definition user_record (σ : db) (session_id : string) : record :=
  default ∅ (hash_at σ ("users:" +:+ session_id)).

Definition task_record (σ : db) (uuid : string) : record :=
  default ∅ (hash_at σ ("tasks:" +:+ uuid)).

Definition role_record (σ : db) (name : string) : record :=
  default ∅ (hash_at σ ("roles:" +:+ name)).

Definition observable_record (σ : db) (identifier : string) : record :=
  default ∅ (hash_at σ ("observables:" +:+ identifier)).

(** The session of the index has no record left (it expired), or it has
    one with the field [last_seen]. *)
Definition user_record_ok (σ : db) (session_id : string) : Prop :=
  hash_at σ ("users:" +:+ session_id) = Some ∅ ∨
  is_Some (hash_at σ ("users:" +:+ session_id) ≫= (.!! "last_seen")).

(** The task of the index has its record, with the field [save_date]. *)
Definition task_record_ok (σ : db) (uuid : string) : Prop :=
  is_Some (hash_at σ ("tasks:" +:+ uuid) ≫= (.!! "save_date")).

(** The role of the index has its record, named as the index names it. *)
Definition role_record_ok (σ : db) (name : string) : Prop :=
  hash_at σ ("roles:" +:+ name) ≫= (.!! "name") = Some name.

(** The sessions of a list with a record, and those without. *)
Definition live_users (σ : db) (l : list string) : list record :=
  filter (λ u, u ≠ ∅) (user_record σ <$> l).

Definition stale_ids (σ : db) (l : list string) : list string :=
  filter (λ session_id, user_record σ session_id = ∅) l.

(** The identifier [get_observable] looks up when it is given
    [identifier=i] alone: an empty [i] counts as no identifier, and the two
    absent parts are then printed. *)
Definition looked_up (identifier : string) : string :=
  match identifier with
  | "" => "None-None"
  | _ => identifier
  end.

(** ** The invariant of the store, and the stores the methods can build *)

(** Only the records of sessions are given a time to live. *)
Definition no_ttl_outside_users (σ : db) : Prop :=
  ∀ k e, σ !! k = Some e → is_Some (e_ttl e) → ∃ s, k = "users:" +:+ s.

(** Every task of the index has its record, with [save_date]. *)
Definition tasks_wf (σ : db) : Prop :=
  ∃ z, zset_at σ "tasks" = Some z ∧ map_Forall (λ uuid _, task_record_ok σ uuid) z.

(** Every role of the index has its record, under its name. *)
Definition roles_wf (σ : db) : Prop :=
  ∃ s, set_at σ "roles" = Some s ∧ set_Forall (role_record_ok σ) s.

Definition schema_inv (σ : db) : Prop :=
  no_ttl_outside_users σ ∧ tasks_wf σ ∧ roles_wf σ.

(** A computation keeps the invariant, whether it returns or raises. *)
Definition preserves {A} (m : M A) : Prop :=
  ∀ σ, schema_inv σ → schema_inv (m σ).2.

(** The calls of the interface. *)
Inductive call :=
  | GetUser (user_id : string)
  | SetUser (user : record)
  | GetUsers
  | DelUsers
  | GetRole (role_name : string)
  | GetRoles
  | SetRole (role : record)
  | HasRoles
  | SetObservable (observable : record)
  | GetObservable (sha256 observable_type identifier : option string)
  | GetTaskObservables (task_uuid : string)
  | AddTaskObservable (task_uuid sha256 observable_type : string)
  | GetSuspiciousObservables
  | AddSuspiciousObservable (observable observable_type : string)
  | DeleteSuspiciousObservable (observable : string)
  | GetLegitimateObservables
  | AddLegitimateObservable (observable observable_type : string)
  | DeleteLegitimateObservable (observable : string)
  | GetFile (file_id : string)
  | SetFile (file_details : gmap string pyval)
  | GetFiles
  | GetTask (task_id : string)
  | SetTask (task : record)
  | GetTasks (first_date last_date : pyarg)
  | CountTasks (first_date last_date : pyarg)
  | AddExtractedReference (parent_task_uuid extracted_task_uuid : string)
  | GetExtractedReferences (task_id : string)
  | GetReport (task_uuid worker_name : string)
  | SetReport (report : record).

Section calls.
Context `{Runtime}.

(** The store after a call, whatever it returned or raised. *)
Definition after (c : call) (σ : db) : db :=
  match c with
  | GetUser user_id => exec (get_user user_id) σ
  | SetUser user => exec (set_user user) σ
  | GetUsers => exec get_users σ
  | DelUsers => exec del_users σ
  | GetRole role_name => exec (get_role role_name) σ
  | GetRoles => exec get_roles σ
  | SetRole role => exec (set_role role) σ
  | HasRoles => exec has_roles σ
  | SetObservable observable => exec (set_observable observable) σ
  | GetObservable sha256 observable_type identifier =>
      exec (get_observable sha256 observable_type identifier) σ
  | GetTaskObservables task_uuid => exec (get_task_observables task_uuid) σ
  | AddTaskObservable task_uuid sha256 observable_type =>
      exec (add_task_observable task_uuid sha256 observable_type) σ
  | GetSuspiciousObservables => exec get_suspicious_observables σ
  | AddSuspiciousObservable observable observable_type =>
      exec (add_suspicious_observable observable observable_type) σ
  | DeleteSuspiciousObservable observable =>
      exec (delete_suspicious_observable observable) σ
  | GetLegitimateObservables => exec get_legitimate_observables σ
  | AddLegitimateObservable observable observable_type =>
      exec (add_legitimate_observable observable observable_type) σ
  | DeleteLegitimateObservable observable =>
      exec (delete_legitimate_observable observable) σ
  | GetFile file_id => exec (get_file file_id) σ
  | SetFile file_details => exec (set_file file_details) σ
  | GetFiles => exec get_files σ
  | GetTask task_id => exec (get_task task_id) σ
  | SetTask task => exec (set_task task) σ
  | GetTasks first_date last_date => exec (get_tasks first_date last_date) σ
  | CountTasks first_date last_date => exec (count_tasks first_date last_date) σ
  | AddExtractedReference parent_task_uuid extracted_task_uuid =>
      exec (add_extracted_reference parent_task_uuid extracted_task_uuid) σ
  | GetExtractedReferences task_id => exec (get_extracted_references task_id) σ
  | GetReport task_uuid worker_name => exec (get_report task_uuid worker_name) σ
  | SetReport report => exec (set_report report) σ
  end.

(** The stores that calls of the interface and the passing of time make
    out of the empty store. *)
Inductive reachable : db → Prop :=
  | reachable_empty : reachable ∅
  | reachable_call σ c : reachable σ → reachable (after c σ)
  | reachable_elapse σ d : reachable σ → reachable (elapse d σ).

End calls.

(** The three conditions on the records of an index can be decided. *)
#[global] Instance user_record_ok_dec σ session_id : Decision (user_record_ok σ session_id).
Proof. unfold user_record_ok. apply _. Defined.

#[global] Instance task_record_ok_dec σ uuid : Decision (task_record_ok σ uuid).
Proof. unfold task_record_ok. apply _. Defined.

#[global] Instance role_record_ok_dec σ name : Decision (role_record_ok σ name).
Proof. unfold role_record_ok. apply _. Defined.

(** ** Concrete stores and records, for the worked examples *)

Module Examples.
Import Concrete.

(** Two sessions; the first is written half an hour before the second
    and is gone when more than an hour has passed since it was written. *)
Definition alice : record :=
  {[ "session_id" := "s1"; "last_seen" := "2024-05-01T10:00:00"; "name" := "alice" ]}.
Definition alice_again : record :=
  {[ "session_id" := "s1"; "last_seen" := "2024-05-01T10:20:00" ]}.
Definition bob : record :=
  {[ "session_id" := "s2"; "last_seen" := "2024-05-01T10:30:00"; "name" := "bob" ]}.

Definition two_sessions : db :=
  exec (set_user bob) (elapse 1800 (exec (set_user alice) ∅)).
Definition one_expired : db := elapse 2000 two_sessions.

(** Two tasks, and the store in which the record of the first was
    deleted by another client while the index still names it. *)
Definition task1 : record :=
  {[ "uuid" := "t1"; "save_date" := "2024-05-01T09:00:00"; "status" := "3" ]}.
Definition task2 : record :=
  {[ "uuid" := "t2"; "save_date" := "2024-05-02T09:00:00" ]}.

Definition two_tasks : db := exec (set_task task2) (exec (set_task task1) ∅).
Definition dangling_task : db := delete "tasks:t1" two_tasks.

Definition report1 : record :=
  {[ "task_uuid" := "t1"; "worker_name" := "clamav"; "status" := "2" ]}.

Definition admin : record := {[ "name" := "admin"; "description" := "all" ]}.
Definition reader : record := {[ "name" := "reader"; "description" := "read" ]}.

(** Sessions, tasks and roles together. *)
Definition populated : db :=
  exec (set_role admin) (exec (set_role reader)
    (exec (set_task task2) (exec (set_task task1) two_sessions))).

Definition observable1 : record :=
  {[ "sha256" := "ab12"; "observable_type" := "domain";
     "last_seen" := "2024-05-01T10:00:00"; "warninglist" := "misp" ]}.

(** A task that names an observable that was never stored. *)
Definition dangling_observable : db :=
  exec (add_task_observable "t1" "ab12" "domain") ∅.

Definition not_a_date : record :=
  {[ "uuid" := "t3"; "sha256" := "cd34"; "observable_type" := "ipv4";
     "save_date" := "yesterday"; "last_seen" := "yesterday" ]}.


(** The indexes of these stores. *)
Definition s1_s2 : gset string := {[ "s1"; "s2" ]}.
Definition admin_reader : gset string := {[ "admin"; "reader" ]}.
Definition t1_t2 : gmap string score := default ∅ (zset_at two_tasks "tasks").

(** The tasks saved after the first one: an exclusive lower bound. *)
Definition after_task1 : pyarg := AStr "(1714554000".

End Examples.

(** ** The keys a call may write *)

(** The calls that only read. *)
Definition is_read (c : call) : bool :=
  match c with
  | GetUser _ | GetRole _ | GetRoles | HasRoles | GetObservable _ _ _
  | GetTaskObservables _ | GetSuspiciousObservables | GetLegitimateObservables
  | GetFile _ | GetFiles | GetTask _ | GetTasks _ _ | CountTasks _ _
  | GetExtractedReferences _ | GetReport _ _ => true
  | _ => false
  end.

(** The keys a call names in a command that writes: the record key and the
    index key of the entity it is given, the set it prunes or deletes
    from. *)
Definition touches (c : call) (k : string) : Prop :=
  match c with
  | SetUser user =>
      k = "users" ∨ ∃ s, user !! "session_id" = Some s ∧ k = "users:" +:+ s
  | GetUsers => k = "users"
  | DelUsers => k = "users" ∨ ∃ s, k = "users:" +:+ s
  | SetRole role =>
      k = "roles" ∨ ∃ n, role !! "name" = Some n ∧ k = "roles:" +:+ n
  | SetObservable observable =>
      k = "observables" ∨
      ∃ s t, observable !! "sha256" = Some s ∧ observable !! "observable_type" = Some t ∧
             k = "observables:" +:+ s +:+ "-" +:+ t
  | AddTaskObservable task_uuid _ _ => k = task_uuid +:+ ":observables"
  | AddSuspiciousObservable _ _ | DeleteSuspiciousObservable _ =>
      k = "suspicious_observables"
  | AddLegitimateObservable _ _ | DeleteLegitimateObservable _ =>
      k = "legitimate_observables"
  | SetFile file_details =>
      k = "files" ∨ ∃ u, file_details !! "uuid" = Some u ∧ k = "files:" +:+ py_str u
  | SetTask task =>
      k = "tasks" ∨ ∃ u, task !! "uuid" = Some u ∧ k = "tasks:" +:+ u
  | AddExtractedReference parent_task_uuid _ =>
      k = "tasks:" +:+ parent_task_uuid +:+ ":extracted"
  | SetReport report =>
      ∃ t, report !! "task_uuid" = Some t ∧
           (k = "tasks:" +:+ t ∨
            ∃ w, report !! "worker_name" = Some w ∧ k = "reports:" +:+ t +:+ "-" +:+ w)
  | _ => False
  end.

(** A computation writes no key outside [K], whether it returns or
    raises. *)
Definition only_writes {A} (K : string → Prop) (m : M A) : Prop :=
  ∀ σ k, ¬ K k → (m σ).2 !! k = σ !! k.


(** ** The two lists of observables *)

(** A hash whose fields and values are what [str.strip] returns. *)
Definition trimmed (h : record) : Prop :=
  map_Forall (λ f v, strip f = f ∧ strip v = v) h.

(** Both lists hold a hash, or nothing, and the hash is trimmed. *)
Definition lists_trimmed (σ : db) : Prop :=
  ∀ k, k = "suspicious_observables" ∨ k = "legitimate_observables" →
       ∃ h, hash_at σ k = Some h ∧ trimmed h.

(** * The helpers: a model of [pandora/helpers.py]

    The functions that read the configuration files return what the files
    hold; the three functions below compute. *)

Module helpers.

#[local] Open Scope Z_scope.

Inductive exn :=
  | AssertionError   (* assert on a value that did not parse *)
  | AttributeError   (* match.group on None, when asserts are compiled out *)
  | ValueError       (* int() or str() on more digits than are allowed *)
  | OverflowError.   (* timedelta beyond 999999999 days *)

Inductive outcome (A : Type) :=
  | Return (a : A)
  | Throw (e : exn).
Arguments Return {A} a.
Arguments Throw {A} e.

#[global] Instance outcome_bind : MBind outcome := λ A B f m,
  match m with
  | Return a => f a
  | Throw e => Throw e
  end.

(** ** Booleans *)

(** A value of [Optional[Union[bool, int, str]]]. *)
Inductive value := VNone | VBool (b : bool) | VInt (n : Z) | VStr (s : string).

(** [x == y] on these values: a bool is the int 0 or 1, a string equals
    strings only, [None] equals [None] only. *)
Definition py_eq (x y : value) : bool :=
  match x, y with
  | VNone, VNone => true
  | VBool a, VBool b => bool_decide (a = b)
  | VBool a, VInt n | VInt n, VBool a => bool_decide (n = if a then 1 else 0)
  | VInt n, VInt m => bool_decide (n = m)
  | VStr s, VStr t => bool_decide (s = t)
  | _, _ => false
  end.

(** [x in l] on a list. *)
Definition py_in (x : value) (l : list value) : bool := existsb (py_eq x) l.

Definition make_bool (v : value) : bool :=
  if py_in v [VBool true; VInt 1; VStr "1"] then true else false.

(** [value is True]: only the object [True] itself. *)
Definition make_bool_for_redis (v : value) : Z :=
  match v with
  | VBool true => 1
  | _ => 0
  end.

(** What comes back from Redis for a value that was sent: the string of
    its [str] (replies are decoded). *)
Definition from_redis (n : Z) : value := VStr (pretty n).

(** ** Durations *)

(** [\d] on the code points below 256: the ten ASCII digits. *)
Definition is_digit (c : ascii) : bool :=
  let n := Ascii.N_of_ascii c in ((48 <=? n) && (n <=? 57))%N.

Definition digit_value (c : ascii) : Z := Z.of_N (Ascii.N_of_ascii c) - 48.

(** The longest prefix of digits, with what follows it. *)
Fixpoint span_digits (s : string) : string * string :=
  match s with
  | String c s' =>
      if is_digit c then let '(d, r) := span_digits s' in (String c d, r)
      else (EmptyString, s)
  | EmptyString => (EmptyString, EmptyString)
  end.

(** [[smhd]] *)
Definition is_unit (c : ascii) : bool :=
  bool_decide (c = "s" ∨ c = "m" ∨ c = "h" ∨ c = "d")%char.

(** [re.fullmatch(r'(\d+)([smhd]?)', s)]: the two groups of the match.
    The digits are taken greedily; giving one back cannot help, as the
    character after the first group would then be a digit, which is no
    unit and not the end of the string. *)
Definition fullmatch (s : string) : option (string * string) :=
  let '(number, rest) := span_digits s in
  match number, rest with
  | EmptyString, _ => None
  | _, EmptyString => Some (number, EmptyString)
  | _, String u EmptyString =>
      if is_unit u then Some (number, String u EmptyString) else None
  | _, _ => None
  end.

Fixpoint int_digits (acc : Z) (s : string) : Z :=
  match s with
  | String c s' => int_digits (acc * 10 + digit_value c) s'
  | EmptyString => acc
  end.

Section durations.
(** [assertions]: the interpreter runs the [assert] statements (no
    [-O]). [max_str_digits]: the limit of [int] and of [str] on the
    number of digits they convert, 4300 unless configured, [None] when
    the interpreter has none. *)
Variable assertions : bool.
Variable max_str_digits : option nat.

(** [str(time)]: a string is itself; an [int] is written in decimal,
    unless it has more digits than the interpreter converts. The sign is
    not counted. *)
Definition str (time : pyval) : outcome string :=
  match time with
  | PStr s => Return s
  | PInt n =>
      match max_str_digits with
      | Some limit =>
          if bool_decide (limit < String.length (pretty (Z.abs n)))%nat
          then Throw ValueError
          else Return (pretty n)
      | None => Return (pretty n)
      end
  end.

(** [int(s)] on a string of digits. *)
Definition int (s : string) : outcome Z :=
  match max_str_digits with
  | Some limit =>
      if bool_decide (limit < String.length s)%nat then Throw ValueError
      else Return (int_digits 0 s)
  | None => Return (int_digits 0 s)
  end.

(** [int(timedelta(days=.., seconds=.., minutes=.., hours=..).total_seconds())]
    on integers: the duration is normalised to days and seconds, a
    number of days beyond 999999999 is refused, and the seconds of a
    duration within that bound are below 2^53, so that the float
    returned by [total_seconds] is exact. *)
Definition timedelta_total_seconds (days seconds minutes hours : Z) : outcome Z :=
  let total := days * 86400 + seconds + minutes * 60 + hours * 3600 in
  if bool_decide (999999999 < Z.abs (total `div` 86400)) then Throw OverflowError
  else Return total.

Definition expire_in_sec (time : option pyval) : outcome (option Z) :=
  match time with
  | None => Return None
  | Some t =>
      text ← str t;
      match fullmatch text with
      | None => Throw (if assertions then AssertionError else AttributeError)
      | Some (group1, group2) =>
          if bool_decide (group2 = "" ∨ group2 = "s") then
            n ← int group1;
            s ← timedelta_total_seconds 0 n 0 0;
            Return (Some s)
          else if bool_decide (group2 = "m") then
            n ← int group1;
            s ← timedelta_total_seconds 0 0 n 0;
            Return (Some s)
          else if bool_decide (group2 = "h") then
            n ← int group1;
            s ← timedelta_total_seconds 0 0 0 n;
            Return (Some s)
          else if bool_decide (group2 = "d") then
            n ← int group1;
            s ← timedelta_total_seconds n 0 0 0;
            Return (Some s)
          else Return None
      end
  end.

End durations.

(** The largest number of seconds of a [timedelta]. *)
Definition max_seconds : Z := 86400 * 1000000000 - 1.

Fixpoint all_digits (s : string) : bool :=
  match s with
  | String c s' => is_digit c && all_digits s'
  | EmptyString => true
  end.

(** The seconds in one unit of the suffix. *)
Definition unit_seconds (u : string) : option Z :=
  if decide (u = "" ∨ u = "s") then Some 1
  else if decide (u = "m") then Some 60
  else if decide (u = "h") then Some 3600
  else if decide (u = "d") then Some 86400
  else None.

(** The string [s] is a duration: the digits [number], not empty, then the
    suffix [u] of a unit of [k] seconds. *)
Definition duration (s number u : string) (k : Z) : Prop :=
  s = number +:+ u ∧ number ≠ "" ∧ all_digits number = true ∧
  unit_seconds u = Some k.

(** The interpreter converts a number of [n] digits. *)
Definition within (limit : option nat) (n : nat) : Prop :=
  ∀ l, limit = Some l → (n ≤ l)%nat.

(** ** Roles *)

(** [key.startswith(p)] *)
Fixpoint startswith (p key : string) : bool :=
  match p, key with
  | EmptyString, _ => true
  | String a p', String b key' => bool_decide (a = b) && startswith p' key'
  | String _ _, EmptyString => false
  end.

(** [key[n:]] *)
Fixpoint slice_from (n : nat) (key : string) : string :=
  match n, key with
  | O, _ => key
  | S n', String _ key' => slice_from n' key'
  | S _, EmptyString => EmptyString
  end.

(** [{key[4:]: value for key, value in r.items() if key.startswith('can_')}]
    on the items of [r] in the order of the dict. *)
Definition can_actions {V} (items : list (string * V)) : gmap string V :=
  foldl (λ actions '(key, value),
           if startswith "can_" key then <[slice_from 4 key := value]> actions
           else actions) ∅ items.

End helpers.

(** * The class [Storage] itself: one instance, one connection pool *)

Module singleton.

Inductive exn :=
  | ConfigError      (* whatever [get_config] raises *)
  | AttributeError.  (* an attribute that was never assigned *)

Inductive outcome (A : Type) :=
  | Return (a : A)
  | Throw (e : exn).
Arguments Return {A} a.
Arguments Throw {A} e.

(** [ConnectionPool(host=.., port=.., decode_responses=..)]: building a
    pool connects to nothing. [pool_id] is the identity of the
    object. *)
Record pool := Pool {
  host : pyval;
  port : pyval;
  decode_responses : bool;
  pool_id : nat
}.

(** The attributes of the class, and the number of objects made so
    far, which names the next one. *)
Record class_state := Class {
  _instance : option nat;
  _redis_pool_storage : option pool;
  allocated : nat
}.

(** The class as the module defines it. *)
Definition initial : class_state := Class None None 0.

(** [get_config(section, key)]; [None] when it raises. *)
Definition config := string → string → option pyval.

(** [Storage.__new__(cls)], which is all of [Storage()]: the class has
    no [__init__]. The instance is assigned before the configuration is
    read. *)
Definition new (get_config : config) (cls : class_state)
  : outcome nat * class_state :=
  match _instance cls with
  | None =>
      let self := allocated cls in
      let cls1 := Class (Some self) (_redis_pool_storage cls) (S (allocated cls)) in
      match get_config "generic" "storage_db_hostname" with
      | None => (Throw ConfigError, cls1)
      | Some h =>
          match get_config "generic" "storage_db_port" with
          | None => (Throw ConfigError, cls1)
          | Some p =>
              (Return self,
               Class (Some self) (Some (Pool h p true (allocated cls1)))
                     (S (allocated cls1)))
          end
      end
  | Some self => (Return self, cls)
  end.

(** The property [storage]: a client on the pool of the class. *)
Definition storage (cls : class_state) (self : nat) : outcome pool :=
  match _redis_pool_storage cls with
  | Some p => Return p
  | None => Throw AttributeError
  end.

(** [Storage()] once for each configuration of the list, in turn. *)
Fixpoint news (configs : list config) (cls : class_state)
  : list (outcome nat) * class_state :=
  match configs with
  | [] => ([], cls)
  | c :: configs' =>
      let '(r, cls1) := new c cls in
      let '(rs, cls2) := news configs' cls1 in
      (r :: rs, cls2)
  end.

End singleton.

(** ** More worked data *)

Module MoreExamples.
Import Concrete Examples.

(** A configuration that gives sessions no time. *)
Definition no_sessions : Runtime := {|
  iso_timestamp := utc_timestamp;
  set_iter := elements;
  set_iter_perm := λ s, reflexivity (elements s);
  session_expire := 0;
  strtod := read_bound;
  strtod_plus_inf := eq_refl
|}.

(** A session written without [last_seen], beside the two others. *)
Definition carol : record := {[ "session_id" := "s3"; "name" := "carol" ]}.
Definition with_carol : db := exec (set_user carol) two_sessions.
Definition s1_s2_s3 : gset string := {[ "s1"; "s2"; "s3" ]}.

(** The observable of [observable1], seen again. *)
Definition observable2 : record :=
  {[ "sha256" := "ab12"; "observable_type" := "domain";
     "last_seen" := "2024-06-01T10:00:00" ]}.

(** Two roles, and the store in which the record of [admin] was deleted
    by another client. *)
Definition two_roles : db := exec (set_role admin) (exec (set_role reader) ∅).
Definition dangling_role : db := delete "roles:admin" two_roles.


(** A task named as the set of the references of [t1]. *)
Definition task_extracted : record :=
  {[ "uuid" := "t1:extracted"; "save_date" := "2024-05-03T09:00:00" ]}.

(** One suspicious observable, given with blanks. *)
Definition one_suspicious : db :=
  after (AddSuspiciousObservable "  evil.example " "domain ") ∅.

(** The entry of a role in [roles.yml]. *)
Definition role_entry : list (string * helpers.value) :=
  [("name", helpers.VStr "reader"); ("description", helpers.VStr "read");
   ("can_read", helpers.VBool true); ("can_write", helpers.VBool false)].

(** The configuration with, and without, the host and the port. *)
Definition configured : singleton.config := λ section key,
  if bool_decide (section = "generic") then
    if bool_decide (key = "storage_db_hostname") then Some (PStr "127.0.0.1")
    else if bool_decide (key = "storage_db_port") then Some (PInt 6379)
    else None
  else None.
Definition unconfigured : singleton.config := λ _ _, None.

End MoreExamples.

(** * Properties *)

Ltac case_entry σ k :=
  let E := fresh "E" in
  destruct (σ !! k) as [[[?|?|?] ?]|] eqn:E; simplify_eq/=; try done.

Section commands.
Implicit Types (σ : db) (k f : string) (h m : record).

Lemma bind_ok {A B} (c : M A) (g : A → M B) σ a σ' :
  c σ = (Ok a, σ') → bind c g σ = g a σ'.
Proof. unfold bind. by intros ->. Qed.

Lemma bind_raise {A B} (c : M A) (g : A → M B) σ e σ' :
  c σ = (Raise e, σ') → bind c g σ = (Raise e, σ').
Proof. unfold bind. by intros ->. Qed.

Lemma getitem_ok (d : record) k v σ : d !! k = Some v → getitem d k σ = (Ok v, σ).
Proof. unfold getitem. by intros ->. Qed.

Lemma hgetall_ok σ k h : hash_at σ k = Some h → hgetall k σ = (Ok h, σ).
Proof. unfold hash_at, hgetall. intros. case_entry σ k. Qed.

Lemma hgetall_wrong σ k : hash_at σ k = None → hgetall k σ = (Raise WrongType, σ).
Proof. unfold hash_at, hgetall. intros. case_entry σ k. Qed.

Lemma hgetall_state {k σ} : (hgetall k σ).2 = σ.
Proof. unfold hgetall. case_entry σ k. Qed.

Lemma smembers_ok σ k s : set_at σ k = Some s → smembers k σ = (Ok s, σ).
Proof. unfold set_at, smembers. intros. case_entry σ k. Qed.

Lemma zsetval_ok σ k z : zset_at σ k = Some z → zsetval k σ = (Ok z, σ).
Proof. unfold zset_at, zsetval. intros. case_entry σ k. Qed.

(** *** Writes to a hash *)

Lemma hmset_ok σ k m h :
  m ≠ ∅ → hash_at σ k = Some h →
  ∃ σ', hmset k m σ = (Ok tt, σ') ∧ hash_at σ' k = Some (m ∪ h) ∧
        ∀ k', k' ≠ k → σ' !! k' = σ !! k'.
Proof.
  unfold hash_at, hmset. intros Hm Hh.
  destruct (decide (m = ∅)); [done|].
  case_entry σ k; eexists; (split; [done|]);
    rewrite lookup_insert_eq; (split; [|by intros; rewrite lookup_insert_ne]).
  - done.
  - by rewrite (right_id_L ∅ (∪)).
Qed.

Lemma hset_ok σ k f v h :
  hash_at σ k = Some h →
  ∃ σ', hset k f v σ = (Ok tt, σ') ∧ hash_at σ' k = Some (<[f := v]> h) ∧
        ∀ k', k' ≠ k → σ' !! k' = σ !! k'.
Proof.
  unfold hash_at, hset. intros Hh.
  case_entry σ k; eexists; (split; [done|]);
    rewrite lookup_insert_eq; (split; [|by intros; rewrite lookup_insert_ne]); done.
Qed.

Lemma hexists_ok σ k f h :
  hash_at σ k = Some h → hexists k f σ = (Ok (bool_decide (is_Some (h !! f))), σ).
Proof.
  unfold hash_at, hexists. intros. case_entry σ k.
Qed.

Lemma hdel_ok σ k f h :
  hash_at σ k = Some h →
  ∃ σ', hdel k f σ = (Ok tt, σ') ∧ hash_at σ' k = Some (delete f h) ∧
        ∀ k', k' ≠ k → σ' !! k' = σ !! k'.
Proof.
  unfold hash_at, hdel. intros Hh. case_entry σ k.
  - eexists; split; [done|]. case_decide as He.
    + rewrite lookup_delete_eq, He. split; [done|].
      by intros; rewrite lookup_delete_ne.
    + rewrite lookup_insert_eq. split; [done|].
      by intros; rewrite lookup_insert_ne.
  - eexists; split; [done|]. rewrite E, delete_empty. done.
Qed.

(** *** Writes to a set *)

Lemma sadd_ok σ k x s :
  set_at σ k = Some s →
  ∃ σ', sadd k x σ = (Ok tt, σ') ∧ set_at σ' k = Some ({[x]} ∪ s) ∧
        ∀ k', k' ≠ k → σ' !! k' = σ !! k'.
Proof.
  unfold set_at, sadd. intros Hs.
  case_entry σ k; eexists; (split; [done|]);
    rewrite lookup_insert_eq; (split; [|by intros; rewrite lookup_insert_ne]).
  - done.
  - by rewrite (right_id_L ∅ (∪)).
Qed.

Lemma srem_ok σ k xs s :
  set_at σ k = Some s →
  ∃ σ', srem k xs σ = (Ok tt, σ') ∧ set_at σ' k = Some (s ∖ list_to_set xs) ∧
        ∀ k', k' ≠ k → σ' !! k' = σ !! k'.
Proof.
  unfold set_at, srem. intros Hs. case_entry σ k.
  - eexists; split; [done|]. case_decide as He.
    + rewrite lookup_delete_eq, He. split; [done|].
      by intros; rewrite lookup_delete_ne.
    + rewrite lookup_insert_eq. split; [done|].
      by intros; rewrite lookup_insert_ne.
  - eexists; split; [done|]. rewrite E, empty_difference_L. done.
Qed.

(** *** Writes to a sorted set *)

Lemma zadd_ok σ k x sc z :
  zset_at σ k = Some z →
  ∃ σ', zadd k x sc σ = (Ok tt, σ') ∧ zset_at σ' k = Some (<[x := sc]> z) ∧
        ∀ k', k' ≠ k → σ' !! k' = σ !! k'.
Proof.
  unfold zset_at, zadd. intros Hz.
  case_entry σ k; eexists; (split; [done|]);
    rewrite lookup_insert_eq; (split; [|by intros; rewrite lookup_insert_ne]); done.
Qed.

(** *** Time to live *)

Lemma expire_positive σ k secs :
  (0 < secs)%Z →
  ∃ b σ', expire k secs σ = (Ok b, σ') ∧ hash_at σ' k = hash_at σ k ∧
          ∀ k', k' ≠ k → σ' !! k' = σ !! k'.
Proof.
  unfold expire, hash_at. intros Hs.
  destruct (σ !! k) as [[v t]|] eqn:E; do 2 eexists; (split; [done|]).
  - rewrite bool_decide_eq_false_2 by lia.
    rewrite lookup_insert_eq. split; [done|].
    by intros; rewrite lookup_insert_ne.
  - by rewrite E.
Qed.

(** A key that was not written holds what it held. *)
Lemma hash_at_frame σ σ' k : σ' !! k = σ !! k → hash_at σ' k = hash_at σ k.
Proof. unfold hash_at. by intros ->. Qed.

Lemma set_at_frame σ σ' k : σ' !! k = σ !! k → set_at σ' k = set_at σ k.
Proof. unfold set_at. by intros ->. Qed.

Lemma zset_at_frame σ σ' k : σ' !! k = σ !! k → zset_at σ' k = zset_at σ k.
Proof. unfold zset_at. by intros ->. Qed.

End commands.

(** ** Keys of different families are different *)

Ltac key_neq :=
  let E := fresh "E" in
  intros E; unfold String.app in E; simpl in E; discriminate E.

Lemma reports_tasks_key x y : "reports:" +:+ x ≠ "tasks:" +:+ y.
Proof. key_neq. Qed.

Lemma composite_nonempty (a b : string) : a +:+ "-" +:+ b ≠ "".
Proof. destruct a; key_neq. Qed.

(** ** Lists and maps *)

Lemma filter_none {A} (P : A → Prop) `{∀ x, Decision (P x)} (l : list A) :
  (∀ x, x ∈ l → ¬ P x) → filter P l = [].
Proof.
  induction l as [|x l IH]; intros Hl; [done|].
  rewrite filter_cons_False by (apply Hl; left).
  apply IH. intros y Hy. apply Hl. by right.
Qed.

(** A dict holds one entry for a key it has. *)
Lemma filter_key_singleton (m : record) (k v : string) :
  m !! k = Some v →
  filter (λ p : string * string, p.1 = k) (map_to_list m) = [(k, v)].
Proof.
  intros Hk. apply Permutation_singleton_r.
  rewrite <-(insert_delete_id m k v) at 1 by done.
  rewrite map_to_list_insert by apply lookup_delete_eq.
  rewrite filter_cons_True by done. f_equiv.
  rewrite filter_none; [done|].
  intros [k' v'] Hin%elem_of_map_to_list Hk'. simpl in *. subst k'.
  by rewrite lookup_delete_eq in Hin.
Qed.

Section observables.
Context `{Runtime}.
Implicit Types (σ : db) (h : record).

Lemma fromisoformat_timestamp_refused s σ :
  iso_timestamp s = None → fromisoformat_timestamp s σ = (Raise ValueError, σ).
Proof. unfold fromisoformat_timestamp. by intros ->. Qed.

Lemma fromisoformat_timestamp_ok s t σ :
  iso_timestamp s = Some t → fromisoformat_timestamp s σ = (Ok t, σ).
Proof. unfold fromisoformat_timestamp. by intros ->. Qed.

(** C9. Looking an observable up by its two parts and looking it up by the
    identifier composed of them give the same answer, on every store: the
    same record, or the same error when the key holds no hash. *)
Theorem get_observable_composite (S Ty : string) σ :
  get_observable (Some S) (Some Ty) None σ
  = get_observable None None (Some (S +:+ "-" +:+ Ty)) σ.
Proof.
  unfold get_observable, fmt_opt. simpl.
  destruct (S +:+ "-" +:+ Ty) eqn:E; [|done].
  by apply composite_nonempty in E.
Qed.

(** C8. A record whose timestamp field is a string that
    [datetime.fromisoformat] refuses makes [set_observable] ([last_seen])
    and [set_task] ([save_date]) raise [ValueError], and the store is the
    one before the call: the date is read before anything is written. *)
Theorem malformed_timestamp_fails_fast (r : record) (s : string) σ :
  iso_timestamp s = None →
  (r !! "last_seen" = Some s → set_observable r σ = (Raise ValueError, σ)) ∧
  (r !! "save_date" = Some s → set_task r σ = (Raise ValueError, σ)).
Proof.
  intros Hs. split; intros Hr.
  - unfold set_observable.
    rewrite (bind_ok _ _ _ _ _ (getitem_ok _ _ _ _ Hr)).
    by rewrite (bind_raise _ _ _ _ _ (fromisoformat_timestamp_refused _ _ Hs)).
  - unfold set_task.
    rewrite (bind_ok _ _ _ _ _ (getitem_ok _ _ _ _ Hr)).
    by rewrite (bind_raise _ _ _ _ _ (fromisoformat_timestamp_refused _ _ Hs)).
Qed.

End observables.

Section lists_and_reports.
Context `{Runtime}.
Implicit Types (σ : db) (h : record).

Lemma hset_twice k f v σ :
  is_Some (hash_at σ k) → exec (hset k f v) (exec (hset k f v) σ) = exec (hset k f v) σ.
Proof.
  unfold exec, hset, hash_at. intros [h Hh]. case_entry σ k.
  - rewrite lookup_insert_eq. simpl. by rewrite insert_insert_eq, insert_insert_eq.
  - rewrite lookup_insert_eq. simpl. by rewrite insert_insert_eq, insert_singleton_eq.
Qed.

(** C10. Adding a suspicious observable twice is adding it once: both
    calls return, the second leaves the store as the first left it, the
    hash maps the trimmed value to the trimmed type in exactly one entry
    (its only entry when the hash was empty), and deleting any value that
    trims to the same key removes that entry. *)
Theorem add_suspicious_observable_idempotent (v t : string) σ h :
  hash_at σ "suspicious_observables" = Some h →
  let σ1 := exec (add_suspicious_observable v t) σ in
  let σ2 := exec (add_suspicious_observable v t) σ1 in
  run (add_suspicious_observable v t) σ = Ok tt ∧
  run (add_suspicious_observable v t) σ1 = Ok tt ∧
  σ2 = σ1 ∧
  run get_suspicious_observables σ2 = Ok (<[strip v := strip t]> h) ∧
  filter (λ p : string * string, p.1 = strip v)
         (map_to_list (<[strip v := strip t]> h)) = [(strip v, strip t)] ∧
  (h = ∅ → map_to_list (<[strip v := strip t]> h) = [(strip v, strip t)]) ∧
  ∀ v', strip v' = strip v →
    run (delete_suspicious_observable v') σ2 = Ok tt ∧
    run get_suspicious_observables (exec (delete_suspicious_observable v') σ2)
    = Ok (delete (strip v) h) ∧
    delete (strip v) h !! strip v = None.
Proof.
  intros Hh σ1 σ2.
  destruct (hset_ok _ _ (strip v) (strip t) _ Hh) as (σ' & Hrun & Hh' & _).
  assert (σ' = exec (hset "suspicious_observables" (strip v) (strip t)) σ) as Hσ'
    by (unfold exec; by rewrite Hrun).
  assert (σ1 = σ') as Hσ1 by done.
  assert (σ2 = σ') as Hσ2.
  { unfold σ2. rewrite Hσ1, Hσ'. apply hset_twice. eauto. }
  clearbody σ1 σ2. subst σ1.
  destruct (hset_ok _ _ (strip v) (strip t) _ Hh') as (σ'' & Hrun' & _ & _).
  split_and!.
  - unfold run, add_suspicious_observable. by rewrite Hrun.
  - unfold run, add_suspicious_observable. by rewrite Hrun'.
  - done.
  - rewrite Hσ2. unfold run, get_suspicious_observables.
    by rewrite (hgetall_ok _ _ _ Hh').
  - apply filter_key_singleton, lookup_insert_eq.
  - intros ->. by rewrite insert_empty, map_to_list_singleton.
  - intros v' Hv'. rewrite Hσ2.
    destruct (hdel_ok _ _ (strip v') _ Hh') as (σd & Hdel & Hhd & _).
    unfold run, exec, delete_suspicious_observable, get_suspicious_observables.
    rewrite Hdel. simpl. rewrite (hgetall_ok _ _ _ Hhd), Hv'. simpl.
    by rewrite delete_insert_eq, lookup_delete_eq.
Qed.

Lemma set_report_spec (report old task : record) (task_uuid worker_name : string) σ :
  report !! "task_uuid" = Some task_uuid →
  report !! "worker_name" = Some worker_name →
  hash_at σ ("reports:" +:+ task_uuid +:+ "-" +:+ worker_name) = Some old →
  hash_at σ ("tasks:" +:+ task_uuid) = Some task →
  ∃ σ', set_report report σ = (Ok tt, σ') ∧
    hash_at σ' ("reports:" +:+ task_uuid +:+ "-" +:+ worker_name) = Some (report ∪ old) ∧
    hash_at σ' ("tasks:" +:+ task_uuid) = Some (delete "status" task) ∧
    ∀ k, k ≠ "reports:" +:+ task_uuid +:+ "-" +:+ worker_name →
         k ≠ "tasks:" +:+ task_uuid → σ' !! k = σ !! k.
Proof.
  intros Ht Hw Hold Htask.
  assert (report ≠ ∅) as Hne by (intros ->; by rewrite lookup_empty in Ht).
  destruct (hmset_ok _ _ _ _ Hne Hold) as (σ1 & Hset & Hrep & Hframe1).
  assert (hash_at σ1 ("tasks:" +:+ task_uuid) = Some task) as Htask1.
  { rewrite <-Htask. apply hash_at_frame, Hframe1.
    intros E. symmetry in E. by apply reports_tasks_key in E. }
  destruct (hdel_ok _ _ "status" _ Htask1) as (σ2 & Hdel & Htask2 & Hframe2).
  exists σ2. split_and!.
  - unfold set_report.
    rewrite (bind_ok _ _ _ _ _ (getitem_ok _ _ _ _ Ht)).
    rewrite (bind_ok _ _ _ _ _ (getitem_ok _ _ _ _ Hw)).
    by rewrite (bind_ok _ _ _ _ _ Hset).
  - rewrite <-Hrep. apply hash_at_frame, Hframe2, reports_tasks_key.
  - done.
  - intros k Hk1 Hk2. by rewrite Hframe2, Hframe1.
Qed.

(** C7. [set_report] stores the report under [reports:{task_uuid}-{worker_name}]
    (every field of the report is then read back from that key) and
    removes the field [status] from the record of the parent task; every
    other field of that record, and every other key of the store, is as
    before. *)
Theorem set_report_clears_status (report old task : record)
    (task_uuid worker_name : string) σ :
  report !! "task_uuid" = Some task_uuid →
  report !! "worker_name" = Some worker_name →
  hash_at σ ("reports:" +:+ task_uuid +:+ "-" +:+ worker_name) = Some old →
  hash_at σ ("tasks:" +:+ task_uuid) = Some task →
  let σ' := exec (set_report report) σ in
  run (set_report report) σ = Ok tt ∧
  (∃ stored, run (get_report task_uuid worker_name) σ' = Ok stored ∧
             ∀ f x, report !! f = Some x → stored !! f = Some x) ∧
  (∃ task', run (get_task task_uuid) σ' = Ok task' ∧
            task' !! "status" = None ∧
            ∀ f, f ≠ "status" → task' !! f = task !! f) ∧
  (∀ k, k ≠ "reports:" +:+ task_uuid +:+ "-" +:+ worker_name →
        k ≠ "tasks:" +:+ task_uuid → σ' !! k = σ !! k).
Proof.
  intros Ht Hw Hold Htask σ'.
  destruct (set_report_spec _ _ _ _ _ _ Ht Hw Hold Htask)
    as (σ2 & Hrun & Hrep & Htask2 & Hframe).
  assert (σ' = σ2) as -> by (unfold σ', exec; by rewrite Hrun).
  split_and!.
  - unfold run. by rewrite Hrun.
  - exists (report ∪ old). split.
    + unfold run, get_report. by rewrite (hgetall_ok _ _ _ Hrep).
    + intros f x Hf. by apply lookup_union_Some_l.
  - exists (delete "status" task). split_and!.
    + unfold run, get_task. by rewrite (hgetall_ok _ _ _ Htask2).
    + apply lookup_delete_eq.
    + intros f Hf. by apply lookup_delete_ne.
  - done.
Qed.

End lists_and_reports.

(** ** Writing a record and reading it back *)

Lemma users_index_key x : "users" ≠ "users:" +:+ x.
Proof. key_neq. Qed.

Lemma roles_index_key x : "roles" ≠ "roles:" +:+ x.
Proof. key_neq. Qed.

Lemma observables_index_key x : "observables" ≠ "observables:" +:+ x.
Proof. key_neq. Qed.


Lemma tasks_index_key x : "tasks" ≠ "tasks:" +:+ x.
Proof. key_neq. Qed.

Lemma has_field_nonempty (r : record) k v : r !! k = Some v → r ≠ ∅.
Proof. intros Hk ->. by rewrite lookup_empty in Hk. Qed.

Section writes.
Context `{Runtime}.
Implicit Types (σ : db) (h r : record).

Lemma set_user_spec (user h0 : record) (s : string) (members : gset string) σ :
  (0 < session_expire)%Z →
  user !! "session_id" = Some s →
  hash_at σ ("users:" +:+ s) = Some h0 →
  set_at σ "users" = Some members →
  ∃ σ', set_user user σ = (Ok tt, σ') ∧
    hash_at σ' ("users:" +:+ s) = Some (user ∪ h0) ∧
    set_at σ' "users" = Some ({[s]} ∪ members) ∧
    ∀ k, k ≠ "users:" +:+ s → k ≠ "users" → σ' !! k = σ !! k.
Proof.
  intros Hexp Hs Hh Hm.
  destruct (hmset_ok _ _ _ _ (has_field_nonempty _ _ _ Hs) Hh) as (σ1 & Hset & Hh1 & Hf1).
  destruct (expire_positive σ1 ("users:" +:+ s) _ Hexp) as (b & σ2 & Hexpire & Hh2 & Hf2).
  assert (set_at σ2 "users" = Some members) as Hm2.
  { rewrite <-Hm. etrans; [apply set_at_frame, Hf2|apply set_at_frame, Hf1];
      apply users_index_key. }
  destruct (sadd_ok _ _ s _ Hm2) as (σ3 & Hadd & Hm3 & Hf3).
  exists σ3. split_and!.
  - unfold set_user.
    rewrite (bind_ok _ _ _ _ _ (getitem_ok _ _ _ _ Hs)).
    rewrite (bind_ok _ _ _ _ _ Hset).
    by rewrite (bind_ok _ _ _ _ _ Hexpire).
  - rewrite <-Hh1, <-Hh2. apply hash_at_frame, Hf3.
    intros E. symmetry in E. by apply users_index_key in E.
  - done.
  - intros k Hk1 Hk2. by rewrite Hf3, Hf2, Hf1.
Qed.

Lemma set_role_spec (role h0 : record) (name : string) (members : gset string) σ :
  role !! "name" = Some name →
  hash_at σ ("roles:" +:+ name) = Some h0 →
  set_at σ "roles" = Some members →
  ∃ σ', set_role role σ = (Ok tt, σ') ∧
    hash_at σ' ("roles:" +:+ name) = Some (role ∪ h0) ∧
    set_at σ' "roles" = Some ({[name]} ∪ members) ∧
    ∀ k, k ≠ "roles:" +:+ name → k ≠ "roles" → σ' !! k = σ !! k.
Proof.
  intros Hs Hh Hm.
  destruct (hmset_ok _ _ _ _ (has_field_nonempty _ _ _ Hs) Hh) as (σ1 & Hset & Hh1 & Hf1).
  assert (set_at σ1 "roles" = Some members) as Hm1.
  { rewrite <-Hm. apply set_at_frame, Hf1, roles_index_key. }
  destruct (sadd_ok _ _ name _ Hm1) as (σ2 & Hadd & Hm2 & Hf2).
  exists σ2. split_and!.
  - unfold set_role.
    rewrite (bind_ok _ _ _ _ _ (getitem_ok _ _ _ _ Hs)).
    by rewrite (bind_ok _ _ _ _ _ Hset).
  - rewrite <-Hh1. apply hash_at_frame, Hf2.
    intros E. symmetry in E. by apply roles_index_key in E.
  - done.
  - intros k Hk1 Hk2. by rewrite Hf2, Hf1.
Qed.


Lemma set_task_spec (task h0 : record) (uuid save_date : string) (t : score)
    (z : gmap string score) σ :
  task !! "save_date" = Some save_date →
  iso_timestamp save_date = Some t →
  task !! "uuid" = Some uuid →
  hash_at σ ("tasks:" +:+ uuid) = Some h0 →
  zset_at σ "tasks" = Some z →
  ∃ σ', set_task task σ = (Ok tt, σ') ∧
    hash_at σ' ("tasks:" +:+ uuid) = Some (task ∪ h0) ∧
    zset_at σ' "tasks" = Some (<[uuid := t]> z) ∧
    ∀ k, k ≠ "tasks:" +:+ uuid → k ≠ "tasks" → σ' !! k = σ !! k.
Proof.
  intros Hd Ht Hs Hh Hm.
  destruct (hmset_ok _ _ _ _ (has_field_nonempty _ _ _ Hs) Hh) as (σ1 & Hset & Hh1 & Hf1).
  assert (zset_at σ1 "tasks" = Some z) as Hm1.
  { rewrite <-Hm. apply zset_at_frame, Hf1, tasks_index_key. }
  destruct (zadd_ok _ _ uuid t _ Hm1) as (σ2 & Hadd & Hm2 & Hf2).
  exists σ2. split_and!.
  - unfold set_task.
    rewrite (bind_ok _ _ _ _ _ (getitem_ok _ _ _ _ Hd)).
    rewrite (bind_ok _ _ _ _ _ (fromisoformat_timestamp_ok _ _ _ Ht)).
    rewrite (bind_ok _ _ _ _ _ (getitem_ok _ _ _ _ Hs)).
    by rewrite (bind_ok _ _ _ _ _ Hset).
  - rewrite <-Hh1. apply hash_at_frame, Hf2.
    intros E. symmetry in E. by apply tasks_index_key in E.
  - done.
  - intros k Hk1 Hk2. by rewrite Hf2, Hf1.
Qed.

(** The record that [set_observable] leaves has no field [warninglist],
    whether the field came with the record or was stored before. *)
Lemma set_observable_spec (observable h0 : record) (sha256 observable_type last_seen : string)
    (t : score) (z : gmap string score) σ :
  let identifier := sha256 +:+ "-" +:+ observable_type in
  observable !! "last_seen" = Some last_seen →
  iso_timestamp last_seen = Some t →
  observable !! "sha256" = Some sha256 →
  observable !! "observable_type" = Some observable_type →
  hash_at σ ("observables:" +:+ identifier) = Some h0 →
  zset_at σ "observables" = Some z →
  ∃ σ', set_observable observable σ = (Ok tt, σ') ∧
    hash_at σ' ("observables:" +:+ identifier) = Some (delete "warninglist" (observable ∪ h0)) ∧
    zset_at σ' "observables" = Some (<[identifier := t]> z) ∧
    ∀ k, k ≠ "observables:" +:+ identifier → k ≠ "observables" → σ' !! k = σ !! k.
Proof.
  intros identifier Hd Ht Hs Hty Hh Hm.
  destruct (hmset_ok _ _ _ _ (has_field_nonempty _ _ _ Hs) Hh) as (σ1 & Hset & Hh1 & Hf1).
  assert (∃ σ2,
    (if bool_decide (is_Some ((observable ∪ h0) !! "warninglist"))
     then hdel ("observables:" +:+ identifier) "warninglist" else ret tt) σ1
    = (Ok tt, σ2) ∧
    hash_at σ2 ("observables:" +:+ identifier) = Some (delete "warninglist" (observable ∪ h0)) ∧
    ∀ k, k ≠ "observables:" +:+ identifier → σ2 !! k = σ1 !! k) as (σ2 & Hclear & Hh2 & Hf2).
  { case_bool_decide as Hwl.
    - destruct (hdel_ok _ _ "warninglist" _ Hh1) as (σ2 & Hdel & Hh2 & Hf2). eauto.
    - exists σ1. split_and!; [done| |done].
      rewrite delete_id; [done|]. by apply eq_None_not_Some. }
  assert (zset_at σ2 "observables" = Some z) as Hm2.
  { rewrite <-Hm. etrans; [apply zset_at_frame, Hf2|apply zset_at_frame, Hf1];
      apply observables_index_key. }
  destruct (zadd_ok _ _ identifier t _ Hm2) as (σ3 & Hadd & Hm3 & Hf3).
  exists σ3. split_and!.
  - unfold set_observable.
    rewrite (bind_ok _ _ _ _ _ (getitem_ok _ _ _ _ Hd)).
    rewrite (bind_ok _ _ _ _ _ (fromisoformat_timestamp_ok _ _ _ Ht)).
    rewrite (bind_ok _ _ _ _ _ (getitem_ok _ _ _ _ Hs)).
    rewrite (bind_ok _ _ _ _ _ (getitem_ok _ _ _ _ Hty)).
    fold identifier.
    rewrite (bind_ok _ _ _ _ _ Hset).
    rewrite (bind_ok _ _ _ _ _ (hexists_ok _ _ "warninglist" _ Hh1)).
    by rewrite (bind_ok _ _ _ _ _ Hclear).
  - rewrite <-Hh2. apply hash_at_frame, Hf3.
    intros E. symmetry in E. by apply observables_index_key in E.
  - done.
  - intros k Hk1 Hk2. by rewrite Hf3, Hf2, Hf1.
Qed.

End writes.

Section lookups.
Context `{Runtime}.


End lookups.

Section round_trip.
Context `{Runtime}.
Implicit Types (σ : db) (h r : record).


(** C2, as the code has it. Two writes of a session merge: after
    [set_user r1] and [set_user r2] the record of the session has every
    field of [r2] with the value [r2] gives it, and every other field is
    as [set_user r1] left it, so a field of [r1] that [r2] does not have
    is still there. *)
Theorem set_user_twice_merges (s : string) (r1 r2 h0 : record)
    (members : gset string) σ :
  (0 < session_expire)%Z →
  r1 !! "session_id" = Some s →
  r2 !! "session_id" = Some s →
  hash_at σ ("users:" +:+ s) = Some h0 →
  set_at σ "users" = Some members →
  let σ1 := exec (set_user r1) σ in
  let σ2 := exec (set_user r2) σ1 in
  run (set_user r1) σ = Ok tt ∧
  run (set_user r2) σ1 = Ok tt ∧
  ∃ first stored,
    run (get_user s) σ1 = Ok first ∧
    run (get_user s) σ2 = Ok stored ∧
    (∀ f x, r2 !! f = Some x → stored !! f = Some x) ∧
    (∀ f, r2 !! f = None → stored !! f = first !! f) ∧
    (∀ f x, r1 !! f = Some x → r2 !! f = None → stored !! f = Some x).
Proof.
  intros Hexp Hs1 Hs2 Hh0 Hm σ1 σ2.
  destruct (set_user_spec _ _ _ _ _ Hexp Hs1 Hh0 Hm) as (σ' & Hrun1 & Hh1 & Hm1 & _).
  assert (σ1 = σ') as Hσ1 by (unfold σ1, exec; by rewrite Hrun1).
  destruct (set_user_spec _ _ _ _ _ Hexp Hs2 Hh1 Hm1) as (σ'' & Hrun2 & Hh2 & _).
  assert (σ2 = σ'') as Hσ2 by (unfold σ2, exec; by rewrite Hσ1, Hrun2).
  clearbody σ1 σ2. subst σ1 σ2.
  split_and!.
  - unfold run. by rewrite Hrun1.
  - unfold run. by rewrite Hrun2.
  - exists (r1 ∪ h0), (r2 ∪ (r1 ∪ h0)). unfold run, get_user.
    rewrite (hgetall_ok _ _ _ Hh1), (hgetall_ok _ _ _ Hh2). split_and!; try done.
    + intros f x Hf. by apply lookup_union_Some_l.
    + intros f Hf. by rewrite lookup_union_r.
    + intros f x Hf1 Hf2. rewrite lookup_union_r by done.
      by apply lookup_union_Some_l.
Qed.

End round_trip.

(** ** Sorting *)

Lemma ltb_false_le (a b : string) : String.ltb a b = false → String.le b a.
Proof.
  unfold String.le, String.ltb, String.leb. rewrite (String.compare_antisym a b).
  by destruct (String.compare b a).
Qed.

Lemma ltb_true_le (a b : string) : String.ltb a b = true → String.le a b.
Proof.
  unfold String.le, String.ltb, String.leb. by destruct (String.compare a b).
Qed.

Section sort_desc.
Context {A : Type} (lt : A → A → bool) (R : relation A).
Hypothesis lt_false : ∀ x y, lt x y = false → R x y.
Hypothesis lt_true : ∀ x y, lt x y = true → R y x.
Hypothesis R_trans : Transitive R.

Lemma insert_desc_perm x l : insert_desc lt x l ≡ₚ x :: l.
Proof.
  induction l as [|y l IH]; simpl; [done|].
  destruct (lt x y); [|done]. rewrite IH. apply Permutation_swap.
Qed.

Lemma sort_desc_perm l : sort_desc lt l ≡ₚ l.
Proof.
  induction l as [|x l IH]; simpl; [done|].
  by rewrite insert_desc_perm, IH.
Qed.

Lemma insert_desc_sorted x l :
  StronglySorted R l → StronglySorted R (insert_desc lt x l).
Proof.
  induction 1 as [|y l Hl IH Hy]; simpl.
  - repeat constructor.
  - destruct (lt x y) eqn:E.
    + constructor; [done|]. rewrite insert_desc_perm.
      constructor; [by apply lt_true|done].
    + constructor; [by constructor|].
      constructor; [by apply lt_false|].
      eapply Forall_impl; [done|]. intros z Hz. etrans; [|done]. by apply lt_false.
Qed.

Lemma sort_desc_sorted l : StronglySorted R (sort_desc lt l).
Proof.
  induction l as [|x l IH]; simpl; [constructor|].
  by apply insert_desc_sorted.
Qed.
End sort_desc.

Lemma sort_desc_key_sorted (l : list (string * record)) :
  StronglySorted (λ x y, String.le y.1 x.1) (sort_desc key_lt l).
Proof.
  apply sort_desc_sorted.
  - intros x y. apply ltb_false_le.
  - intros x y. apply ltb_true_le.
  - intros x y z Hxy Hyz. by etrans.
Qed.

Lemma insert_asc_perm x l : insert_asc x l ≡ₚ x :: l.
Proof.
  induction l as [|y l IH]; simpl; [done|].
  destruct (String.ltb y x); [|done]. rewrite IH. apply Permutation_swap.
Qed.

Lemma sorted_perm l : sorted l ≡ₚ l.
Proof.
  induction l as [|x l IH]; simpl; [done|].
  by rewrite insert_asc_perm, IH.
Qed.

Lemma insert_asc_sorted x l :
  StronglySorted String.le l → StronglySorted String.le (insert_asc x l).
Proof.
  induction 1 as [|y l Hl IH Hy]; simpl.
  - repeat constructor.
  - destruct (String.ltb y x) eqn:E.
    + constructor; [done|]. rewrite insert_asc_perm.
      constructor; [by apply ltb_true_le|done].
    + constructor; [by constructor|].
      constructor; [by apply ltb_false_le|].
      eapply Forall_impl; [done|]. intros z Hz. etrans; [|done]. by apply ltb_false_le.
Qed.

Lemma sorted_sorted l : StronglySorted String.le (sorted l).
Proof.
  induction l as [|x l IH]; simpl; [constructor|].
  by apply insert_asc_sorted.
Qed.

(** A sorted list stays sorted under a map that respects the order on the
    elements of the list. *)
Lemma StronglySorted_fmap_on {A B} (R : relation A) (R' : relation B) (g : A → B) l :
  (∀ x y, x ∈ l → y ∈ l → R x y → R' (g x) (g y)) →
  StronglySorted R l → StronglySorted R' (g <$> l).
Proof.
  intros Hg Hl. induction Hl as [|x l Hl IH Hx]; simpl; [constructor|].
  constructor.
  - apply IH. intros y z Hy Hz. apply Hg; by right.
  - apply Forall_fmap, Forall_forall. intros y Hy. simpl.
    apply Hg; [by left|by right|]. by eapply Forall_forall in Hx.
Qed.

Section sort_by_field.
Implicit Types (σ : db) (l : list record).

Lemma itemgetter_keys_ok f l σ :
  Forall (λ d, is_Some (d !! f)) l →
  ∃ keyed, itemgetter_keys f l σ = (Ok keyed, σ) ∧ keyed.*2 = l ∧
           Forall (λ p, p.2 !! f = Some p.1) keyed.
Proof.
  induction 1 as [|d l [v Hv] Hl (keyed & Hrun & Hk & Hf)]; simpl.
  - by exists [].
  - exists ((v, d) :: keyed).
    rewrite (bind_ok _ _ _ _ _ (getitem_ok _ _ _ _ Hv)).
    rewrite (bind_ok _ _ _ _ _ Hrun).
    split_and!; [done|by rewrite fmap_cons, Hk|by constructor].
Qed.

(** A dict without the field stops the sort with [KeyError]. *)
Lemma itemgetter_keys_missing f l σ :
  Exists (λ d, d !! f = None) l →
  itemgetter_keys f l σ = (Raise (KeyError f), σ).
Proof.
  induction l as [|d l IH]; intros Hex; [by apply Exists_nil in Hex|].
  simpl. unfold bind, getitem. destruct (d !! f) as [v|] eqn:Hv; [|done].
  simpl. apply Exists_cons in Hex as [?|Hex]; [congruence|].
  by rewrite (IH Hex).
Qed.

Lemma sort_by_field_desc_ok f l σ :
  Forall (λ d, is_Some (d !! f)) l →
  ∃ l', sort_by_field_desc f l σ = (Ok l', σ) ∧ l' ≡ₚ l ∧ sorted_desc_by f l'.
Proof.
  intros Hl. destruct (itemgetter_keys_ok f l σ Hl) as (keyed & Hrun & Hk & Hf).
  exists ((sort_desc key_lt keyed).*2). split_and!.
  - unfold sort_by_field_desc. by rewrite (bind_ok _ _ _ _ _ Hrun).
  - by rewrite sort_desc_perm, Hk.
  - eapply StronglySorted_fmap_on; [|apply sort_desc_key_sorted].
    intros x y Hx Hy Hxy.
    rewrite sort_desc_perm in Hx, Hy.
    eapply Forall_forall in Hx, Hy; [|done..].
    by exists x.1, y.1.
Qed.

Lemma sort_by_field_desc_missing f l σ :
  Exists (λ d, d !! f = None) l →
  sort_by_field_desc f l σ = (Raise (KeyError f), σ).
Proof.
  intros Hex. unfold sort_by_field_desc.
  by rewrite (bind_raise _ _ _ _ _ (itemgetter_keys_missing _ _ _ Hex)).
Qed.

End sort_by_field.

(** ** Listing the sessions *)

Section users.
Context `{Runtime}.
Implicit Types (σ : db) (l : list string).

Lemma user_record_ok_typed σ sid :
  user_record_ok σ sid → hash_at σ ("users:" +:+ sid) = Some (user_record σ sid).
Proof.
  unfold user_record_ok, user_record.
  destruct (hash_at σ ("users:" +:+ sid)); [done|].
  intros [?|[? ?]]; simplify_eq/=.
Qed.

Lemma get_users_loop σ l acc :
  Forall (user_record_ok σ) l →
  for_fold l acc get_users_step σ
  = (Ok (acc.1 ++ live_users σ l, acc.2 ++ stale_ids σ l), σ).
Proof.
  unfold live_users, stale_ids.
  intros Hl. revert acc. induction Hl as [|sid l Hsid Hl IH]; intros [users to_pop]; simpl.
  - by rewrite !app_nil_r.
  - unfold get_users_step at 1. unfold bind.
    rewrite (hgetall_ok _ _ _ (user_record_ok_typed _ _ Hsid)).
    rewrite (filter_cons (λ u : record, u ≠ ∅)), (filter_cons (λ s, user_record σ s = ∅)).
    simpl. case_bool_decide as Hne.
    + rewrite decide_True by done. rewrite decide_False by done.
      unfold ret at 1. rewrite IH. simpl. by rewrite <-app_assoc.
    + rewrite decide_False by (by intros ?). rewrite decide_True by done.
      unfold ret at 1. rewrite IH. simpl. by rewrite <-app_assoc.
Qed.

Lemma live_users_have_last_seen σ l :
  Forall (user_record_ok σ) l →
  Forall (λ d : record, is_Some (d !! "last_seen")) (live_users σ l).
Proof.
  intros Hl. apply Forall_forall. intros u.
  unfold live_users. rewrite list_elem_of_filter, list_elem_of_fmap.
  intros (Hne & sid & -> & Hsid).
  eapply Forall_forall in Hl; [|done].
  pose proof (user_record_ok_typed _ _ Hl) as Ht.
  destruct Hl as [He|Hs].
  - rewrite Ht in He. by simplify_eq.
  - by rewrite Ht in Hs.
Qed.

(** What [get_users] does on a store whose sessions keep to the schema:
    it returns the records of the sessions that still have one, sorted
    by [last_seen], the latest first, and takes the others out of the
    index; no other key changes. *)
Lemma get_users_spec σ (members : gset string) :
  set_at σ "users" = Some members →
  set_Forall (user_record_ok σ) members →
  ∃ users σ', get_users σ = (Ok users, σ') ∧
    users ≡ₚ live_users σ (set_iter members) ∧
    sorted_desc_by "last_seen" users ∧
    set_at σ' "users" = Some (members ∖ list_to_set (stale_ids σ (set_iter members))) ∧
    ∀ k, k ≠ "users" → σ' !! k = σ !! k.
Proof.
  intros Hm Hok.
  assert (Forall (user_record_ok σ) (set_iter members)) as Hl.
  { apply Forall_forall. intros sid Hsid. apply Hok.
    rewrite set_iter_perm in Hsid. by apply elem_of_elements. }
  assert (∃ σ',
    (if bool_decide (stale_ids σ (set_iter members) ≠ [])
     then srem "users" (stale_ids σ (set_iter members)) else ret tt) σ = (Ok tt, σ') ∧
    set_at σ' "users" = Some (members ∖ list_to_set (stale_ids σ (set_iter members))) ∧
    ∀ k, k ≠ "users" → σ' !! k = σ !! k) as (σ' & Hprune & Hm' & Hframe).
  { case_bool_decide as Hst.
    - by apply srem_ok.
    - rewrite Hst. exists σ. split_and!; [done| |done].
      by rewrite Hm, list_to_set_nil, difference_empty_L. }
  destruct (sort_by_field_desc_ok "last_seen" _ σ' (live_users_have_last_seen _ _ Hl))
    as (users & Hsort & Hperm & Hsorted).
  exists users, σ'. split_and!; try done.
  unfold get_users.
  rewrite (bind_ok _ _ _ _ _ (smembers_ok _ _ _ Hm)).
  rewrite (bind_ok _ _ _ _ _ (get_users_loop _ _ ([], []) Hl)). simpl.
  by rewrite (bind_ok _ _ _ _ _ Hprune).
Qed.

End users.

Section self_healing.
Context `{Runtime}.
Implicit Types (σ : db).

(** C6. A session of the index whose record is gone is left out of what
    [get_users] returns and is no longer in the index after the call:
    the list holds exactly the records of the sessions that still have
    one, and these sessions stay in the index. *)
Theorem get_users_self_healing σ (members : gset string) (sid : string) :
  set_at σ "users" = Some members →
  set_Forall (user_record_ok σ) members →
  sid ∈ members →
  hash_at σ ("users:" +:+ sid) = Some ∅ →
  ∃ users members',
    run get_users σ = Ok users ∧
    (∀ u, u ∈ users ↔
          (u ≠ ∅ ∧ ∃ sid', sid' ∈ members ∧ sid' ≠ sid ∧ run (get_user sid') σ = Ok u)) ∧
    run (smembers "users") (exec get_users σ) = Ok members' ∧
    (sid ∉ members') ∧
    (∀ sid', sid' ∈ members' ↔ (sid' ∈ members ∧ user_record σ sid' ≠ ∅)).
Proof.
  intros Hm Hok Hsid Hgone.
  destruct (get_users_spec σ members Hm Hok) as (users & σ' & Hrun & Hperm & _ & Hm' & _).
  assert (user_record σ sid = ∅) as Hrec by (unfold user_record; by rewrite Hgone).
  assert (∀ s, s ∈ list_to_set (C:=gset string) (stale_ids σ (set_iter members))
               ↔ s ∈ members ∧ user_record σ s = ∅) as Hstale.
  { intros s. unfold stale_ids.
    rewrite elem_of_list_to_set, list_elem_of_filter, set_iter_perm, elem_of_elements.
    tauto. }
  eexists users, _. unfold run, exec. rewrite Hrun. simpl.
  rewrite (smembers_ok _ _ _ Hm'). simpl. split_and!; try done.
  - intros u. rewrite Hperm. unfold live_users.
    rewrite list_elem_of_filter, list_elem_of_fmap. split.
    + intros (Hne & s & -> & Hs). split; [done|].
      rewrite set_iter_perm, elem_of_elements in Hs.
      exists s. split_and!; [done|by intros ->|].
      unfold get_user. by rewrite (hgetall_ok _ _ _ (user_record_ok_typed _ _ (Hok _ Hs))).
    + intros (Hne & s & Hs & _ & Hget). split; [done|].
      exists s. rewrite set_iter_perm, elem_of_elements. split; [|done].
      unfold get_user in Hget.
      rewrite (hgetall_ok _ _ _ (user_record_ok_typed _ _ (Hok _ Hs))) in Hget.
      by simplify_eq/=.
  - rewrite elem_of_difference, Hstale. tauto.
  - intros s. rewrite elem_of_difference, Hstale.
    destruct (decide (user_record σ s = ∅)); tauto.
Qed.

End self_healing.

(** ** Listing the tasks, the roles and the observables of a task *)

Section listings.
Context `{Runtime}.
Implicit Types (σ : db).

Lemma task_record_ok_typed σ uuid :
  task_record_ok σ uuid → hash_at σ ("tasks:" +:+ uuid) = Some (task_record σ uuid).
Proof.
  unfold task_record_ok, task_record.
  destruct (hash_at σ ("tasks:" +:+ uuid)); [done|]. by intros [? ?].
Qed.

Lemma task_record_ok_field σ uuid :
  task_record_ok σ uuid → is_Some (task_record σ uuid !! "save_date").
Proof.
  unfold task_record_ok, task_record.
  destruct (hash_at σ ("tasks:" +:+ uuid)); [done|]. by intros [? ?].
Qed.

Lemma get_tasks_loop σ (uuids : list string) (acc : list record) :
  Forall (λ uuid, is_Some (hash_at σ ("tasks:" +:+ uuid))) uuids →
  for_fold uuids acc
    (λ tasks uuid, let* task := get_task uuid in ret (tasks ++ [task])) σ
  = (Ok (acc ++ (task_record σ <$> uuids)), σ).
Proof.
  intros Hl. revert acc. induction Hl as [|uuid l [h Hh] Hl IH]; intros acc; simpl.
  - by rewrite app_nil_r.
  - unfold bind, get_task. rewrite (hgetall_ok _ _ _ Hh). unfold ret at 1.
    rewrite IH. unfold task_record at 2. rewrite Hh. simpl. by rewrite <-app_assoc.
Qed.

Lemma zrange_desc_perm (z : gmap string score) lo hi :
  zrange_desc z lo hi
  ≡ₚ (filter (λ p : string * score, in_range lo hi p.2) (map_to_list z)).*1.
Proof. unfold zrange_desc. by rewrite sort_desc_perm. Qed.

Lemma zrange_desc_dom (z : gmap string score) lo hi uuid :
  uuid ∈ zrange_desc z lo hi → is_Some (z !! uuid).
Proof.
  rewrite zrange_desc_perm, list_elem_of_fmap.
  intros ([k sc] & -> & [_ Hin%elem_of_map_to_list]%list_elem_of_filter). eauto.
Qed.

Lemma with_bounds_ok {A} a b lo hi (k : zbound → zbound → M A) :
  parse_bound a = Some lo → parse_bound b = Some hi → with_bounds a b k = k lo hi.
Proof. unfold with_bounds. by intros -> ->. Qed.

Lemma with_bounds_refused {A} a b (k : zbound → zbound → M A) :
  ¬ (is_Some (parse_bound a) ∧ is_Some (parse_bound b)) →
  with_bounds a b k = raise NotAFloat.
Proof.
  unfold with_bounds. intros Hno.
  destruct (parse_bound a), (parse_bound b); try done. destruct Hno; eauto.
Qed.

Lemma count_tasks_spec σ z a b lo hi :
  zset_at σ "tasks" = Some z →
  parse_bound a = Some lo → parse_bound b = Some hi →
  count_tasks a b σ = (Ok (length (zrange_desc z lo hi)), σ).
Proof.
  intros Hz Ha Hb. unfold count_tasks, zcount.
  rewrite (bind_ok _ _ _ _ _ (zsetval_ok _ _ _ Hz)).
  rewrite (with_bounds_ok _ _ _ _ _ Ha Hb).
  by rewrite zrange_desc_perm, length_fmap.
Qed.

(** What [get_tasks] does when the tasks of the range have their record:
    the records of the range, the latest [save_date] first; the store
    is not written. *)
Lemma get_tasks_spec σ z a b lo hi :
  zset_at σ "tasks" = Some z →
  parse_bound a = Some lo → parse_bound b = Some hi →
  Forall (task_record_ok σ) (zrange_desc z lo hi) →
  ∃ tasks, get_tasks a b σ = (Ok tasks, σ) ∧
    tasks ≡ₚ task_record σ <$> zrange_desc z lo hi ∧
    sorted_desc_by "save_date" tasks.
Proof.
  intros Hz Ha Hb Hok.
  assert (Forall (λ d : record, is_Some (d !! "save_date"))
                 (task_record σ <$> zrange_desc z lo hi)) as Hfield.
  { apply Forall_fmap. eapply Forall_impl; [done|]. apply task_record_ok_field. }
  destruct (sort_by_field_desc_ok "save_date" _ σ Hfield) as (tasks & Hsort & Hperm & Hsorted).
  exists tasks. split_and!; try done.
  unfold get_tasks, zrevrangebyscore.
  rewrite (bind_ok _ (λ uuids, _) σ (zrange_desc z lo hi) σ); last first.
  { rewrite (bind_ok _ _ _ _ _ (zsetval_ok _ _ _ Hz)).
    by rewrite (with_bounds_ok _ _ _ _ _ Ha Hb). }
  assert (Forall (λ uuid, is_Some (hash_at σ ("tasks:" +:+ uuid)))
                 (zrange_desc z lo hi)) as Hty.
  { eapply Forall_impl; [done|]. intros uuid Hu.
    rewrite (task_record_ok_typed _ _ Hu). eauto. }
  by rewrite (bind_ok _ _ _ _ _ (get_tasks_loop σ _ [] Hty)).
Qed.

(** X24. A task of the range without the field [save_date], as one whose
    record is gone, stops [get_tasks] with [KeyError]. *)
Lemma get_tasks_missing σ z a b lo hi :
  zset_at σ "tasks" = Some z →
  parse_bound a = Some lo → parse_bound b = Some hi →
  Forall (λ uuid, is_Some (hash_at σ ("tasks:" +:+ uuid))) (zrange_desc z lo hi) →
  Exists (λ uuid, task_record σ uuid !! "save_date" = None) (zrange_desc z lo hi) →
  get_tasks a b σ = (Raise (KeyError "save_date"), σ).
Proof.
  intros Hz Ha Hb Hty Hex.
  unfold get_tasks, zrevrangebyscore.
  rewrite (bind_ok _ (λ uuids, _) σ (zrange_desc z lo hi) σ); last first.
  { rewrite (bind_ok _ _ _ _ _ (zsetval_ok _ _ _ Hz)).
    by rewrite (with_bounds_ok _ _ _ _ _ Ha Hb). }
  rewrite (bind_ok _ _ _ _ _ (get_tasks_loop σ _ [] Hty)). simpl.
  apply sort_by_field_desc_missing. by apply Exists_fmap.
Qed.

Lemma get_tasks_refused σ z a b :
  zset_at σ "tasks" = Some z →
  ¬ (is_Some (parse_bound a) ∧ is_Some (parse_bound b)) →
  get_tasks a b σ = (Raise NotAFloat, σ) ∧ count_tasks a b σ = (Raise NotAFloat, σ).
Proof.
  intros Hz Hno. unfold get_tasks, count_tasks, zrevrangebyscore, zcount. split.
  - rewrite (bind_raise _ (λ uuids, _) σ NotAFloat σ); [done|].
    rewrite (bind_ok _ _ _ _ _ (zsetval_ok _ _ _ Hz)).
    by rewrite with_bounds_refused.
  - rewrite (bind_ok _ _ _ _ _ (zsetval_ok _ _ _ Hz)).
    by rewrite with_bounds_refused.
Qed.

(** C4. On a store where every task of the index has its record with
    the field [save_date], [count_tasks] and [len(get_tasks(...))] agree
    for all bounds: both return, with the count equal to the length of
    the list, when Redis accepts the two bounds, and both raise the
    error of Redis when it does not. *)
Theorem count_tasks_is_len_get_tasks σ (z : gmap string score) (a b : pyarg) :
  zset_at σ "tasks" = Some z →
  map_Forall (λ uuid _, task_record_ok σ uuid) z →
  run (count_tasks a b) σ = rmap length (run (get_tasks a b) σ) ∧
  (is_Some (parse_bound a) → is_Some (parse_bound b) →
   ∃ tasks, run (get_tasks a b) σ = Ok tasks ∧
            run (count_tasks a b) σ = Ok (length tasks)) ∧
  (¬ (is_Some (parse_bound a) ∧ is_Some (parse_bound b)) →
   run (get_tasks a b) σ = Raise NotAFloat ∧
   run (count_tasks a b) σ = Raise NotAFloat).
Proof.
  intros Hz Hok.
  assert (∀ lo hi, parse_bound a = Some lo → parse_bound b = Some hi →
    ∃ tasks, run (get_tasks a b) σ = Ok tasks ∧
             run (count_tasks a b) σ = Ok (length tasks)) as Hyes.
  { intros lo hi Ha Hb.
    destruct (get_tasks_spec σ z a b lo hi Hz Ha Hb) as (tasks & Hrun & Hperm & _).
    { apply Forall_forall. intros uuid [sc Hu]%zrange_desc_dom. by eapply Hok. }
    exists tasks. unfold run. rewrite Hrun, (count_tasks_spec _ _ _ _ _ _ Hz Ha Hb).
    simpl. split; [done|]. f_equal.
    apply Permutation_length in Hperm. by rewrite Hperm, length_fmap. }
  assert (¬ (is_Some (parse_bound a) ∧ is_Some (parse_bound b)) →
    run (get_tasks a b) σ = Raise NotAFloat ∧
    run (count_tasks a b) σ = Raise NotAFloat) as Hno.
  { intros Hno. unfold run. by destruct (get_tasks_refused σ z a b Hz Hno) as [-> ->]. }
  split_and!; [|intros [lo Ha] [hi Hb]; eauto|done].
  destruct (parse_bound a) as [lo|] eqn:Ha, (parse_bound b) as [hi|] eqn:Hb.
  - destruct (Hyes lo hi eq_refl eq_refl) as (tasks & -> & ->). done.
  - destruct Hno as [-> ->]; [|done]. by intros [_ []].
  - destruct Hno as [-> ->]; [|done]. by intros [[] _].
  - destruct Hno as [-> ->]; [|done]. by intros [[] _].
Qed.

End listings.

Section more_listings.
Context `{Runtime}.
Implicit Types (σ : db).

Lemma role_record_ok_typed σ name :
  role_record_ok σ name → hash_at σ ("roles:" +:+ name) = Some (role_record σ name).
Proof.
  unfold role_record_ok, role_record.
  by destruct (hash_at σ ("roles:" +:+ name)).
Qed.

Lemma role_record_ok_field σ name :
  role_record_ok σ name → role_record σ name !! "name" = Some name.
Proof.
  unfold role_record_ok, role_record.
  by destruct (hash_at σ ("roles:" +:+ name)).
Qed.

Lemma get_roles_loop σ (names : list string) (acc : list record) :
  Forall (λ name, is_Some (hash_at σ ("roles:" +:+ name))) names →
  for_fold names acc
    (λ roles role_name, let* role := get_role role_name in ret (roles ++ [role])) σ
  = (Ok (acc ++ (role_record σ <$> names)), σ).
Proof.
  intros Hl. revert acc. induction Hl as [|name l [h Hh] Hl IH]; intros acc; simpl.
  - by rewrite app_nil_r.
  - unfold bind, get_role. rewrite (hgetall_ok _ _ _ Hh). unfold ret at 1.
    rewrite IH. unfold role_record at 2. rewrite Hh. simpl. by rewrite <-app_assoc.
Qed.

(** [get_roles] returns the record of each role of the index, in the
    ascending order of the names; a role without a record gives an empty
    dict. The store is not written. *)
Lemma get_roles_spec σ (members : gset string) :
  set_at σ "roles" = Some members →
  set_Forall (λ name, is_Some (hash_at σ ("roles:" +:+ name))) members →
  get_roles σ = (Ok (role_record σ <$> sorted (set_iter members)), σ) ∧
  StronglySorted String.le (sorted (set_iter members)) ∧
  sorted (set_iter members) ≡ₚ elements members.
Proof.
  intros Hm Hok. split_and!.
  - unfold get_roles. rewrite (bind_ok _ _ _ _ _ (smembers_ok _ _ _ Hm)).
    rewrite get_roles_loop; [done|].
    apply Forall_forall. intros name Hn. apply Hok.
    rewrite sorted_perm, set_iter_perm in Hn. by apply elem_of_elements.
  - apply sorted_sorted.
  - by rewrite sorted_perm, set_iter_perm.
Qed.

Lemma get_task_observables_loop σ (ids : list string) (acc : list record) :
  Forall (λ i, is_Some (hash_at σ ("observables:" +:+ looked_up i))) ids →
  for_fold ids acc
    (λ observables identifier,
       let* observable := get_observable None None (Some identifier) in
       if bool_decide (observable ≠ ∅)
       then ret (observables ++ [observable])
       else ret observables) σ
  = (Ok (acc ++ filter (λ d, d ≠ ∅) (observable_record σ ∘ looked_up <$> ids)), σ).
Proof.
  intros Hl. revert acc. induction Hl as [|i l [h Hh] Hl IH]; intros acc; simpl.
  - by rewrite app_nil_r.
  - assert (get_observable None None (Some i) σ = (Ok h, σ)) as Hget.
    { unfold get_observable. rewrite <-(hgetall_ok _ _ _ Hh). by destruct i. }
    assert (observable_record σ (looked_up i) = h) as Hrec
      by (unfold observable_record; by rewrite Hh).
    unfold bind. rewrite Hget.
    rewrite (filter_cons (λ d : record, d ≠ ∅)). simpl. rewrite Hrec.
    case_bool_decide as Hne.
    + rewrite decide_True by done. unfold ret at 1. rewrite IH. by rewrite <-app_assoc.
    + rewrite decide_False by (by intros ?). unfold ret at 1. by rewrite IH.
Qed.

(** [get_task_observables] leaves out the identifiers of the set of the
    task that have no record, and writes nothing. *)
Lemma get_task_observables_spec σ (task_uuid : string) (members : gset string) :
  set_at σ (task_uuid +:+ ":observables") = Some members →
  set_Forall (λ i, is_Some (hash_at σ ("observables:" +:+ looked_up i))) members →
  get_task_observables task_uuid σ
  = (Ok (filter (λ d, d ≠ ∅) (observable_record σ ∘ looked_up <$> set_iter members)), σ).
Proof.
  intros Hm Hok. unfold get_task_observables.
  rewrite (bind_ok _ _ _ _ _ (smembers_ok _ _ _ Hm)).
  rewrite get_task_observables_loop; [done|].
  apply Forall_forall. intros i Hi. apply Hok.
  rewrite set_iter_perm in Hi. by apply elem_of_elements.
Qed.

(** C5. On a store that keeps to the schema, the three listings return
    the records of their index, each once, in order: [get_users] the
    records of the sessions that are not empty, sorted by [last_seen],
    descending; [get_tasks] the records of the tasks within the bounds,
    sorted by [save_date], descending; [get_roles] the records of the
    roles, sorted by the role name, ascending. *)
Theorem listing_order σ (sessions roles : gset string) (z : gmap string score)
    (first_date last_date : pyarg) (lo hi : zbound) :
  set_at σ "users" = Some sessions →
  set_Forall (user_record_ok σ) sessions →
  zset_at σ "tasks" = Some z →
  map_Forall (λ uuid _, task_record_ok σ uuid) z →
  parse_bound first_date = Some lo →
  parse_bound last_date = Some hi →
  set_at σ "roles" = Some roles →
  set_Forall (role_record_ok σ) roles →
  (∃ l, run get_users σ = Ok l ∧
        l ≡ₚ filter (λ d, d ≠ ∅) (user_record σ <$> elements sessions) ∧
        sorted_desc_by "last_seen" l) ∧
  (∃ l, run (get_tasks first_date last_date) σ = Ok l ∧
        l ≡ₚ task_record σ <$>
               (filter (λ p : string * score, in_range lo hi p.2) (map_to_list z)).*1 ∧
        sorted_desc_by "save_date" l) ∧
  (∃ l, run get_roles σ = Ok l ∧
        l ≡ₚ role_record σ <$> elements roles ∧
        sorted_asc_by "name" l).
Proof.
  intros Hu Huok Hz Hzok Ha Hb Hr Hrok. split_and!.
  - destruct (get_users_spec σ sessions Hu Huok) as (l & σ' & Hrun & Hperm & Hsorted & _).
    exists l. unfold run. rewrite Hrun. split_and!; [done| |done].
    rewrite Hperm. unfold live_users. by rewrite set_iter_perm.
  - destruct (get_tasks_spec σ z _ _ lo hi Hz Ha Hb) as (l & Hrun & Hperm & Hsorted).
    { apply Forall_forall. intros uuid [sc Hin]%zrange_desc_dom. by eapply Hzok. }
    exists l. unfold run. rewrite Hrun. split_and!; [done| |done].
    by rewrite Hperm, zrange_desc_perm.
  - destruct (get_roles_spec σ roles Hr) as (Hrun & Hsorted & Hperm).
    { intros name Hn. rewrite (role_record_ok_typed _ _ (Hrok _ Hn)). eauto. }
    eexists. unfold run. rewrite Hrun. split_and!; [done|by rewrite Hperm|].
    eapply StronglySorted_fmap_on; [|done].
    intros x y Hx Hy Hxy. exists x, y.
    rewrite Hperm in Hx, Hy. apply elem_of_elements in Hx, Hy.
    by rewrite !role_record_ok_field by by apply Hrok.
Qed.

End more_listings.

(** ** [count_tasks] and [get_tasks] on any store *)

Section any_store.
Context `{Runtime}.
Implicit Types (σ : db).

Lemma get_tasks_loop_length σ σ' (uuids : list string) (acc tasks : list record) :
  for_fold uuids acc
    (λ tasks uuid, let* task := get_task uuid in ret (tasks ++ [task])) σ
  = (Ok tasks, σ') →
  length tasks = length acc + length uuids ∧ σ' = σ.
Proof.
  revert acc. induction uuids as [|uuid l IH]; intros acc; simpl.
  - intros [= <- <-]. split; [lia|done].
  - unfold bind at 1. unfold bind at 1. unfold get_task.
    pose proof (@hgetall_state ("tasks:" +:+ uuid) σ) as Hst.
    destruct (hgetall ("tasks:" +:+ uuid) σ) as [[task|e] σ1]; simpl in *; [|done].
    subst σ1. intros [Hlen ->]%IH. rewrite length_app in Hlen. simpl in *. split; [lia|done].
Qed.

Lemma itemgetter_keys_length f (l : list record) σ σ' keyed :
  itemgetter_keys f l σ = (Ok keyed, σ') → length keyed = length l.
Proof.
  revert σ σ' keyed. induction l as [|d l IH]; intros σ σ' keyed; simpl.
  - by intros [= <- <-].
  - unfold bind, getitem. destruct (d !! f) as [v|]; [|done]. simpl.
    destruct (itemgetter_keys f l σ) as [[r|e] σ1] eqn:E; simpl; [|done].
    intros [= <- <-]. simpl. by rewrite (IH _ _ _ E).
Qed.

Lemma zsetval_wrong σ k : zset_at σ k = None → zsetval k σ = (Raise WrongType, σ).
Proof. unfold zset_at, zsetval. intros. case_entry σ k. Qed.

(** X25. Whatever the store holds: when [get_tasks] returns a list,
    [count_tasks] with the same bounds returns its length. *)
Lemma get_tasks_returns_count σ (a b : pyarg) (tasks : list record) :
  run (get_tasks a b) σ = Ok tasks →
  run (count_tasks a b) σ = Ok (length tasks).
Proof.
  unfold run. intros Hrun.
  destruct (zset_at σ "tasks") as [z|] eqn:Hz; last first.
  { unfold get_tasks, zrevrangebyscore in Hrun.
    rewrite (bind_raise _ _ σ WrongType σ) in Hrun; [done|].
    by rewrite (bind_raise _ _ _ _ _ (zsetval_wrong _ _ Hz)). }
  destruct (parse_bound a) as [lo|] eqn:Ha, (parse_bound b) as [hi|] eqn:Hb;
    try (destruct (get_tasks_refused σ z a b Hz) as [Hno _];
         [rewrite Ha, Hb; by intros [[] []]|by rewrite Hno in Hrun]).
  rewrite (count_tasks_spec _ _ _ _ _ _ Hz Ha Hb). simpl. f_equal.
  unfold get_tasks, zrevrangebyscore in Hrun.
  rewrite (bind_ok _ (λ uuids, _) σ (zrange_desc z lo hi) σ) in Hrun; last first.
  { rewrite (bind_ok _ _ _ _ _ (zsetval_ok _ _ _ Hz)).
    by rewrite (with_bounds_ok _ _ _ _ _ Ha Hb). }
  unfold bind at 1 in Hrun.
  destruct (for_fold _ _ _ σ) as [[l|e] σ1] eqn:Hloop; simpl in Hrun; [|done].
  apply get_tasks_loop_length in Hloop as [Hlen ->].
  unfold sort_by_field_desc, bind in Hrun.
  destruct (itemgetter_keys "save_date" l σ) as [[keyed|e] σ2] eqn:Hkeys;
    simpl in Hrun; [|done].
  injection Hrun as <-.
  rewrite length_fmap, (Permutation_length (sort_desc_perm _ _)).
  by rewrite (itemgetter_keys_length _ _ _ _ _ Hkeys), Hlen.
Qed.

(** The default bounds of [get_tasks] and [count_tasks] are accepted. *)
Lemma default_bounds_accepted :
  parse_bound first_date_default = Some (ZBound false (FFin 0%Qc)) ∧
  parse_bound last_date_default = Some (ZBound false FPosInf).
Proof.
  split; [done|]. unfold parse_bound, last_date_default.
  change (strtod "+Inf" ≫= non_nan false = Some (ZBound false FPosInf)).
  by rewrite strtod_plus_inf.
Qed.

End any_store.

(** * The invariant of the store *)

Lemma string_app_length (a b : string) :
  String.length (a +:+ b) = String.length a + String.length b.
Proof. induction a as [|c a IH]; simpl; [done|]. unfold String.app in *. simpl. by rewrite IH. Qed.

Ltac key_length :=
  let E := fresh "E" in
  intros E; apply (f_equal String.length) in E;
  rewrite ?string_app_length in E; simpl in E; lia.

Lemma observables_set_not_tasks x : x +:+ ":observables" ≠ "tasks".
Proof. key_length. Qed.

Lemma observables_set_not_roles x : x +:+ ":observables" ≠ "roles".
Proof. key_length. Qed.

Lemma extracted_set_not_tasks x : "tasks:" +:+ x +:+ ":extracted" ≠ "tasks".
Proof. key_neq. Qed.

Section invariant.
Implicit Types (σ : db) (k : string) (e : entry).

Lemma task_record_ok_frame σ σ' uuid :
  σ' !! ("tasks:" +:+ uuid) = σ !! ("tasks:" +:+ uuid) →
  task_record_ok σ uuid → task_record_ok σ' uuid.
Proof. unfold task_record_ok. intros E. by rewrite (hash_at_frame _ _ _ E). Qed.

Lemma role_record_ok_frame σ σ' name :
  σ' !! ("roles:" +:+ name) = σ !! ("roles:" +:+ name) →
  role_record_ok σ name → role_record_ok σ' name.
Proof. unfold role_record_ok. intros E. by rewrite (hash_at_frame _ _ _ E). Qed.

Lemma task_record_ok_lookup σ uuid :
  task_record_ok σ uuid →
  ∃ h t, σ !! ("tasks:" +:+ uuid) = Some (Entry (RHash h) t) ∧ is_Some (h !! "save_date").
Proof.
  unfold task_record_ok, hash_at. intros [x Hx].
  case_entry σ ("tasks:" +:+ uuid); eauto.
Qed.

Lemma role_record_ok_lookup σ name :
  role_record_ok σ name →
  ∃ h t, σ !! ("roles:" +:+ name) = Some (Entry (RHash h) t) ∧ h !! "name" = Some name.
Proof.
  unfold role_record_ok, hash_at. intros Hx.
  case_entry σ ("roles:" +:+ name); eauto.
Qed.

(** The invariant carries over to a store that agrees on the two
    indexes and keeps the good records good. *)
Lemma schema_inv_frame σ σ' :
  schema_inv σ →
  no_ttl_outside_users σ' →
  σ' !! "tasks" = σ !! "tasks" →
  σ' !! "roles" = σ !! "roles" →
  (∀ uuid, task_record_ok σ uuid → task_record_ok σ' uuid) →
  (∀ name, role_record_ok σ name → role_record_ok σ' name) →
  schema_inv σ'.
Proof.
  intros (_ & (z & Hz & Hzok) & (s & Hs & Hsok)) Httl Ht Hr Htok Hrok.
  split_and!; [done|..].
  - exists z. rewrite (zset_at_frame _ _ _ Ht). split; [done|].
    intros uuid sc Hu. by eapply Htok, Hzok.
  - exists s. rewrite (set_at_frame _ _ _ Hr). split; [done|].
    intros name Hn. by apply Hrok, Hsok.
Qed.

Lemma no_ttl_insert σ k e :
  no_ttl_outside_users σ →
  (is_Some (e_ttl e) → ∃ s, k = "users:" +:+ s) →
  no_ttl_outside_users (<[k := e]> σ).
Proof.
  intros Hσ He k' e'. destruct (decide (k = k')) as [->|Hne].
  - rewrite lookup_insert_eq. intros [= <-]. done.
  - rewrite lookup_insert_ne by done. apply Hσ.
Qed.

Lemma no_ttl_delete σ k :
  no_ttl_outside_users σ → no_ttl_outside_users (delete k σ).
Proof.
  intros Hσ k' e'. destruct (decide (k = k')) as [->|Hne].
  - by rewrite lookup_delete_eq.
  - rewrite lookup_delete_ne by done. apply Hσ.
Qed.

Lemma no_ttl_kept σ k v t :
  no_ttl_outside_users σ → σ !! k = Some (Entry v t) →
  is_Some t → ∃ s, k = "users:" +:+ s.
Proof. intros Hσ Hk Ht. by eapply (Hσ k (Entry v t)). Qed.

(** A write to a key that is neither an index nor a good record. *)
Lemma schema_inv_insert_other σ k e :
  schema_inv σ →
  (is_Some (e_ttl e) → ∃ s, k = "users:" +:+ s) →
  k ≠ "tasks" → k ≠ "roles" →
  (∀ uuid, k = "tasks:" +:+ uuid → ¬ task_record_ok σ uuid) →
  (∀ name, k = "roles:" +:+ name → ¬ role_record_ok σ name) →
  schema_inv (<[k := e]> σ).
Proof.
  intros Hinv Httl Ht Hr Htask Hrole.
  apply (schema_inv_frame σ); [done|..].
  - apply no_ttl_insert; [apply Hinv|done].
  - by rewrite lookup_insert_ne.
  - by rewrite lookup_insert_ne.
  - intros uuid Hok. apply (task_record_ok_frame σ); [|done].
    rewrite lookup_insert_ne; [done|]. intros ->. by eapply Htask.
  - intros name Hok. apply (role_record_ok_frame σ); [|done].
    rewrite lookup_insert_ne; [done|]. intros ->. by eapply Hrole.
Qed.

Lemma schema_inv_delete_other σ k :
  schema_inv σ →
  k ≠ "tasks" → k ≠ "roles" →
  (∀ uuid, k = "tasks:" +:+ uuid → ¬ task_record_ok σ uuid) →
  (∀ name, k = "roles:" +:+ name → ¬ role_record_ok σ name) →
  schema_inv (delete k σ).
Proof.
  intros Hinv Ht Hr Htask Hrole.
  apply (schema_inv_frame σ); [done|..].
  - apply no_ttl_delete, Hinv.
  - by rewrite lookup_delete_ne.
  - by rewrite lookup_delete_ne.
  - intros uuid Hok. apply (task_record_ok_frame σ); [|done].
    rewrite lookup_delete_ne; [done|]. intros ->. by eapply Htask.
  - intros name Hok. apply (role_record_ok_frame σ); [|done].
    rewrite lookup_delete_ne; [done|]. intros ->. by eapply Hrole.
Qed.

(** A write that puts a hash where a hash was, and keeps the fields the
    invariant looks at. *)
Lemma schema_inv_insert_hash σ k h h' t :
  schema_inv σ →
  σ !! k = Some (Entry (RHash h) t) →
  (is_Some (h !! "save_date") → is_Some (h' !! "save_date")) →
  (∀ name, h !! "name" = Some name → k = "roles:" +:+ name → h' !! "name" = Some name) →
  schema_inv (<[k := Entry (RHash h') t]> σ).
Proof.
  intros Hinv Hk Hdate Hname.
  pose proof Hinv as (Httl & (z & Hz & Hzok) & (s & Hs & Hsok)).
  assert (k ≠ "tasks") as Ht.
  { intros ->. unfold zset_at in Hz. by rewrite Hk in Hz. }
  assert (k ≠ "roles") as Hr.
  { intros ->. unfold set_at in Hs. by rewrite Hk in Hs. }
  apply (schema_inv_frame σ); [done|..].
  - apply no_ttl_insert; [done|]. simpl. by eapply no_ttl_kept.
  - by rewrite lookup_insert_ne.
  - by rewrite lookup_insert_ne.
  - intros uuid Hok. destruct (decide (k = "tasks:" +:+ uuid)) as [->|Hne].
    + unfold task_record_ok, hash_at in *. rewrite lookup_insert_eq. rewrite Hk in Hok.
      simpl in *. by apply Hdate.
    + apply (task_record_ok_frame σ); [|done]. by rewrite lookup_insert_ne.
  - intros name Hok. destruct (decide (k = "roles:" +:+ name)) as [->|Hne].
    + unfold role_record_ok, hash_at in *. rewrite lookup_insert_eq. rewrite Hk in Hok.
      simpl in *. by apply Hname.
    + apply (role_record_ok_frame σ); [|done]. by rewrite lookup_insert_ne.
Qed.

End invariant.

(** ** Every command of the methods keeps the invariant *)

Section preservation.
Context `{Runtime}.
Implicit Types (σ : db) (k : string).

Lemma preserves_ret {A} (a : A) : preserves (ret a).
Proof. by intros σ. Qed.

Lemma preserves_raise {A} e : preserves (raise (A:=A) e).
Proof. by intros σ. Qed.

Lemma preserves_bind {A B} (m : M A) (g : A → M B) :
  preserves m → (∀ a, preserves (g a)) → preserves (bind m g).
Proof.
  intros Hm Hg σ Hσ. unfold bind. specialize (Hm σ Hσ).
  destruct (m σ) as [[a|e] σ']; simpl in *; [by apply Hg|done].
Qed.

Lemma preserves_for_fold {A B} (l : list A) (acc : B) (body : B → A → M B) :
  (∀ acc x, preserves (body acc x)) → preserves (for_fold l acc body).
Proof.
  intros Hbody. revert acc. induction l as [|x l IH]; intros acc; simpl.
  - apply preserves_ret.
  - apply preserves_bind; [apply Hbody|done].
Qed.

Lemma preserves_read {A} (m : M A) : (∀ σ, (m σ).2 = σ) → preserves m.
Proof. intros Hm σ Hσ. by rewrite Hm. Qed.

Lemma preserves_getitem d k : preserves (getitem d k).
Proof. apply preserves_read. intros σ. unfold getitem. by destruct (d !! k). Qed.

Lemma preserves_hgetall k : preserves (hgetall k).
Proof. apply preserves_read. intros σ. apply hgetall_state. Qed.

Lemma preserves_smembers k : preserves (smembers k).
Proof. apply preserves_read. intros σ. unfold smembers. case_entry σ k. Qed.

Lemma preserves_zsetval k : preserves (zsetval k).
Proof. apply preserves_read. intros σ. unfold zsetval. case_entry σ k. Qed.

Lemma preserves_hexists k f : preserves (hexists k f).
Proof. apply preserves_read. intros σ. unfold hexists. case_entry σ k. Qed.

Lemma preserves_exists_key k : preserves (exists_key k).
Proof. by apply preserves_read. Qed.

Lemma preserves_with_bounds {A} a b (g : zbound → zbound → M A) :
  (∀ lo hi, preserves (g lo hi)) → preserves (with_bounds a b g).
Proof.
  intros Hg. unfold with_bounds.
  destruct (parse_bound a), (parse_bound b); auto using preserves_raise.
Qed.

Lemma preserves_fromisoformat_timestamp s : preserves (fromisoformat_timestamp s).
Proof.
  unfold fromisoformat_timestamp.
  destruct (iso_timestamp s); auto using preserves_ret, preserves_raise.
Qed.

(** [HSET] with a mapping: a record of a role must keep its name. *)
Lemma preserves_hmset k (m : record) :
  k ≠ "tasks" → k ≠ "roles" →
  (∀ name, k = "roles:" +:+ name → m !! "name" = Some name) →
  preserves (hmset k m).
Proof.
  intros Ht Hr Hname σ Hσ. unfold hmset.
  destruct (decide (m = ∅)); [done|]. case_entry σ k.
  - apply (schema_inv_insert_hash σ _ h); [done..| |].
    + intros [x Hx]. exists (default x (m !! "save_date")).
      rewrite lookup_union, Hx. by destruct (m !! "save_date").
    + intros name _ Hk. by apply lookup_union_Some_l, Hname.
  - apply schema_inv_insert_other; [done|by intros []|done..| |].
    + intros uuid -> (? & ? & ? & _)%task_record_ok_lookup. congruence.
    + intros name -> (? & ? & ? & _)%role_record_ok_lookup. congruence.
Qed.

Lemma list_key_shape k :
  k = "suspicious_observables" ∨ k = "legitimate_observables" →
  k ≠ "tasks" ∧ k ≠ "roles" ∧
  (∀ uuid, k ≠ "tasks:" +:+ uuid) ∧ (∀ name, k ≠ "roles:" +:+ name).
Proof. intros [->| ->]; split_and!; try done; intros ?; key_neq. Qed.

Ltac shape_side Hσ Htask Hrole :=
  solve [ done
        | by intros []
        | simpl; eapply no_ttl_kept; [apply Hσ|done]
        | by intros ? ?%Htask
        | by intros ? ?%Hrole
        | eauto ].

(** [HSET] and [HDEL] on the two lists of observables. *)
Lemma preserves_hset k f v :
  k = "suspicious_observables" ∨ k = "legitimate_observables" →
  preserves (hset k f v).
Proof.
  intros (Ht & Hr & Htask & Hrole)%list_key_shape σ Hσ. unfold hset.
  case_entry σ k; apply schema_inv_insert_other; shape_side Hσ Htask Hrole.
Qed.

Lemma preserves_hdel_list k f :
  k = "suspicious_observables" ∨ k = "legitimate_observables" →
  preserves (hdel k f).
Proof.
  intros (Ht & Hr & Htask & Hrole)%list_key_shape σ Hσ. unfold hdel.
  case_entry σ k. case_decide.
  - apply schema_inv_delete_other; shape_side Hσ Htask Hrole.
  - apply schema_inv_insert_other; shape_side Hσ Htask Hrole.
Qed.

(** [HDEL] of a field that the invariant does not look at. *)
Lemma preserves_hdel_field k f :
  f ≠ "save_date" → f ≠ "name" → preserves (hdel k f).
Proof.
  intros Hdate Hname σ Hσ. unfold hdel.
  case_entry σ k. case_decide as Hempty.
  - pose proof Hσ as (_ & (z & Hz & _) & (s & Hs & _)).
    apply schema_inv_delete_other; [done|..].
    + intros ->. unfold zset_at in Hz. by rewrite E in Hz.
    + intros ->. unfold set_at in Hs. by rewrite E in Hs.
    + intros uuid -> (h' & t & Hh & [x Hx])%task_record_ok_lookup.
      rewrite E in Hh. injection Hh as <- <-.
      assert (delete f h !! "save_date" = Some x) as Hd by by rewrite lookup_delete_ne.
      by rewrite Hempty in Hd.
    + intros name -> (h' & t & Hh & Hx)%role_record_ok_lookup.
      rewrite E in Hh. injection Hh as <- <-.
      assert (delete f h !! "name" = Some name) as Hd by by rewrite lookup_delete_ne.
      by rewrite Hempty in Hd.
  - apply (schema_inv_insert_hash σ _ h); [done..| |].
    + by rewrite lookup_delete_ne.
    + intros name Hn _. by rewrite lookup_delete_ne.
Qed.

(** [SADD] to a key that is not an index of the invariant. *)
Lemma preserves_sadd k x : k ≠ "tasks" → k ≠ "roles" → preserves (sadd k x).
Proof.
  intros Ht Hr σ Hσ. unfold sadd.
  case_entry σ k; apply schema_inv_insert_other; try done.
  - simpl. eapply no_ttl_kept; [apply Hσ|done].
  - intros uuid -> (? & ? & ? & _)%task_record_ok_lookup. congruence.
  - intros name -> (? & ? & ? & _)%role_record_ok_lookup. congruence.
  - by intros [].
  - intros uuid -> (? & ? & ? & _)%task_record_ok_lookup. congruence.
  - intros name -> (? & ? & ? & _)%role_record_ok_lookup. congruence.
Qed.

Lemma preserves_zadd k x sc : k ≠ "tasks" → k ≠ "roles" → preserves (zadd k x sc).
Proof.
  intros Ht Hr σ Hσ. unfold zadd.
  case_entry σ k; apply schema_inv_insert_other; try done.
  - simpl. eapply no_ttl_kept; [apply Hσ|done].
  - intros uuid -> (? & ? & ? & _)%task_record_ok_lookup. congruence.
  - intros name -> (? & ? & ? & _)%role_record_ok_lookup. congruence.
  - by intros [].
  - intros uuid -> (? & ? & ? & _)%task_record_ok_lookup. congruence.
  - intros name -> (? & ? & ? & _)%role_record_ok_lookup. congruence.
Qed.

Lemma users_key_shape k :
  k = "users" ∨ (∃ s, k = "users:" +:+ s) →
  k ≠ "tasks" ∧ k ≠ "roles" ∧
  (∀ uuid, k ≠ "tasks:" +:+ uuid) ∧ (∀ name, k ≠ "roles:" +:+ name).
Proof. intros [->|[s ->]]; split_and!; try done; try intros ?; key_neq. Qed.

Lemma preserves_srem_users xs : preserves (srem "users" xs).
Proof.
  destruct (users_key_shape "users") as (Ht & Hr & Htask & Hrole); [by left|].
  intros σ Hσ. unfold srem. case_entry σ "users". case_decide.
  - apply schema_inv_delete_other; shape_side Hσ Htask Hrole.
  - apply schema_inv_insert_other; shape_side Hσ Htask Hrole.
Qed.

Lemma preserves_delete_keys ks :
  Forall (λ k, k = "users" ∨ ∃ s, k = "users:" +:+ s) ks → preserves (delete_keys ks).
Proof.
  intros Hks σ Hσ. unfold delete_keys. simpl.
  induction Hks as [|k ks (Ht & Hr & Htask & Hrole)%users_key_shape Hks IH]; simpl; [done|].
  apply schema_inv_delete_other; shape_side IH Htask Hrole.
Qed.

Lemma preserves_expire s secs : preserves (expire ("users:" +:+ s) secs).
Proof.
  destruct (users_key_shape ("users:" +:+ s)) as (Ht & Hr & Htask & Hrole); [by eauto|].
  intros σ Hσ. unfold expire.
  destruct (σ !! ("users:" +:+ s)) as [e|] eqn:E; [|done]. simpl. case_bool_decide.
  - apply schema_inv_delete_other; shape_side Hσ Htask Hrole.
  - apply schema_inv_insert_other; shape_side Hσ Htask Hrole.
Qed.

(** The passing of time takes away sessions only. *)
Lemma schema_inv_elapse d σ : schema_inv σ → schema_inv (elapse d σ).
Proof.
  intros Hσ. pose proof Hσ as (Httl & _).
  assert (∀ k, (∀ s, k ≠ "users:" +:+ s) → elapse d σ !! k = σ !! k) as Hkeep.
  { intros k Hk. unfold elapse. rewrite lookup_omap.
    destruct (σ !! k) as [[v [t|]]|] eqn:E; simpl; try done.
    destruct (Httl k _ E) as [s ->]; [by eauto|]. by destruct (Hk s). }
  apply (schema_inv_frame σ); [done|..].
  - intros k e. unfold elapse. rewrite lookup_omap.
    destruct (σ !! k) as [[v [t|]]|] eqn:E; simpl; try done.
    + intros _ _. eapply Httl; [done|]. by eauto.
    + intros [= <-] []. done.
  - apply Hkeep. intros s. key_neq.
  - apply Hkeep. intros s. key_neq.
  - intros uuid. apply task_record_ok_frame, Hkeep. intros s. key_neq.
  - intros name. apply role_record_ok_frame, Hkeep. intros s. key_neq.
Qed.

End preservation.

(** ** Every method keeps the invariant *)

Section methods.
Context `{Runtime}.
Implicit Types (σ : db) (k : string).

Lemma hmset_task_record_ok σ uuid (task : record) :
  is_Some (task !! "save_date") →
  (hmset ("tasks:" +:+ uuid) task σ).1 = Ok tt →
  task_record_ok (hmset ("tasks:" +:+ uuid) task σ).2 uuid.
Proof.
  intros [x Hx]. unfold hmset, task_record_ok, hash_at.
  destruct (decide (task = ∅)); [done|].
  case_entry σ ("tasks:" +:+ uuid); intros _; rewrite lookup_insert_eq; simpl.
  - exists x. by apply lookup_union_Some_l.
  - by exists x.
Qed.

Lemma hmset_role_record_ok σ name (role : record) :
  role !! "name" = Some name →
  (hmset ("roles:" +:+ name) role σ).1 = Ok tt →
  role_record_ok (hmset ("roles:" +:+ name) role σ).2 name.
Proof.
  intros Hx. unfold hmset, role_record_ok, hash_at.
  destruct (decide (role = ∅)); [done|].
  case_entry σ ("roles:" +:+ name); intros _; rewrite lookup_insert_eq; simpl.
  - by apply lookup_union_Some_l.
  - done.
Qed.

(** A task enters the index once its record is written. *)
Lemma schema_inv_zadd_tasks σ uuid sc :
  schema_inv σ → task_record_ok σ uuid → schema_inv (zadd "tasks" uuid sc σ).2.
Proof.
  intros Hσ Hok. pose proof Hσ as (Httl & (z & Hz & Hzok) & (s & Hs & Hsok)).
  assert (∀ e, schema_inv σ →
    (is_Some (e_ttl e) → ∃ s, "tasks" = "users:" +:+ s) →
    e_val e = RZSet (<[uuid := sc]> z) →
    schema_inv (<["tasks" := e]> σ)) as Hput.
  { intros [v t] _ Ht [= ->]. split_and!.
    - by apply no_ttl_insert.
    - exists (<[uuid := sc]> z). unfold zset_at. rewrite lookup_insert_eq. split; [done|].
      apply map_Forall_insert_2.
      + apply (task_record_ok_frame σ); [|done]. rewrite lookup_insert_ne; [done|key_neq].
      + intros u x Hu. apply (task_record_ok_frame σ); [|by eapply Hzok].
        rewrite lookup_insert_ne; [done|key_neq].
    - exists s. rewrite (set_at_frame σ) by by rewrite lookup_insert_ne. split; [done|].
      intros name Hn. apply (role_record_ok_frame σ); [|by apply Hsok].
      rewrite lookup_insert_ne; [done|key_neq]. }
  unfold zadd. unfold zset_at in Hz. case_entry σ "tasks".
  - apply Hput; [done| |done]. simpl. eapply no_ttl_kept; [apply Hσ|done].
  - apply Hput; [done|by intros []|]. simpl. by rewrite insert_empty.
Qed.

(** A role enters the index once its record is written. *)
Lemma schema_inv_sadd_roles σ name :
  schema_inv σ → role_record_ok σ name → schema_inv (sadd "roles" name σ).2.
Proof.
  intros Hσ Hok. pose proof Hσ as (Httl & (z & Hz & Hzok) & (s & Hs & Hsok)).
  assert (∀ e, schema_inv σ →
    (is_Some (e_ttl e) → ∃ s, "roles" = "users:" +:+ s) →
    e_val e = RSet ({[name]} ∪ s) →
    schema_inv (<["roles" := e]> σ)) as Hput.
  { intros [v t] _ Ht [= ->]. split_and!.
    - by apply no_ttl_insert.
    - exists z. rewrite (zset_at_frame σ) by by rewrite lookup_insert_ne. split; [done|].
      intros u x Hu. apply (task_record_ok_frame σ); [|by eapply Hzok].
      rewrite lookup_insert_ne; [done|key_neq].
    - exists ({[name]} ∪ s). unfold set_at. rewrite lookup_insert_eq. split; [done|].
      apply set_Forall_union; [apply set_Forall_singleton|].
      + apply (role_record_ok_frame σ); [|done]. rewrite lookup_insert_ne; [done|key_neq].
      + intros n Hn. apply (role_record_ok_frame σ); [|by apply Hsok].
        rewrite lookup_insert_ne; [done|key_neq]. }
  unfold sadd. unfold set_at in Hs. case_entry σ "roles".
  - apply Hput; [done| |done]. simpl. eapply no_ttl_kept; [apply Hσ|done].
  - apply Hput; [done|by intros []|]. simpl. by rewrite (right_id_L ∅ (∪)).
Qed.

Lemma preserves_set_task task : preserves (set_task task).
Proof.
  intros σ Hσ. unfold set_task, bind, getitem, fromisoformat_timestamp.
  destruct (task !! "save_date") as [save_date|] eqn:Hd; [|done]. simpl.
  destruct (iso_timestamp save_date) as [t|]; [|done]. simpl.
  destruct (task !! "uuid") as [uuid|] eqn:Hu; [|done]. simpl.
  pose proof (preserves_hmset ("tasks:" +:+ uuid) task) as Hset.
  specialize (Hset ltac:(key_neq) ltac:(key_neq) ltac:(intros ?; key_neq) σ Hσ).
  pose proof (hmset_task_record_ok σ uuid task ltac:(eauto)) as Hrec.
  destruct (hmset ("tasks:" +:+ uuid) task σ) as [[[]|e] σ1]; simpl in *; [|done].
  by apply schema_inv_zadd_tasks; auto.
Qed.

Lemma roles_key_inj a b : "roles:" +:+ a = "roles:" +:+ b → a = b.
Proof. apply (inj (String.app "roles:")). Qed.

Lemma preserves_set_role role : preserves (set_role role).
Proof.
  intros σ Hσ. unfold set_role, bind, getitem.
  destruct (role !! "name") as [name|] eqn:Hn; [|done]. simpl.
  pose proof (preserves_hmset ("roles:" +:+ name) role) as Hset.
  specialize (Hset ltac:(key_neq) ltac:(key_neq)
                   ltac:(by intros ? <-%roles_key_inj) σ Hσ).
  pose proof (hmset_role_record_ok σ name role Hn) as Hrec.
  destruct (hmset ("roles:" +:+ name) role σ) as [[[]|e] σ1]; simpl in *; [|done].
  by apply schema_inv_sadd_roles; auto.
Qed.

Lemma preserves_sort_by_field_desc f (l : list record) :
  preserves (sort_by_field_desc f l).
Proof.
  unfold sort_by_field_desc.
  apply preserves_bind; [|intros; apply preserves_ret].
  induction l as [|d l IH]; simpl; [apply preserves_ret|].
  apply preserves_bind; [apply preserves_getitem|intros].
  apply preserves_bind; [done|intros; apply preserves_ret].
Qed.

Ltac keeps :=
  repeat first
    [ apply preserves_ret | apply preserves_raise
    | apply preserves_getitem | apply preserves_hgetall | apply preserves_smembers
    | apply preserves_zsetval | apply preserves_hexists | apply preserves_exists_key
    | apply preserves_fromisoformat_timestamp | apply preserves_sort_by_field_desc
    | apply preserves_srem_users | apply preserves_expire
    | apply preserves_set_task | apply preserves_set_role
    | apply preserves_hset; by eauto
    | apply preserves_hdel_list; by eauto
    | apply preserves_hdel_field; done
    | apply preserves_hmset; [key_neq|key_neq|intros ?; key_neq]
    | apply preserves_sadd; first [key_neq|key_length]
    | apply preserves_zadd; key_neq
    | apply preserves_with_bounds; intros
    | apply preserves_for_fold; intros
    | apply preserves_bind; [|intros]
    | match goal with |- preserves (if ?b then _ else _) => destruct b end
    | match goal with |- preserves (match ?x with _ => _ end) => destruct x end ].

Lemma preserves_del_users : preserves del_users.
Proof.
  unfold del_users. keeps. apply preserves_delete_keys.
  apply Forall_app. split; [|by repeat constructor; left].
  apply Forall_fmap, Forall_forall. intros s _. right. by exists s.
Qed.

(** Every call of the interface keeps the invariant. *)
Lemma after_schema_inv (c : call) σ : schema_inv σ → schema_inv (after c σ).
Proof.
  intros Hσ. revert σ Hσ. change (preserves (λ σ, (Ok tt, after c σ))).
  assert (∀ {A} (m : M A), preserves m → preserves (λ σ, (Ok tt, exec m σ))) as Hexec
    by (intros A m Hm σ Hσ; by apply Hm).
  destruct c; simpl; apply Hexec; try apply preserves_del_users;
    unfold get_user, set_user, get_users, get_users_step, get_role, get_roles,
      has_roles, set_observable, get_observable, get_task_observables,
      add_task_observable, get_suspicious_observables, add_suspicious_observable,
      delete_suspicious_observable, get_legitimate_observables,
      add_legitimate_observable, delete_legitimate_observable, get_file, set_file,
      get_files, get_task, get_tasks, count_tasks, zcount, zrevrangebyscore,
      add_extracted_reference, get_extracted_references, get_report, set_report;
    keeps.
Qed.

End methods.

Section reachable_stores.
Context `{Runtime}.
Implicit Types (σ : db).

Lemma schema_inv_empty : schema_inv ∅.
Proof.
  split_and!.
  - intros k e. by rewrite lookup_empty.
  - exists ∅. split; [done|]. apply map_Forall_empty.
  - exists ∅. split; [done|]. apply set_Forall_empty.
Qed.

(** X6. Whatever calls were made and however much time has passed, every
    task of the index has its record with [save_date], every role of the
    index has its record under its name, and only sessions expire. *)
Theorem reachable_schema_inv σ : reachable σ → schema_inv σ.
Proof.
  induction 1 as [|σ c _ IH|σ d _ IH].
  - apply schema_inv_empty.
  - by apply after_schema_inv.
  - by apply schema_inv_elapse.
Qed.

(** On the stores the interface builds, [count_tasks] is the length of
    [get_tasks], for all bounds. *)
Corollary reachable_count_tasks_len σ (a b : pyarg) :
  reachable σ →
  run (count_tasks a b) σ = rmap length (run (get_tasks a b) σ).
Proof.
  intros Hreach.
  assert (schema_inv σ) as (_ & (z & Hz & Hzok) & _).
  { induction Hreach; [apply schema_inv_empty|by apply after_schema_inv|
                       by apply schema_inv_elapse]. }
  unfold run. destruct (parse_bound a) as [lo|] eqn:Ha, (parse_bound b) as [hi|] eqn:Hb.
  - destruct (get_tasks_spec σ z a b lo hi Hz Ha Hb) as (tasks & Hrun & Hperm & _).
    { apply Forall_forall. intros uuid [sc Hu]%zrange_desc_dom. by eapply Hzok. }
    rewrite Hrun, (count_tasks_spec _ _ _ _ _ _ Hz Ha Hb). simpl. f_equal.
    apply Permutation_length in Hperm. by rewrite Hperm, length_fmap.
  - destruct (get_tasks_refused σ z a b Hz) as [-> ->];
      [rewrite Ha, Hb; by intros [_ []]|done].
  - destruct (get_tasks_refused σ z a b Hz) as [-> ->];
      [rewrite Ha, Hb; by intros [[] _]|done].
  - destruct (get_tasks_refused σ z a b Hz) as [-> ->];
      [rewrite Ha, Hb; by intros [[] _]|done].
Qed.

(** X26. A session that was written and not refreshed is gone when its
    time is up, and its id is still in the index: the state that
    [get_users] repairs. *)
Lemma set_user_then_expired (user h0 : record) (s : string) (members : gset string) σ d :
  (0 < session_expire ≤ d)%Z →
  user !! "session_id" = Some s →
  hash_at σ ("users:" +:+ s) = Some h0 →
  set_at σ "users" = Some members →
  σ !! "users" = None ∨ (∃ e, σ !! "users" = Some e ∧ e_ttl e = None) →
  let σ' := elapse d (exec (set_user user) σ) in
  hash_at σ' ("users:" +:+ s) = Some ∅ ∧
  set_at σ' "users" = Some ({[s]} ∪ members).
Proof.
  intros [Hpos Hd] Hs Hh Hm Hnottl σ'.
  assert (user ≠ ∅) as Hne by by eapply has_field_nonempty.
  assert (∃ v, exec (set_user user) σ
               = <["users" := Entry (RSet ({[s]} ∪ members)) None]>
                   (<["users:" +:+ s := Entry v (Some session_expire)]> (exec (hmset ("users:" +:+ s) user) σ)))
    as [v Hexec].
  { unfold exec, set_user. rewrite (bind_ok _ _ _ _ _ (getitem_ok _ _ _ _ Hs)).
    destruct (hmset_ok σ _ user h0 Hne Hh) as (σ1 & Hset & Hh1 & Hf1).
    rewrite (bind_ok _ _ _ _ _ Hset). rewrite Hset. simpl.
    unfold bind at 1, expire. unfold hash_at in Hh1.
    destruct (σ1 !! ("users:" +:+ s)) as [[v t]|] eqn:E1.
    2:{ exfalso. revert E1. unfold hmset in Hset. destruct (decide (user = ∅)); [done|].
        unfold hash_at in Hh. case_entry σ ("users:" +:+ s); by rewrite lookup_insert_eq. }
    simpl. rewrite bool_decide_eq_false_2 by lia. exists v.
    unfold sadd. rewrite lookup_insert_ne by (intros E'; symmetry in E'; by apply users_index_key in E').
    rewrite (Hf1 "users") by apply users_index_key.
    unfold set_at in Hm. destruct Hnottl as [Hnone|(e & He & Httl)].
    - rewrite Hnone in *. simplify_eq/=. by rewrite (right_id_L ∅ (∪)).
    - rewrite He in *. destruct e as [[] ?]; simplify_eq/=. done. }
  unfold σ', hash_at, set_at, elapse. rewrite Hexec, !lookup_omap.
  rewrite lookup_insert_eq. rewrite lookup_insert_ne by apply users_index_key.
  rewrite lookup_insert_eq. simpl. rewrite bool_decide_eq_false_2 by lia. done.
Qed.



End reachable_stores.

(** * Worked examples

    Each statement is evaluated on the concrete runtime: dates on a clock
    in UTC, sets iterated in the order of [elements], sessions of one
    hour. *)

Section examples.
Import Concrete Examples.

Ltac decided := apply (bool_decide_unpack _); vm_compute; exact I.

(** A list of two records, evaluated, against the two in either order. *)
Ltac two_records :=
  match goal with
  | |- ?l ≡ₚ [?a; ?b] =>
      first [ replace l with [a; b] by (vm_compute; reflexivity); reflexivity
            | replace l with [b; a] by (vm_compute; reflexivity); apply perm_swap ]
  end.


(** That store is not one the methods build: its record was deleted by
    another client. *)
Example dangling_task_not_reachable : ¬ reachable dangling_task.
Proof.
  intros Hreach.
  assert (schema_inv dangling_task) as (_ & (z & Hz & Hzok) & _).
  { induction Hreach; [apply schema_inv_empty|by apply after_schema_inv|
                       by apply schema_inv_elapse]. }
  assert (z = t1_t2) as -> by (vm_compute in Hz; by injection Hz as <-).
  assert (is_Some (t1_t2 !! "t1")) as [sc Hsc] by (by eexists).
  pose proof (Hzok _ _ Hsc) as [v Hv]. vm_compute in Hv. discriminate Hv.
Qed.

(** The two other listings on an index entry without a record: the entry
    is skipped. *)
Example get_users_skips_dangling :
  run (get_user "s1") one_expired = Ok ∅ ∧
  run get_users one_expired = Ok [bob].
Proof. split; reflexivity. Qed.

Example get_task_observables_skips_dangling :
  run (smembers "t1:observables") dangling_observable = Ok {[ "ab12-domain" ]} ∧
  run (get_task_observables "t1") dangling_observable = Ok [].
Proof. split; reflexivity. Qed.

(** C2, refuted as stated: after [set_user alice] and
    [set_user alice_again], two records of the session [s1], the stored
    record is not [alice_again]; the field [name] of the first write is
    still there. *)
Lemma set_user_overwrite_counterexample :
  alice !! "session_id" = Some "s1" ∧
  alice_again !! "session_id" = Some "s1" ∧
  run (get_user "s1") (exec (set_user alice_again) (exec (set_user alice) ∅))
  ≠ Ok alice_again.
Proof. split_and!; [reflexivity..|]. vm_compute. discriminate. Qed.

(** Two writes of the session [s1]: the second gives [last_seen], the
    first still gives [name]. *)
Lemma set_user_twice_merges_witness :
  ∃ stored,
    run (get_user "s1") (exec (set_user alice_again) (exec (set_user alice) ∅))
    = Ok stored ∧
    stored !! "last_seen" = Some "2024-05-01T10:20:00" ∧
    stored !! "name" = Some "alice".
Proof.
  destruct (set_user_twice_merges "s1" alice alice_again ∅ ∅ ∅)
    as (_ & _ & first & stored & _ & Hget & Hnew & _ & Hold);
    [reflexivity..|].
  exists stored. split_and!; [exact Hget|apply Hnew|apply Hold]; reflexivity.
Defined.



(** The tasks saved after the first one: one task, counted and listed. *)
Lemma count_tasks_is_len_get_tasks_witness :
  run (count_tasks after_task1 last_date_default) two_tasks
  = rmap length (run (get_tasks after_task1 last_date_default) two_tasks) ∧
  ∃ tasks, run (get_tasks after_task1 last_date_default) two_tasks = Ok tasks ∧
           run (count_tasks after_task1 last_date_default) two_tasks = Ok (length tasks).
Proof.
  destruct (count_tasks_is_len_get_tasks two_tasks t1_t2 after_task1 last_date_default)
    as (Heq & Hboth & _); [reflexivity|decided|].
  split; [exact Heq|]. apply Hboth; by eexists.
Defined.

(** The three listings of the populated store: two sessions, two tasks
    and two roles. *)
Lemma listing_order_witness :
  (∃ l, run get_users populated = Ok l ∧ l ≡ₚ [alice; bob] ∧
        sorted_desc_by "last_seen" l) ∧
  (∃ l, run (get_tasks first_date_default last_date_default) populated = Ok l ∧
        l ≡ₚ [task1; task2] ∧ sorted_desc_by "save_date" l) ∧
  (∃ l, run get_roles populated = Ok l ∧ l ≡ₚ [admin; reader] ∧
        sorted_asc_by "name" l).
Proof.
  edestruct (listing_order populated s1_s2 admin_reader t1_t2
               first_date_default last_date_default)
    as ((users & Hu & Hup & Hus) & (tasks & Ht & Htp & Hts) & (roles & Hr & Hrp & Hrs));
    [reflexivity|decided|reflexivity|decided|reflexivity|reflexivity|reflexivity|decided|].
  split_and!.
  - exists users. split_and!; [exact Hu|rewrite Hup; two_records|exact Hus].
  - exists tasks. split_and!; [exact Ht|rewrite Htp; two_records|exact Hts].
  - exists roles. split_and!; [exact Hr|rewrite Hrp; two_records|exact Hrs].
Defined.

(** The session [s1] has expired: [get_users] returns the other one and
    takes [s1] out of the index. *)
Lemma get_users_self_healing_witness :
  ∃ users members',
    run get_users one_expired = Ok users ∧
    (∀ u, u ∈ users → u ≠ ∅) ∧
    run (smembers "users") (exec get_users one_expired) = Ok members' ∧
    ("s1" ∉ members') ∧ "s2" ∈ members'.
Proof.
  destruct (get_users_self_healing one_expired s1_s2 "s1")
    as (users & members' & Hrun & Hin & Hidx & Hout & Hkept);
    [reflexivity|decided|decided|reflexivity|].
  exists users, members'. split_and!; [exact Hrun| |exact Hidx|exact Hout|].
  - intros u Hu. by apply Hin in Hu as [Hne _].
  - apply Hkept. split; [decided|]. vm_compute. discriminate.
Defined.

(** A report for the task [t1], whose record has a [status]. *)
Lemma set_report_clears_status_witness :
  task1 !! "status" = Some "3" ∧
  run (set_report report1) two_tasks = Ok tt ∧
  ∃ task', run (get_task "t1") (exec (set_report report1) two_tasks) = Ok task' ∧
           task' !! "status" = None ∧
           task' !! "save_date" = Some "2024-05-01T09:00:00".
Proof.
  destruct (set_report_clears_status report1 ∅ task1 "t1" "clamav" two_tasks)
    as (Hrun & _ & (task' & Hget & Hstatus & Hother) & _); [reflexivity..|].
  split; [reflexivity|]. split; [exact Hrun|]. exists task'.
  split_and!; [exact Hget|exact Hstatus|]. by rewrite Hother.
Defined.

(** A record whose dates read [yesterday]. *)
Lemma malformed_timestamp_fails_fast_witness :
  iso_timestamp "yesterday" = None ∧
  set_observable not_a_date two_tasks = (Raise ValueError, two_tasks) ∧
  set_task not_a_date two_tasks = (Raise ValueError, two_tasks).
Proof.
  destruct (malformed_timestamp_fails_fast not_a_date "yesterday" two_tasks)
    as [Hobservable Htask]; [reflexivity|].
  split; [reflexivity|]. split; [apply Hobservable|apply Htask]; reflexivity.
Defined.

(** A value and a type with blanks around them, added to the empty store. *)
Lemma add_suspicious_observable_idempotent_witness :
  let σ1 := exec (add_suspicious_observable "  evil.example " "domain ") ∅ in
  exec (add_suspicious_observable "  evil.example " "domain ") σ1 = σ1 ∧
  run get_suspicious_observables σ1 = Ok {[ "evil.example" := "domain" ]} ∧
  run get_suspicious_observables (exec (delete_suspicious_observable "evil.example") σ1)
  = Ok ∅.
Proof.
  destruct (add_suspicious_observable_idempotent "  evil.example " "domain " ∅ ∅)
    as (_ & _ & Hsame & Hget & _ & _ & Hdel); [reflexivity|].
  simpl. split; [exact Hsame|]. split.
  - rewrite <-Hsame at 1. exact Hget.
  - rewrite <-Hsame at 1.
    destruct (Hdel "evil.example") as (_ & Hgone & _); [reflexivity|exact Hgone].
Defined.

(** The store with sessions, tasks and roles is one the interface builds,
    and so keeps the invariant. *)
Example populated_reachable : reachable populated.
Proof.
  apply (reachable_call _ (SetRole admin)), (reachable_call _ (SetRole reader)).
  apply (reachable_call _ (SetTask task2)), (reachable_call _ (SetTask task1)).
  apply (reachable_call _ (SetUser bob)), reachable_elapse.
  apply (reachable_call _ (SetUser alice)), reachable_empty.
Qed.

End examples.

(** * What the methods write *)

Section footprint.
Context `{Runtime}.
Implicit Types (σ : db) (k : string) (K : string → Prop).

Lemma only_writes_read {A} K (m : M A) : (∀ σ, (m σ).2 = σ) → only_writes K m.
Proof. intros Hm σ k _. by rewrite Hm. Qed.

Lemma only_writes_bind {A B} K (m : M A) (g : A → M B) :
  only_writes K m → (∀ a, only_writes K (g a)) → only_writes K (bind m g).
Proof.
  intros Hm Hg σ k Hk. unfold bind. specialize (Hm σ k Hk).
  destruct (m σ) as [[a|e] σ']; simpl in *; [|done].
  by rewrite (Hg a σ' k Hk).
Qed.

Lemma only_writes_getitem {B} K (d : record) f (g : string → M B) :
  (∀ v, d !! f = Some v → only_writes K (g v)) → only_writes K (bind (getitem d f) g).
Proof.
  intros Hg σ k Hk. unfold bind, getitem.
  destruct (d !! f) as [v|] eqn:E; simpl; [by apply Hg|done].
Qed.

Lemma only_writes_for_fold {A B} K (l : list A) (acc : B) (body : B → A → M B) :
  (∀ acc x, only_writes K (body acc x)) → only_writes K (for_fold l acc body).
Proof.
  intros Hbody. revert acc. induction l as [|x l IH]; intros acc; simpl.
  - by apply only_writes_read.
  - apply only_writes_bind; [apply Hbody|done].
Qed.

Lemma only_writes_hmset K k (m : record) : K k → only_writes K (hmset k m).
Proof.
  intros Hk σ k' Hk'. unfold hmset. destruct (decide (m = ∅)); [done|].
  case_entry σ k; rewrite lookup_insert_ne; by try intros ->.
Qed.

Lemma only_writes_hset K k f v : K k → only_writes K (hset k f v).
Proof.
  intros Hk σ k' Hk'. unfold hset.
  case_entry σ k; rewrite lookup_insert_ne; by try intros ->.
Qed.

Lemma only_writes_hdel K k f : K k → only_writes K (hdel k f).
Proof.
  intros Hk σ k' Hk'. unfold hdel. case_entry σ k. case_decide.
  - rewrite lookup_delete_ne; by try intros ->.
  - rewrite lookup_insert_ne; by try intros ->.
Qed.

Lemma only_writes_sadd K k x : K k → only_writes K (sadd k x).
Proof.
  intros Hk σ k' Hk'. unfold sadd.
  case_entry σ k; rewrite lookup_insert_ne; by try intros ->.
Qed.

Lemma only_writes_srem K k xs : K k → only_writes K (srem k xs).
Proof.
  intros Hk σ k' Hk'. unfold srem. case_entry σ k. case_decide.
  - rewrite lookup_delete_ne; by try intros ->.
  - rewrite lookup_insert_ne; by try intros ->.
Qed.

Lemma only_writes_zadd K k x sc : K k → only_writes K (zadd k x sc).
Proof.
  intros Hk σ k' Hk'. unfold zadd.
  case_entry σ k; rewrite lookup_insert_ne; by try intros ->.
Qed.

Lemma only_writes_expire K k secs : K k → only_writes K (expire k secs).
Proof.
  intros Hk σ k' Hk'. unfold expire.
  destruct (σ !! k) as [e|] eqn:E; [|done]. simpl. case_bool_decide.
  - rewrite lookup_delete_ne; by try intros ->.
  - rewrite lookup_insert_ne; by try intros ->.
Qed.

Lemma only_writes_delete_keys K ks : Forall K ks → only_writes K (delete_keys ks).
Proof.
  intros Hks σ k' Hk'. unfold delete_keys. simpl.
  induction Hks as [|k ks Hk Hks IH]; simpl; [done|].
  rewrite lookup_delete_ne; [done|]. by intros ->.
Qed.

Lemma only_writes_hgetall K k : only_writes K (hgetall k).
Proof. apply only_writes_read. intros σ. apply hgetall_state. Qed.

Lemma only_writes_smembers K k : only_writes K (smembers k).
Proof. apply only_writes_read. intros σ. unfold smembers. case_entry σ k. Qed.

Lemma only_writes_zsetval K k : only_writes K (zsetval k).
Proof. apply only_writes_read. intros σ. unfold zsetval. case_entry σ k. Qed.

Lemma only_writes_hexists K k f : only_writes K (hexists k f).
Proof. apply only_writes_read. intros σ. unfold hexists. case_entry σ k. Qed.

Lemma only_writes_ret {A} K (a : A) : only_writes K (ret a).
Proof. by apply only_writes_read. Qed.

Lemma only_writes_raise {A} K e : only_writes K (raise (A:=A) e).
Proof. by apply only_writes_read. Qed.

Lemma only_writes_with_bounds {A} K a b (g : zbound → zbound → M A) :
  (∀ lo hi, only_writes K (g lo hi)) → only_writes K (with_bounds a b g).
Proof.
  intros Hg. unfold with_bounds.
  destruct (parse_bound a), (parse_bound b); auto using only_writes_raise.
Qed.

Lemma only_writes_sort_by_field_desc K f (l : list record) :
  only_writes K (sort_by_field_desc f l).
Proof.
  unfold sort_by_field_desc.
  apply only_writes_bind; [|intros; apply only_writes_ret].
  induction l as [|d l IH]; simpl; [apply only_writes_ret|].
  apply only_writes_getitem. intros v _.
  apply only_writes_bind; [done|intros; apply only_writes_ret].
Qed.

Lemma only_writes_fromisoformat_timestamp K s :
  only_writes K (fromisoformat_timestamp s).
Proof.
  unfold fromisoformat_timestamp.
  destruct (iso_timestamp s); auto using only_writes_ret, only_writes_raise.
Qed.

Ltac writes_in :=
  repeat first
    [ apply only_writes_ret | apply only_writes_raise
    | apply only_writes_fromisoformat_timestamp
    | apply only_writes_hgetall | apply only_writes_smembers
    | apply only_writes_zsetval | apply only_writes_hexists
    | apply only_writes_sort_by_field_desc
    | apply only_writes_read; by intros
    | apply only_writes_with_bounds; intros
    | apply only_writes_for_fold; intros
    | apply only_writes_getitem; intros
    | apply only_writes_hmset; simpl; by eauto 10
    | apply only_writes_hset; simpl; by eauto 10
    | apply only_writes_hdel; simpl; by eauto 10
    | apply only_writes_sadd; simpl; by eauto 10
    | apply only_writes_srem; simpl; by eauto 10
    | apply only_writes_zadd; simpl; by eauto 10
    | apply only_writes_expire; simpl; by eauto 10
    | apply only_writes_bind; [|intros]
    | match goal with |- only_writes _ (if ?b then _ else _) => destruct b end
    | match goal with
      | |- only_writes _ (match ?x with _ => _ end) => destruct x eqn:?
      end ].

Lemma after_only_writes (c : call) σ k :
  ¬ touches c k → after c σ !! k = σ !! k.
Proof.
  revert σ k. change (only_writes (touches c) (λ σ, (Ok tt, after c σ))).
  assert (∀ {A} K (m : M A), only_writes K m → only_writes K (λ σ, (Ok tt, exec m σ)))
    as Hexec by (intros A K m Hm σ k Hk; by apply Hm).
  destruct c; simpl; apply Hexec;
    unfold get_user, set_user, get_users, get_users_step, del_users, get_role,
      get_roles, set_role, has_roles, exists_key, set_observable,
      get_observable, get_task_observables,
      add_task_observable, get_suspicious_observables, add_suspicious_observable,
      delete_suspicious_observable, get_legitimate_observables,
      add_legitimate_observable, delete_legitimate_observable, get_file, set_file,
      get_files, get_task, set_task, get_tasks, count_tasks, zcount, zrevrangebyscore,
      add_extracted_reference, get_extracted_references, get_report, set_report;
    writes_in.
  apply only_writes_delete_keys, Forall_app. split; [|by repeat constructor; left].
  apply Forall_fmap, Forall_forall. intros s _. simpl. eauto.
Qed.

(** X1. A call writes no key but those of the entity it is given: the
    record key and the index key that [touches] lists. The methods that
    read leave the store exactly as it was, whether they return or raise;
    [get_users] is the one listing that writes, and it writes the set
    [users] only. *)
Theorem calls_write_only_their_keys (c : call) σ :
  (∀ k, ¬ touches c k → after c σ !! k = σ !! k) ∧
  (is_read c = true → after c σ = σ) ∧
  (∀ k, k ≠ "users" → after GetUsers σ !! k = σ !! k).
Proof.
  split_and!.
  - intros k. apply after_only_writes.
  - intros Hread. apply map_eq. intros k. apply after_only_writes.
    destruct c; simpl in *; first [discriminate|tauto].
  - intros k Hk. by apply after_only_writes.
Qed.

End footprint.

(** * The life of a session *)

Section sessions.
Context `{Runtime}.
Implicit Types (σ : db) (k : string).

Lemma set_at_elapse σ k d : is_Some (set_at σ k) → is_Some (set_at (elapse d σ) k).
Proof.
  unfold set_at, elapse. rewrite lookup_omap.
  destruct (σ !! k) as [[[h|s|z] [t|]]|]; simpl; try case_bool_decide; simpl; eauto.
Qed.

Lemma hash_at_elapse_live σ k h t d :
  σ !! k = Some (Entry (RHash h) (Some t)) → (d < t)%Z →
  hash_at (elapse d σ) k = Some h.
Proof.
  intros Hk Hd. unfold hash_at, elapse. rewrite lookup_omap, Hk. simpl.
  by rewrite bool_decide_eq_true_2.
Qed.

(** The entry that [set_user] leaves under the key of the session. *)
Lemma set_user_entry (user h0 : record) (s : string) σ :
  user !! "session_id" = Some s →
  hash_at σ ("users:" +:+ s) = Some h0 →
  is_Some (set_at σ "users") →
  run (set_user user) σ = Ok tt ∧
  is_Some (set_at (exec (set_user user) σ) "users") ∧
  exec (set_user user) σ !! ("users:" +:+ s)
  = if bool_decide (session_expire ≤ 0)%Z then None
    else Some (Entry (RHash (user ∪ h0)) (Some session_expire)).
Proof.
  intros Hs Hh [members Hm].
  assert (user ≠ ∅) as Hne by by eapply has_field_nonempty.
  destruct (hmset_ok σ _ user h0 Hne Hh) as (σ1 & Hset & Hh1 & Hf1).
  assert (∃ t, σ1 !! ("users:" +:+ s) = Some (Entry (RHash (user ∪ h0)) t)) as [t E1].
  { unfold hmset in Hset. destruct (decide (user = ∅)); [done|].
    unfold hash_at in Hh. case_entry σ ("users:" +:+ s); rewrite lookup_insert_eq; eauto.
    rewrite (right_id_L ∅ (∪)). eauto. }
  set (σ2 := if bool_decide (session_expire ≤ 0)%Z then delete ("users:" +:+ s) σ1
             else <["users:" +:+ s := Entry (RHash (user ∪ h0)) (Some session_expire)]> σ1).
  assert (set_user user σ = sadd "users" s σ2) as Hrun.
  { unfold set_user. rewrite (bind_ok _ _ _ _ _ (getitem_ok _ _ _ _ Hs)).
    rewrite (bind_ok _ _ _ _ _ Hset). unfold bind, expire. rewrite E1. simpl.
    unfold σ2. by case_bool_decide. }
  assert (σ2 !! "users" = σ !! "users") as E2.
  { unfold σ2. case_bool_decide.
    - rewrite lookup_delete_ne by (intros E; symmetry in E; by apply users_index_key in E).
      apply Hf1, users_index_key.
    - rewrite lookup_insert_ne by (intros E; symmetry in E; by apply users_index_key in E).
      apply Hf1, users_index_key. }
  destruct (sadd_ok σ2 "users" s members) as (σ3 & Hadd & Hm3 & Hf3).
  { rewrite <-Hm. by apply set_at_frame. }
  unfold run, exec. rewrite Hrun, Hadd. simpl. rewrite Hm3. split_and!; [done|by eauto|].
  rewrite Hf3 by (intros E; symmetry in E; by apply users_index_key in E).
  unfold σ2. case_bool_decide; [apply lookup_delete_eq|apply lookup_insert_eq].
Qed.

(** X2. Writing a session again gives it its full time to live again:
    a session written, left for less than the expiry, written again and
    left again for less than the expiry is still there, however long the
    two waits are together. *)
Theorem set_user_refreshes_ttl (user h0 : record) (s : string) σ (d1 d2 : Z) :
  user !! "session_id" = Some s →
  hash_at σ ("users:" +:+ s) = Some h0 →
  is_Some (set_at σ "users") →
  (0 ≤ d1 < session_expire)%Z → (0 ≤ d2 < session_expire)%Z →
  let σ1 := elapse d1 (exec (set_user user) σ) in
  let σ2 := elapse d2 (exec (set_user user) σ1) in
  run (get_user s) σ1 = Ok (user ∪ h0) ∧
  run (set_user user) σ1 = Ok tt ∧
  run (get_user s) σ2 = Ok (user ∪ h0).
Proof.
  intros Hs Hh Hm Hd1 Hd2 σ1 σ2.
  destruct (set_user_entry user h0 s σ Hs Hh Hm) as (_ & Hm1 & E1).
  rewrite bool_decide_eq_false_2 in E1 by lia.
  assert (hash_at σ1 ("users:" +:+ s) = Some (user ∪ h0)) as Hh1
    by (eapply hash_at_elapse_live; [done|lia]).
  assert (is_Some (set_at σ1 "users")) as Hm1' by by apply set_at_elapse.
  destruct (set_user_entry user (user ∪ h0) s σ1 Hs Hh1 Hm1') as (Hrun2 & _ & E2).
  rewrite bool_decide_eq_false_2 in E2 by lia.
  assert (hash_at σ2 ("users:" +:+ s) = Some (user ∪ (user ∪ h0))) as Hh2
    by (eapply hash_at_elapse_live; [done|lia]).
  rewrite (assoc_L (∪)), (idemp_L (∪)) in Hh2.
  unfold run, get_user in *. by rewrite (hgetall_ok _ _ _ Hh1), (hgetall_ok _ _ _ Hh2).
Qed.

(** X3. With an expiry that is not positive, [set_user] leaves no record:
    [EXPIRE] removes the key at once, and the id is in the index all the
    same, to be pruned by the next [get_users]. *)
Theorem set_user_expiry_not_positive (user h0 : record) (s : string)
    (members : gset string) σ :
  (session_expire ≤ 0)%Z →
  user !! "session_id" = Some s →
  hash_at σ ("users:" +:+ s) = Some h0 →
  set_at σ "users" = Some members →
  run (set_user user) σ = Ok tt ∧
  run (get_user s) (exec (set_user user) σ) = Ok ∅ ∧
  run (smembers "users") (exec (set_user user) σ) = Ok ({[s]} ∪ members).
Proof.
  intros Hexp Hs Hh Hm.
  destruct (set_user_entry user h0 s σ Hs Hh) as (Hrun & _ & E); [by eauto|].
  rewrite bool_decide_eq_true_2 in E by done.
  split_and!; [done|..].
  - unfold run, get_user. erewrite hgetall_ok; [done|]. unfold hash_at. by rewrite E.
  - (* the index: the three commands before it leave it as it was *)
    assert (∀ σ2, σ2 !! "users" = σ !! "users" →
                  set_at (sadd "users" s σ2).2 "users" = Some ({[s]} ∪ members)) as Hadd.
    { intros σ2 E2. destruct (sadd_ok σ2 "users" s members) as (σ3 & -> & Hm3 & _); [|done].
      rewrite <-Hm. by apply set_at_frame. }
    unfold run. erewrite smembers_ok; [done|].
    unfold exec, set_user. rewrite (bind_ok _ _ _ _ _ (getitem_ok _ _ _ _ Hs)).
    destruct (hmset_ok σ _ user h0 (has_field_nonempty _ _ _ Hs) Hh) as (σ1 & Hset & _ & Hf1).
    rewrite (bind_ok _ _ _ _ _ Hset). unfold bind at 1, expire.
    destruct (σ1 !! ("users:" +:+ s)) as [e|] eqn:E1; simpl.
    + rewrite bool_decide_eq_true_2 by done. apply Hadd.
      rewrite lookup_delete_ne by (intros E'; symmetry in E'; by apply users_index_key in E').
      apply Hf1, users_index_key.
    + apply Hadd, Hf1, users_index_key.
Qed.

End sessions.

Section sessions_listed.
Context `{Runtime}.
Implicit Types (σ : db) (k : string).

Lemma users_key_inj a b : "users:" +:+ a = "users:" +:+ b → a = b.
Proof. apply (inj (String.app "users:")). Qed.

(** X4. [del_users] deletes the record of every session of the index,
    whatever type its key holds, and the index itself; it deletes nothing
    else, so a session record that the index does not name stays, and
    [get_users] then lists nothing. *)
Theorem del_users_deletes_index (members : gset string) σ :
  set_at σ "users" = Some members →
  let σ' := exec del_users σ in
  run del_users σ = Ok tt ∧
  σ' !! "users" = None ∧
  (∀ s, s ∈ members → σ' !! ("users:" +:+ s) = None) ∧
  (∀ k, k ≠ "users" → (∀ s, s ∈ members → k ≠ "users:" +:+ s) → σ' !! k = σ !! k) ∧
  run get_users σ' = Ok [].
Proof.
  intros Hm σ'.
  assert (del_users σ
          = (Ok tt, foldr delete σ (((λ key, "users:" +:+ key) <$> set_iter members)
                                    ++ ["users"]))) as Hrun.
  { unfold del_users. by rewrite (bind_ok _ _ _ _ _ (smembers_ok _ _ _ Hm)). }
  assert (σ' !! "users" = None) as Hidx.
  { unfold σ', exec. rewrite Hrun. simpl. apply lookup_foldr_delete. set_solver. }
  split_and!; [unfold run; by rewrite Hrun|done|..].
  - intros s Hs. unfold σ', exec. rewrite Hrun. simpl. apply lookup_foldr_delete.
    apply elem_of_app. left. apply list_elem_of_fmap. exists s. split; [done|].
    rewrite set_iter_perm. by apply elem_of_elements.
  - intros k Hk Hks. unfold σ', exec. rewrite Hrun. simpl.
    apply lookup_foldr_delete_not_elem_of.
    rewrite elem_of_app, list_elem_of_fmap, list_elem_of_singleton.
    intros [(s & -> & Hs)|?]; [|done].
    rewrite set_iter_perm in Hs. apply elem_of_elements in Hs. by eapply Hks.
  - destruct (get_users_spec σ' ∅) as (l & σ'' & Hget & Hperm & _).
    + unfold set_at. by rewrite Hidx.
    + apply set_Forall_empty.
    + assert (set_iter ∅ = []) as Hnil
        by (apply Permutation_nil_r; by rewrite set_iter_perm, elements_empty).
      rewrite Hnil in Hperm. apply Permutation_nil_r in Hperm as ->.
      unfold run. by rewrite Hget.
Qed.

Lemma smembers_wrong σ k : set_at σ k = None → smembers k σ = (Raise WrongType, σ).
Proof. unfold set_at, smembers. intros. case_entry σ k. Qed.

Lemma get_users_loop_typed σ (l : list string) acc :
  Forall (λ s, is_Some (hash_at σ ("users:" +:+ s))) l →
  for_fold l acc get_users_step σ
  = (Ok (acc.1 ++ live_users σ l, acc.2 ++ stale_ids σ l), σ).
Proof.
  unfold live_users, stale_ids.
  intros Hl. revert acc. induction Hl as [|sid l [h Hh] Hl IH]; intros [users to_pop]; simpl.
  - by rewrite !app_nil_r.
  - assert (user_record σ sid = h) as Hrec by (unfold user_record; by rewrite Hh).
    unfold get_users_step at 1. unfold bind. rewrite (hgetall_ok _ _ _ Hh).
    rewrite (filter_cons (λ u : record, u ≠ ∅)), (filter_cons (λ s, user_record σ s = ∅)).
    simpl. rewrite Hrec. case_bool_decide as Hne.
    + rewrite decide_True by done. rewrite decide_False by done.
      unfold ret at 1. rewrite IH. simpl. by rewrite <-app_assoc.
    + rewrite decide_False by (by intros ?). rewrite decide_True by done.
      unfold ret at 1. rewrite IH. simpl. by rewrite <-app_assoc.
Qed.

(** X5. One session record without the field [last_seen] makes
    [get_users] raise [KeyError] for every caller, and the raise comes
    after the pruning: the ids without a record are already out of the
    index, and no other key has changed. *)
Theorem get_users_missing_last_seen (members : gset string) (s : string) σ :
  set_at σ "users" = Some members →
  set_Forall (λ s, is_Some (hash_at σ ("users:" +:+ s))) members →
  s ∈ members →
  user_record σ s ≠ ∅ →
  user_record σ s !! "last_seen" = None →
  run get_users σ = Raise (KeyError "last_seen") ∧
  run (smembers "users") (exec get_users σ)
  = Ok (members ∖ list_to_set (stale_ids σ (set_iter members))) ∧
  (∀ k, k ≠ "users" → exec get_users σ !! k = σ !! k).
Proof.
  intros Hm Hty Hs Hne Hnone.
  assert (Forall (λ s, is_Some (hash_at σ ("users:" +:+ s))) (set_iter members)) as Hl.
  { apply Forall_forall. intros x Hx. apply Hty.
    rewrite set_iter_perm in Hx. by apply elem_of_elements. }
  assert (∃ σ',
    (if bool_decide (stale_ids σ (set_iter members) ≠ [])
     then srem "users" (stale_ids σ (set_iter members)) else ret tt) σ = (Ok tt, σ') ∧
    set_at σ' "users" = Some (members ∖ list_to_set (stale_ids σ (set_iter members))) ∧
    ∀ k, k ≠ "users" → σ' !! k = σ !! k) as (σ' & Hprune & Hm' & Hframe).
  { case_bool_decide as Hst.
    - by apply srem_ok.
    - rewrite Hst. exists σ. split_and!; [done| |done].
      by rewrite Hm, list_to_set_nil, difference_empty_L. }
  assert (get_users σ = (Raise (KeyError "last_seen"), σ')) as Hrun.
  { unfold get_users.
    rewrite (bind_ok _ _ _ _ _ (smembers_ok _ _ _ Hm)).
    rewrite (bind_ok _ _ _ _ _ (get_users_loop_typed _ _ ([], []) Hl)). simpl.
    rewrite (bind_ok _ _ _ _ _ Hprune).
    apply sort_by_field_desc_missing, Exists_exists.
    exists (user_record σ s). split; [|done].
    unfold live_users. apply list_elem_of_filter. split; [done|].
    apply list_elem_of_fmap. exists s. split; [done|].
    rewrite set_iter_perm. by apply elem_of_elements. }
  unfold run, exec. rewrite Hrun. simpl. by rewrite (smembers_ok _ _ _ Hm').
Qed.

End sessions_listed.

(** * Observables and the tasks that name them *)

Section observables_of_tasks.
Context `{Runtime}.
Implicit Types (σ : db) (k : string).

Lemma looked_up_composite (a b : string) : looked_up (a +:+ "-" +:+ b) = a +:+ "-" +:+ b.
Proof.
  unfold looked_up. destruct (a +:+ "-" +:+ b) eqn:E; [|done].
  by apply composite_nonempty in E.
Qed.

Lemma observables_set_not_index x : x +:+ ":observables" ≠ "observables".
Proof. key_length. Qed.

(** X7. Linking a stored observable to a task and listing the task:
    after [set_observable] and [add_task_observable] for the same sha256
    and type, [get_task_observables] returns (the three calls return) and
    its list holds the record of the observable, with only non-empty
    records beside it. The key of the set of the task must not be the
    record key of the observable. *)
Theorem linked_observable_is_listed (observable h0 : record)
    (sha256 observable_type last_seen task_uuid : string) (t : score)
    (z : gmap string score) (members : gset string) σ :
  let identifier := sha256 +:+ "-" +:+ observable_type in
  observable !! "last_seen" = Some last_seen →
  iso_timestamp last_seen = Some t →
  observable !! "sha256" = Some sha256 →
  observable !! "observable_type" = Some observable_type →
  hash_at σ ("observables:" +:+ identifier) = Some h0 →
  zset_at σ "observables" = Some z →
  set_at σ (task_uuid +:+ ":observables") = Some members →
  set_Forall (λ i, is_Some (hash_at σ ("observables:" +:+ looked_up i))) members →
  task_uuid +:+ ":observables" ≠ "observables:" +:+ identifier →
  let σ1 := exec (set_observable observable) σ in
  let σ2 := exec (add_task_observable task_uuid sha256 observable_type) σ1 in
  run (set_observable observable) σ = Ok tt ∧
  run (add_task_observable task_uuid sha256 observable_type) σ1 = Ok tt ∧
  ∃ l, run (get_task_observables task_uuid) σ2 = Ok l ∧
       delete "warninglist" (observable ∪ h0) ∈ l ∧
       Forall (λ d, d ≠ ∅) l.
Proof.
  intros identifier Hls Ht Hsha Hty Hh Hz Hm Htyped Hkeys σ1 σ2.
  destruct (set_observable_spec _ _ _ _ _ _ _ _ Hls Ht Hsha Hty Hh Hz)
    as (σ1' & Hrun1 & Hh1 & _ & Hf1). simpl in Hh1, Hf1. subst identifier.
  assert (σ1 = σ1') as Hσ1 by (unfold σ1, exec; by rewrite Hrun1).
  assert (set_at σ1' (task_uuid +:+ ":observables") = Some members) as Hm1.
  { rewrite <-Hm. apply set_at_frame, Hf1; [done|apply observables_set_not_index]. }
  destruct (sadd_ok σ1' _ (sha256 +:+ "-" +:+ observable_type) _ Hm1) as (σ2' & Hrun2 & Hm2 & Hf2).
  assert (σ2 = σ2') as Hσ2
    by (unfold σ2, exec, add_task_observable; by rewrite Hσ1, Hrun2).
  clearbody σ1 σ2. subst σ1 σ2.
  assert (hash_at σ2' ("observables:" +:+ (sha256 +:+ "-" +:+ observable_type))
          = Some (delete "warninglist" (observable ∪ h0))) as Hh2.
  { rewrite <-Hh1. apply hash_at_frame, Hf2. by intros E. }
  assert (∀ i, i ∈ members → is_Some (hash_at σ2' ("observables:" +:+ looked_up i))) as Hold.
  { intros i Hi. destruct (decide (looked_up i = (sha256 +:+ "-" +:+ observable_type))) as [->|Hne]; [by eauto|].
    assert ("observables:" +:+ looked_up i ≠ task_uuid +:+ ":observables") as Hk.
    { intros E. destruct (Htyped i Hi) as [h Hhi]. rewrite E in Hhi.
      unfold set_at in Hm. unfold hash_at in Hhi.
      destruct (σ !! (task_uuid +:+ ":observables")) as [[[?|?|?] ?]|];
        simplify_eq; set_solver. }
    rewrite (hash_at_frame σ1') by by apply Hf2.
    rewrite (hash_at_frame σ); [by apply Htyped|].
    apply Hf1; [|intros E'; symmetry in E'; by apply observables_index_key in E'].
    intros E. by apply (inj (String.app "observables:")) in E. }
  split_and!.
  - unfold run. by rewrite Hrun1.
  - unfold run, add_task_observable. by rewrite Hrun2.
  - eexists. unfold run. rewrite (get_task_observables_spec σ2' task_uuid _ Hm2).
    + split; [done|]. split.
      * apply list_elem_of_filter. split.
        { intros He. apply (f_equal (.!! "sha256")) in He.
          rewrite lookup_delete_ne, lookup_empty in He by done.
          by rewrite (lookup_union_Some_l _ _ _ _ Hsha) in He. }
        apply list_elem_of_fmap. exists (sha256 +:+ "-" +:+ observable_type). split.
        { simpl. unfold observable_record.
          by rewrite looked_up_composite, Hh2. }
        rewrite set_iter_perm. apply elem_of_elements. set_solver.
      * apply Forall_forall. by intros d [? _]%list_elem_of_filter.
    + intros i [->%elem_of_singleton|Hi]%elem_of_union; [|by apply Hold].
      rewrite looked_up_composite. by eauto.
Qed.

End observables_of_tasks.

Section written_and_indexed.
Context `{Runtime}.
Implicit Types (σ : db) (k : string).

Lemma get_observable_by_identifier (i : string) :
  i ≠ "" → get_observable None None (Some i) = hgetall ("observables:" +:+ i).
Proof. by destruct i. Qed.

(** X8. What [set_observable] leaves for an observable that was stored
    before: the record has no field [warninglist], it has every field of
    the new record, the other fields of the stored record are kept, and the
    index [observables] scores the identifier with the timestamp of the
    new [last_seen], the other identifiers keeping their score. *)
Theorem set_observable_merges_and_reindexes (observable h0 : record)
    (sha256 observable_type last_seen : string) (t : score)
    (z : gmap string score) σ :
  let identifier := sha256 +:+ "-" +:+ observable_type in
  observable !! "last_seen" = Some last_seen →
  iso_timestamp last_seen = Some t →
  observable !! "sha256" = Some sha256 →
  observable !! "observable_type" = Some observable_type →
  observable !! "warninglist" = None →
  hash_at σ ("observables:" +:+ identifier) = Some h0 →
  zset_at σ "observables" = Some z →
  let σ' := exec (set_observable observable) σ in
  run (set_observable observable) σ = Ok tt ∧
  (∃ stored,
     run (get_observable None None (Some identifier)) σ' = Ok stored ∧
     stored !! "warninglist" = None ∧
     (∀ f x, observable !! f = Some x → stored !! f = Some x) ∧
     (∀ f, f ≠ "warninglist" → observable !! f = None → stored !! f = h0 !! f)) ∧
  (∃ z', zset_at σ' "observables" = Some z' ∧
         z' !! identifier = Some t ∧
         ∀ i, i ≠ identifier → z' !! i = z !! i).
Proof.
  intros identifier Hls Ht Hsha Hty Hwl Hh Hz σ'.
  destruct (set_observable_spec _ _ _ _ _ _ _ _ Hls Ht Hsha Hty Hh Hz)
    as (σ1 & Hrun & Hh1 & Hz1 & _). simpl in Hh1, Hz1.
  assert (σ' = σ1) as -> by (unfold σ', exec; by rewrite Hrun).
  subst identifier.
  split_and!.
  - unfold run. by rewrite Hrun.
  - exists (delete "warninglist" (observable ∪ h0)). split_and!.
    + rewrite get_observable_by_identifier by apply composite_nonempty.
      unfold run. by rewrite (hgetall_ok _ _ _ Hh1).
    + apply lookup_delete_eq.
    + intros f x Hf. rewrite lookup_delete_ne by (intros <-; congruence).
      by apply lookup_union_Some_l.
    + intros f Hne Hf. rewrite lookup_delete_ne by done. by rewrite lookup_union_r.
  - exists (<[sha256 +:+ "-" +:+ observable_type := t]> z). split_and!; [done|apply lookup_insert_eq|].
    intros i Hi. by rewrite lookup_insert_ne.
Qed.

Lemma zrange_desc_elem (z : gmap string score) lo hi uuid :
  uuid ∈ zrange_desc z lo hi ↔ ∃ sc, z !! uuid = Some sc ∧ in_range lo hi sc = true.
Proof.
  rewrite zrange_desc_perm, list_elem_of_fmap. split.
  - intros ([u sc] & -> & [Hin Hu%elem_of_map_to_list]%list_elem_of_filter).
    exists sc. split; [done|]. simpl in Hin. by destruct (in_range lo hi sc).
  - intros (sc & Hu & Hin). exists (uuid, sc). split; [done|].
    apply list_elem_of_filter. split; [simpl; by rewrite Hin|by apply elem_of_map_to_list].
Qed.

(** X9. A task written by [set_task] is listed by [get_tasks] under the
    bounds that hold the timestamp of its [save_date], and under no other
    bounds: there the list is made of the records of the other tasks of
    the index. In both cases [count_tasks] returns the length of the
    list. *)
Theorem set_task_listed_within_bounds (task h0 : record) (uuid save_date : string)
    (t : score) (z : gmap string score) (a b : pyarg) (lo hi : zbound) σ :
  task !! "save_date" = Some save_date →
  iso_timestamp save_date = Some t →
  task !! "uuid" = Some uuid →
  hash_at σ ("tasks:" +:+ uuid) = Some h0 →
  zset_at σ "tasks" = Some z →
  map_Forall (λ u _, task_record_ok σ u) z →
  parse_bound a = Some lo → parse_bound b = Some hi →
  let σ' := exec (set_task task) σ in
  run (set_task task) σ = Ok tt ∧
  ∃ l, run (get_tasks a b) σ' = Ok l ∧
       run (count_tasks a b) σ' = Ok (length l) ∧
       (in_range lo hi t = true → task ∪ h0 ∈ l) ∧
       (in_range lo hi t = false →
        ∀ d, d ∈ l → ∃ u sc, u ≠ uuid ∧ z !! u = Some sc ∧
                             in_range lo hi sc = true ∧ d = task_record σ u).
Proof.
  intros Hd Ht Hu Hh Hz Hok Ha Hb σ'.
  destruct (set_task_spec _ _ _ _ _ _ _ Hd Ht Hu Hh Hz) as (σ1 & Hrun & Hh1 & Hz1 & Hf1).
  assert (σ' = σ1) as -> by (unfold σ', exec; by rewrite Hrun).
  assert (task_record σ1 uuid = task ∪ h0) as Hrec
    by (unfold task_record; by rewrite Hh1).
  assert (∀ u, u ≠ uuid → σ1 !! ("tasks:" +:+ u) = σ !! ("tasks:" +:+ u)) as Hother.
  { intros u Hne. apply Hf1; [|intros E; symmetry in E; by apply tasks_index_key in E].
    intros E. by apply (inj (String.app "tasks:")) in E. }
  assert (∀ u, u ≠ uuid → task_record σ1 u = task_record σ u) as Hrec'.
  { intros u Hne. unfold task_record. by rewrite (hash_at_frame σ) by by apply Hother. }
  assert (map_Forall (λ u _, task_record_ok σ1 u) (<[uuid := t]> z)) as Hok1.
  { apply map_Forall_insert_2.
    - unfold task_record_ok. rewrite Hh1. simpl.
      exists save_date. by apply lookup_union_Some_l.
    - intros u sc Hsc. destruct (decide (u = uuid)) as [->|Hne].
      + unfold task_record_ok. rewrite Hh1. simpl.
        exists save_date. by apply lookup_union_Some_l.
      + eapply task_record_ok_frame; [by apply Hother|by eapply Hok]. }
  destruct (get_tasks_spec σ1 _ a b lo hi Hz1 Ha Hb) as (l & Hget & Hperm & _).
  { apply Forall_forall. intros u [sc Hsc]%zrange_desc_dom. by eapply Hok1. }
  split; [unfold run; by rewrite Hrun|].
  exists l. unfold run. rewrite Hget, (count_tasks_spec _ _ _ _ _ _ Hz1 Ha Hb). simpl.
  split_and!; [done|..].
  - f_equal. apply Permutation_length in Hperm. by rewrite Hperm, length_fmap.
  - intros Hin. rewrite Hperm, <-Hrec. apply list_elem_of_fmap_2.
    apply zrange_desc_elem. exists t. by rewrite lookup_insert_eq.
  - intros Hout d. rewrite Hperm, list_elem_of_fmap.
    intros (u & -> & (sc & Hsc & Hin)%zrange_desc_elem).
    destruct (decide (u = uuid)) as [->|Hne].
    + rewrite lookup_insert_eq in Hsc. simplify_eq. congruence.
    + rewrite lookup_insert_ne in Hsc by done. exists u, sc. by rewrite Hrec'.
Qed.

End written_and_indexed.

(** * Roles, files and extracted references *)

Section roles_and_files.
Context `{Runtime}.
Implicit Types (σ : db) (k : string).

Lemma for_fold_state {A B} (l : list A) (acc : B) (body : B → A → M B) σ :
  (∀ acc x σ, (body acc x σ).2 = σ) → (for_fold l acc body σ).2 = σ.
Proof.
  intros Hbody. revert acc. induction l as [|x l IH]; intros acc; simpl; [done|].
  unfold bind. specialize (Hbody acc x σ).
  destruct (body acc x σ) as [[a|e] σ']; simpl in *; subst; [apply IH|done].
Qed.

(** X10. A role that was written is listed: after [set_role], [has_roles]
    is true, [get_role] on the name returns the record, and [get_roles]
    returns one record for each role of the index, the new one among
    them, without writing. *)
Theorem set_role_is_listed (role h0 : record) (name : string)
    (members : gset string) σ :
  role !! "name" = Some name →
  hash_at σ ("roles:" +:+ name) = Some h0 →
  set_at σ "roles" = Some members →
  set_Forall (λ n, is_Some (hash_at σ ("roles:" +:+ n))) members →
  let σ' := exec (set_role role) σ in
  run (set_role role) σ = Ok tt ∧
  run has_roles σ' = Ok true ∧
  run (get_role name) σ' = Ok (role ∪ h0) ∧
  ∃ l, get_roles σ' = (Ok l, σ') ∧
       role ∪ h0 ∈ l ∧
       length l = size ({[name]} ∪ members).
Proof.
  intros Hn Hh Hm Hty σ'.
  destruct (set_role_spec _ _ _ _ _ Hn Hh Hm) as (σ1 & Hrun & Hh1 & Hm1 & Hf1).
  assert (σ' = σ1) as -> by (unfold σ', exec; by rewrite Hrun).
  assert (role_record σ1 name = role ∪ h0) as Hrec by (unfold role_record; by rewrite Hh1).
  destruct (get_roles_spec σ1 _ Hm1) as (Hget & _ & Hperm).
  { intros n [->%elem_of_singleton|Hin]%elem_of_union; [by eauto|].
    destruct (decide (n = name)) as [->|Hne]; [by eauto|].
    rewrite (hash_at_frame σ); [by apply Hty|].
    apply Hf1; [|intros E; symmetry in E; by apply roles_index_key in E].
    intros E. by apply (inj (String.app "roles:")) in E. }
  split_and!.
  - unfold run. by rewrite Hrun.
  - unfold run, has_roles, exists_key. simpl. f_equal. apply bool_decide_eq_true_2.
    unfold set_at in Hm1. destruct (σ1 !! "roles") as [e|] eqn:E; [by eauto|].
    simplify_eq. set_solver.
  - unfold run, get_role. by rewrite (hgetall_ok _ _ _ Hh1).
  - eexists. split; [exact Hget|]. split.
    + rewrite <-Hrec. apply list_elem_of_fmap_2.
      rewrite Hperm. apply elem_of_elements. set_solver.
    + rewrite length_fmap. apply Permutation_length in Hperm. by rewrite Hperm.
Qed.

(** X11. [get_roles] has no test on the record: a role of the index
    whose record is gone is listed as an empty dict, in its place in the
    order of the names, and stays in the index; the store is not
    written. *)
Theorem get_roles_lists_dangling_as_empty (members : gset string) (name : string) σ :
  set_at σ "roles" = Some members →
  set_Forall (λ n, is_Some (hash_at σ ("roles:" +:+ n))) members →
  name ∈ members →
  hash_at σ ("roles:" +:+ name) = Some ∅ →
  ∃ names,
    get_roles σ = (Ok (role_record σ <$> names), σ) ∧
    names ≡ₚ elements members ∧
    StronglySorted String.le names ∧
    ∅ ∈ (role_record σ <$> names) ∧
    length (role_record σ <$> names) = size members.
Proof.
  intros Hm Hty Hin Hgone.
  destruct (get_roles_spec σ _ Hm Hty) as (Hget & Hsorted & Hperm).
  exists (sorted (set_iter members)). split_and!; try done.
  - apply list_elem_of_fmap. exists name. split.
    + unfold role_record. by rewrite Hgone.
    + rewrite Hperm. by apply elem_of_elements.
  - rewrite length_fmap. apply Permutation_length in Hperm. by rewrite Hperm.
Qed.



End roles_and_files.

(** * Extracted references and the lists of observables *)

Lemma string_app_inj_r (a b t : string) : a +:+ t = b +:+ t → a = b.
Proof.
  revert b. induction a as [|c a IH]; intros [|d b] E; [done| | |].
  - apply (f_equal String.length) in E. rewrite !string_app_length in E. simpl in E. lia.
  - apply (f_equal String.length) in E. rewrite !string_app_length in E. simpl in E. lia.
  - unfold String.app in E. simpl in E. injection E as -> E. f_equal. by apply IH.
Qed.

Lemma lstrip_head (s : string) :
  lstrip s = "" ∨ ∃ c r, lstrip s = String c r ∧ py_isspace c = false.
Proof.
  induction s as [|c s IH]; simpl; [by left|].
  destruct (py_isspace c) eqn:E; [done|]. right. by eauto.
Qed.

Lemma rstrip_head (c : ascii) (s : string) :
  py_isspace c = false → ∃ r, rstrip (String c s) = String c r.
Proof. intros Hc. simpl. rewrite Hc. destruct (rstrip s); by eauto. Qed.

Lemma rstrip_rstrip (s : string) : rstrip (rstrip s) = rstrip s.
Proof.
  induction s as [|c s IH]; simpl; [done|].
  destruct (rstrip s) as [|d r] eqn:E.
  - destruct (py_isspace c) eqn:Hc; simpl; [done|]. by rewrite Hc.
  - change (rstrip (String c (String d r))) with
      (match rstrip (String d r) with
       | EmptyString => if py_isspace c then EmptyString else String c EmptyString
       | r' => String c r'
       end).
    by rewrite IH.
Qed.

(** [s.strip().strip() == s.strip()] *)
Lemma strip_strip (s : string) : strip (strip s) = strip s.
Proof.
  unfold strip.
  assert (lstrip (rstrip (lstrip s)) = rstrip (lstrip s)) as ->.
  { destruct (lstrip_head s) as [->|(c & r & -> & Hc)]; [done|].
    destruct (rstrip_head c r Hc) as [r' ->]. simpl. by rewrite Hc. }
  apply rstrip_rstrip.
Qed.

Section references_and_lists.
Context `{Runtime}.
Implicit Types (σ : db) (k : string).

Lemma extracted_key_inj (p p' : string) :
  "tasks:" +:+ p +:+ ":extracted" = "tasks:" +:+ p' +:+ ":extracted" → p = p'.
Proof. intros E. apply (inj (String.app "tasks:")) in E. by apply string_app_inj_r in E. Qed.

Lemma sadd_twice k x σ :
  is_Some (set_at σ k) → exec (sadd k x) (exec (sadd k x) σ) = exec (sadd k x) σ.
Proof.
  unfold exec, sadd, set_at. intros [s Hs]. case_entry σ k.
  - rewrite lookup_insert_eq. simpl. rewrite insert_insert_eq.
    do 3 f_equal. by rewrite ?(assoc_L (∪)), (idemp_L (∪)).
  - rewrite lookup_insert_eq. simpl. rewrite insert_insert_eq.
    do 3 f_equal. by rewrite ?(assoc_L (∪)), (idemp_L (∪)).
Qed.

(** X13. The references extracted from a task accumulate in a set of
    their own: [add_extracted_reference] adds one member and returns,
    adding it again changes nothing, [get_extracted_references] returns
    all the members added so far, and the references of every other
    parent task are as they were. *)
Theorem extracted_references_accumulate (p e e' : string) (s : gset string) σ :
  set_at σ ("tasks:" +:+ p +:+ ":extracted") = Some s →
  let σ1 := exec (add_extracted_reference p e) σ in
  let σ2 := exec (add_extracted_reference p e') σ1 in
  run (add_extracted_reference p e) σ = Ok tt ∧
  run (get_extracted_references p) σ1 = Ok ({[e]} ∪ s) ∧
  exec (add_extracted_reference p e) σ1 = σ1 ∧
  run (get_extracted_references p) σ2 = Ok ({[e; e']} ∪ s) ∧
  ∀ p', p' ≠ p →
    run (get_extracted_references p') σ2 = run (get_extracted_references p') σ.
Proof.
  intros Hs σ1 σ2. unfold add_extracted_reference, get_extracted_references in *.
  destruct (sadd_ok _ _ e _ Hs) as (τ1 & Hadd1 & Hs1 & Hf1).
  assert (σ1 = τ1) as E1 by (unfold σ1, exec; by rewrite Hadd1).
  destruct (sadd_ok _ _ e' _ Hs1) as (τ2 & Hadd2 & Hs2 & Hf2).
  assert (σ2 = τ2) as E2 by (unfold σ2, exec; by rewrite E1, Hadd2).
  split_and!.
  - unfold run. by rewrite Hadd1.
  - unfold run. by rewrite E1, (smembers_ok _ _ _ Hs1).
  - apply sadd_twice. by eauto.
  - unfold run. rewrite E2, (smembers_ok _ _ _ Hs2). simpl. f_equal.
    by rewrite (assoc_L (∪)), (comm_L (∪) {[e']}).
  - intros p' Hne. unfold run, smembers. rewrite E2.
    assert ("tasks:" +:+ p' +:+ ":extracted" ≠ "tasks:" +:+ p +:+ ":extracted") as Hk
      by (intros E; by apply extracted_key_inj in E).
    rewrite (Hf2 _ Hk), (Hf1 _ Hk).
    by destruct (σ !! ("tasks:" +:+ p' +:+ ":extracted")) as [[[?|?|?] ?]|].
Qed.

Lemma set_nonempty_not_hash σ k (s : gset string) :
  set_at σ k = Some s → s ≠ ∅ → hash_at σ k = None.
Proof. unfold set_at, hash_at. intros Hs Hne. case_entry σ k. Qed.

Lemma hash_nonempty_not_set σ k (h : record) :
  hash_at σ k = Some h → h ≠ ∅ → set_at σ k = None.
Proof. unfold set_at, hash_at. intros Hs Hne. case_entry σ k. Qed.

Lemma hmset_wrong σ k (m : record) :
  m ≠ ∅ → hash_at σ k = None → hmset k m σ = (Raise WrongType, σ).
Proof.
  unfold hash_at, hmset. intros Hm Hk. rewrite decide_False by done. case_entry σ k.
Qed.

Lemma sadd_wrong σ k x : set_at σ k = None → sadd k x σ = (Raise WrongType, σ).
Proof. unfold set_at, sadd. intros Hk. case_entry σ k. Qed.

(** X14. The set of the references of task [p] lives under the key that
    holds the record of the task named [p:extracted]. Whichever is
    written first, the other is refused: after a reference of [p] is
    stored, [set_task] and [get_task] on [p:extracted] raise and write
    nothing; after that task is stored, [add_extracted_reference] and
    [get_extracted_references] on [p] raise and write nothing. *)
Theorem extracted_set_shares_key_with_task (p e : string) (task : record)
    (save_date : string) (t : score) σ :
  task !! "uuid" = Some (p +:+ ":extracted") →
  task !! "save_date" = Some save_date →
  iso_timestamp save_date = Some t →
  (∀ s, set_at σ ("tasks:" +:+ p +:+ ":extracted") = Some s →
        let σ1 := exec (add_extracted_reference p e) σ in
        run (add_extracted_reference p e) σ = Ok tt ∧
        set_task task σ1 = (Raise WrongType, σ1) ∧
        get_task (p +:+ ":extracted") σ1 = (Raise WrongType, σ1)) ∧
  (∀ h0 z, hash_at σ ("tasks:" +:+ p +:+ ":extracted") = Some h0 →
           zset_at σ "tasks" = Some z →
           let σ2 := exec (set_task task) σ in
           run (set_task task) σ = Ok tt ∧
           add_extracted_reference p e σ2 = (Raise WrongType, σ2) ∧
           get_extracted_references p σ2 = (Raise WrongType, σ2)).
Proof.
  intros Hu Hd Ht. split.
  - intros s Hs σ1. unfold add_extracted_reference in *.
    destruct (sadd_ok _ _ e _ Hs) as (τ & Hadd & Hs1 & _).
    assert (σ1 = τ) as -> by (unfold σ1, exec; by rewrite Hadd).
    assert (hash_at τ ("tasks:" +:+ p +:+ ":extracted") = None) as Hwrong
      by (apply (set_nonempty_not_hash _ _ _ Hs1); set_solver).
    split_and!.
    + unfold run. by rewrite Hadd.
    + unfold set_task.
      rewrite (bind_ok _ _ _ _ _ (getitem_ok _ _ _ _ Hd)).
      rewrite (bind_ok _ _ _ _ _ (fromisoformat_timestamp_ok _ _ _ Ht)).
      rewrite (bind_ok _ _ _ _ _ (getitem_ok _ _ _ _ Hu)).
      apply bind_raise, hmset_wrong; [|done]. by apply (has_field_nonempty _ _ _ Hu).
    + unfold get_task. by apply hgetall_wrong.
  - intros h0 z Hh Hz σ2.
    destruct (set_task_spec _ _ _ _ _ _ _ Hd Ht Hu Hh Hz) as (τ & Hset & Hh1 & _).
    assert (σ2 = τ) as -> by (unfold σ2, exec; by rewrite Hset).
    assert (set_at τ ("tasks:" +:+ p +:+ ":extracted") = None) as Hwrong.
    { apply (hash_nonempty_not_set _ _ _ Hh1). intros E.
      apply (f_equal (lookup "uuid")) in E.
      by rewrite (lookup_union_Some_l _ _ _ _ Hu), lookup_empty in E. }
    split_and!.
    + unfold run. by rewrite Hset.
    + by apply sadd_wrong.
    + by apply smembers_wrong.
Qed.

(** X15. Nothing keeps an observable off one list when it is on the
    other: after it is added to both, both lists hold it, each under its
    own type, and deleting it from the suspicious list leaves it
    legitimate. *)
Theorem observable_lists_are_independent (o t t' : string) (hs hl : record) σ :
  hash_at σ "suspicious_observables" = Some hs →
  hash_at σ "legitimate_observables" = Some hl →
  let σ' := exec (add_legitimate_observable o t')
              (exec (add_suspicious_observable o t) σ) in
  let σ'' := exec (delete_suspicious_observable o) σ' in
  run get_suspicious_observables σ' = Ok (<[strip o := strip t]> hs) ∧
  run get_legitimate_observables σ' = Ok (<[strip o := strip t']> hl) ∧
  run (delete_suspicious_observable o) σ' = Ok tt ∧
  run get_suspicious_observables σ'' = Ok (delete (strip o) hs) ∧
  run get_legitimate_observables σ'' = Ok (<[strip o := strip t']> hl).
Proof.
  intros Hs Hl σ' σ''.
  unfold add_suspicious_observable, add_legitimate_observable,
    delete_suspicious_observable, get_suspicious_observables,
    get_legitimate_observables in *.
  assert ("legitimate_observables" ≠ "suspicious_observables") as Hne by done.
  destruct (hset_ok _ _ (strip o) (strip t) _ Hs) as (τ1 & Hadd1 & Hs1 & Hf1).
  assert (hash_at τ1 "legitimate_observables" = Some hl) as Hl1
    by (rewrite <-Hl; by apply hash_at_frame, Hf1).
  destruct (hset_ok _ _ (strip o) (strip t') _ Hl1) as (τ2 & Hadd2 & Hl2 & Hf2).
  assert (hash_at τ2 "suspicious_observables" = Some (<[strip o := strip t]> hs)) as Hs2
    by (rewrite <-Hs1; by apply hash_at_frame, Hf2).
  assert (σ' = τ2) as E' by (unfold σ', exec; rewrite Hadd1; simpl; by rewrite Hadd2).
  destruct (hdel_ok _ _ (strip o) _ Hs2) as (τ3 & Hdel & Hs3 & Hf3).
  assert (σ'' = τ3) as E'' by (unfold σ'', exec; by rewrite E', Hdel).
  assert (hash_at τ3 "legitimate_observables" = Some (<[strip o := strip t']> hl)) as Hl3
    by (rewrite <-Hl2; by apply hash_at_frame, Hf3).
  rewrite E', E''. unfold run. split_and!.
  - by rewrite (hgetall_ok _ _ _ Hs2).
  - by rewrite (hgetall_ok _ _ _ Hl2).
  - by rewrite Hdel.
  - rewrite (hgetall_ok _ _ _ Hs3). simpl. by rewrite delete_insert_eq.
  - by rewrite (hgetall_ok _ _ _ Hl3).
Qed.

(** ** The lists hold trimmed values only *)

Lemma task_observables_not_suspicious (x : string) :
  x +:+ ":observables" ≠ "suspicious_observables".
Proof.
  intros E.
  do 11 (destruct x as [|? x]; [unfold String.app in E; simpl in E; discriminate E|]).
  revert E. key_length.
Qed.

Lemma task_observables_not_legitimate (x : string) :
  x +:+ ":observables" ≠ "legitimate_observables".
Proof.
  intros E.
  do 11 (destruct x as [|? x]; [unfold String.app in E; simpl in E; discriminate E|]).
  revert E. key_length.
Qed.

Lemma touches_a_list (c : call) (k : string) :
  k = "suspicious_observables" ∨ k = "legitimate_observables" →
  touches c k →
  match c with
  | AddSuspiciousObservable _ _ | DeleteSuspiciousObservable _
  | AddLegitimateObservable _ _ | DeleteLegitimateObservable _ => True
  | _ => False
  end.
Proof.
  intros Hk Hc. destruct c; simpl in *; try done.
  - destruct Hc as [->|(? & _ & ->)]; destruct Hk as [E|E]; revert E; key_neq.
  - subst k. destruct Hk as [E|E]; revert E; key_neq.
  - destruct Hc as [->|(? & ->)]; destruct Hk as [E|E]; revert E; key_neq.
  - destruct Hc as [->|(? & _ & ->)]; destruct Hk as [E|E]; revert E; key_neq.
  - destruct Hc as [->|(? & ? & _ & _ & ->)]; destruct Hk as [E|E]; revert E; key_neq.
  - subst k. destruct Hk as [E|E];
      [by apply task_observables_not_suspicious in E
      |by apply task_observables_not_legitimate in E].
  - destruct Hc as [->|(? & _ & ->)]; destruct Hk as [E|E]; revert E; key_neq.
  - destruct Hc as [->|(? & _ & ->)]; destruct Hk as [E|E]; revert E; key_neq.
  - subst k. destruct Hk as [E|E]; revert E; key_neq.
  - destruct Hc as (? & _ & [->|(? & _ & ->)]); destruct Hk as [E|E]; revert E; key_neq.
Qed.

Lemma trimmed_insert (h : record) (f v : string) :
  trimmed h → trimmed (<[strip f := strip v]> h).
Proof. intros Hh. apply map_Forall_insert_2; [by rewrite !strip_strip|done]. Qed.

Lemma trimmed_delete (h : record) (f : string) : trimmed h → trimmed (delete f h).
Proof. intros Hh. by apply map_Forall_delete. Qed.

Lemma trimmed_hset σ k f v h :
  hash_at σ k = Some h → trimmed h →
  ∃ h', hash_at (exec (hset k (strip f) (strip v)) σ) k = Some h' ∧ trimmed h'.
Proof.
  intros Hh Ht. destruct (hset_ok _ _ (strip f) (strip v) _ Hh) as (τ & Hset & Hh1 & _).
  unfold exec. rewrite Hset. eexists. split; [exact Hh1|]. by apply trimmed_insert.
Qed.

Lemma trimmed_hdel σ k f h :
  hash_at σ k = Some h → trimmed h →
  ∃ h', hash_at (exec (hdel k f) σ) k = Some h' ∧ trimmed h'.
Proof.
  intros Hh Ht. destruct (hdel_ok _ _ f _ Hh) as (τ & Hdel & Hh1 & _).
  unfold exec. rewrite Hdel. eexists. split; [exact Hh1|]. by apply trimmed_delete.
Qed.

Lemma lists_trimmed_after (c : call) σ : lists_trimmed σ → lists_trimmed (after c σ).
Proof.
  intros Hσ k Hk. destruct (Hσ k Hk) as (h & Hh & Ht).
  assert (¬ touches c k → ∃ h', hash_at (after c σ) k = Some h' ∧ trimmed h') as Hframe.
  { intros Hc. exists h. split; [|done]. rewrite <-Hh.
    by apply hash_at_frame, after_only_writes. }
  destruct c; try (apply Hframe; intros Hc; by apply (touches_a_list _ _ Hk) in Hc).
  - destruct Hk as [-> | ->]; [by eapply trimmed_hset|by apply Hframe].
  - destruct Hk as [-> | ->]; [by eapply trimmed_hdel|by apply Hframe].
  - destruct Hk as [-> | ->]; [by apply Hframe|by eapply trimmed_hset].
  - destruct Hk as [-> | ->]; [by apply Hframe|by eapply trimmed_hdel].
Qed.

Lemma lists_trimmed_elapse d σ : lists_trimmed σ → lists_trimmed (elapse d σ).
Proof.
  intros Hσ k Hk. destruct (Hσ k Hk) as (h & Hh & Ht).
  unfold hash_at, elapse in *. rewrite lookup_omap.
  destruct (σ !! k) as [[[h'|s|z] [t|]]|]; simpl in *; simplify_eq;
    try case_bool_decide; simpl; eauto.
  all: exists ∅; split; [done|apply map_Forall_empty].
Qed.

Lemma reachable_lists_trimmed σ : reachable σ → lists_trimmed σ.
Proof.
  induction 1 as [|σ c _ IH|σ d _ IH].
  - intros k _. exists ∅. split; [done|apply map_Forall_empty].
  - by apply lists_trimmed_after.
  - by apply lists_trimmed_elapse.
Qed.

(** X16. Whatever calls were made and however much time went by, both
    lists can be read and hold only trimmed values and types, so that a
    value read from a list is one [delete_suspicious_observable] or
    [delete_legitimate_observable] removes, and it removes nothing
    else. *)
Theorem listed_observables_are_trimmed σ :
  reachable σ →
  ∃ hs hl,
    get_suspicious_observables σ = (Ok hs, σ) ∧
    get_legitimate_observables σ = (Ok hl, σ) ∧
    trimmed hs ∧ trimmed hl ∧
    (∀ o, is_Some (hs !! o) →
       run (delete_suspicious_observable o) σ = Ok tt ∧
       run get_suspicious_observables (exec (delete_suspicious_observable o) σ)
       = Ok (delete o hs)) ∧
    (∀ o, is_Some (hl !! o) →
       run (delete_legitimate_observable o) σ = Ok tt ∧
       run get_legitimate_observables (exec (delete_legitimate_observable o) σ)
       = Ok (delete o hl)).
Proof.
  intros Hσ%reachable_lists_trimmed.
  destruct (Hσ "suspicious_observables") as (hs & Hs & Hts); [by left|].
  destruct (Hσ "legitimate_observables") as (hl & Hl & Htl); [by right|].
  exists hs, hl.
  unfold get_suspicious_observables, get_legitimate_observables,
    delete_suspicious_observable, delete_legitimate_observable.
  split_and!; try done; try by apply hgetall_ok.
  - intros o [v Hv]. destruct (Hts _ _ Hv) as [-> _].
    destruct (hdel_ok _ _ o _ Hs) as (τ & Hdel & Hs1 & _).
    unfold run, exec. rewrite Hdel. simpl. by rewrite (hgetall_ok _ _ _ Hs1).
  - intros o [v Hv]. destruct (Htl _ _ Hv) as [-> _].
    destruct (hdel_ok _ _ o _ Hl) as (τ & Hdel & Hl1 & _).
    unfold run, exec. rewrite Hdel. simpl. by rewrite (hgetall_ok _ _ _ Hl1).
Qed.

End references_and_lists.

(** * The helpers *)

Section helpers_proofs.
Import helpers.
#[local] Open Scope Z_scope.

(** X17. A flag written as [make_bool_for_redis] gives it and read back
    with [make_bool], from the string Redis returns or from the integer
    itself, is true exactly when the value written was [True]. The two
    functions do not agree on what is true: [make_bool] also accepts the
    integer 1 and the string ['1'], which [make_bool_for_redis] writes
    as 0. *)
Theorem make_bool_reads_back_the_flag (v : value) :
  (make_bool (from_redis (make_bool_for_redis v)) = true ↔ v = VBool true) ∧
  (make_bool (VInt (make_bool_for_redis v)) = true ↔ v = VBool true) ∧
  (make_bool v = true ↔ (v = VBool true ∨ v = VInt 1 ∨ v = VStr "1")) ∧
  (make_bool_for_redis v = 0 ∧ make_bool v = true ↔ (v = VInt 1 ∨ v = VStr "1")).
Proof.
  destruct v as [|[]|n|s]; unfold make_bool, from_redis; simpl;
    [| | |destruct (bool_decide_reflect (n = 1)) as [->|Hn]
         |destruct (bool_decide_reflect (s = "1")) as [->|Hs]]; simpl;
    repeat split; intros; destruct_or?; destruct_and?; simplify_eq/=; auto.
Qed.

(** ** The pattern *)

Lemma span_digits_app (s : string) :
  ∀ d r, span_digits s = (d, r) →
    s = d +:+ r ∧ all_digits d = true ∧
    (r = "" ∨ ∃ c r', r = String c r' ∧ is_digit c = false).
Proof.
  induction s as [|c s IH]; simpl; intros d r E.
  - injection E as <- <-. by auto.
  - destruct (is_digit c) eqn:Hc.
    + destruct (span_digits s) as [d' r'] eqn:E'. injection E as <- <-.
      destruct (IH _ _ eq_refl) as (-> & Hd & Hr). simpl. rewrite Hc, Hd. by auto.
    + injection E as <- <-. split_and!; [done..|]. right. by eauto.
Qed.

Lemma span_digits_all (d r : string) :
  all_digits d = true →
  (r = "" ∨ ∃ c r', r = String c r' ∧ is_digit c = false) →
  span_digits (d +:+ r) = (d, r).
Proof.
  intros Hd Hr. induction d as [|c d IH]; simpl in *.
  - destruct Hr as [->|(c & r' & -> & Hc)]; simpl; [done|]. by rewrite Hc.
  - apply andb_true_iff in Hd as [Hc Hd]. unfold String.app in *. simpl.
    rewrite Hc. by rewrite (IH Hd).
Qed.

Lemma unit_seconds_Some (u : string) :
  is_Some (unit_seconds u) ↔ (u = "" ∨ u = "s" ∨ u = "m" ∨ u = "h" ∨ u = "d").
Proof.
  split.
  - unfold unit_seconds. intros Hu.
    repeat case_decide; subst; try (by auto 6). destruct H; by auto.
  - intros [-> | [-> | [-> | [-> | ->]]]]; by eexists.
Qed.

Lemma unit_seconds_cases (u : string) (k : Z) :
  unit_seconds u = Some k →
  ((u = "" ∨ u = "s") ∧ k = 1) ∨ (u = "m" ∧ k = 60) ∨ (u = "h" ∧ k = 3600)
  ∨ (u = "d" ∧ k = 86400).
Proof. unfold unit_seconds. intros Hu. repeat case_decide; simplify_eq; by auto 6. Qed.

Lemma is_unit_true (c : ascii) (r : string) :
  is_unit c = true ∧ r = "" ↔ is_Some (unit_seconds (String c r)).
Proof.
  rewrite unit_seconds_Some. unfold is_unit. rewrite bool_decide_eq_true.
  split.
  - intros [Hu ->]. destruct_or?; subst; by auto 6.
  - intros Hu. destruct_or?; simplify_eq; by auto.
Qed.

Lemma unit_not_digit (c : ascii) : is_unit c = true → is_digit c = false.
Proof.
  unfold is_unit. rewrite bool_decide_eq_true. by intros [-> | [-> | [-> | ->]]].
Qed.

(** The matcher accepts the language of the pattern, with its groups. *)
Lemma fullmatch_Some (s g1 g2 : string) :
  fullmatch s = Some (g1, g2) ↔
  s = g1 +:+ g2 ∧ g1 ≠ "" ∧ all_digits g1 = true ∧ is_Some (unit_seconds g2).
Proof.
  unfold fullmatch. split.
  - destruct (span_digits s) as [d r] eqn:E.
    destruct (span_digits_app _ _ _ E) as (-> & Hd & _).
    destruct d as [|c d]; [done|]. destruct r as [|u [|? ?]]; try done.
    + intros [= <- <-]. by split_and!.
    + destruct (is_unit u) eqn:Hu; [|done]. intros [= <- <-].
      split_and!; try done. by apply is_unit_true.
  - intros (-> & Hne & Hd & Hu).
    rewrite (span_digits_all g1 g2 Hd).
    + destruct g1 as [|c d]; [done|]. destruct g2 as [|u r]; [done|].
      apply is_unit_true in Hu as [Hu ->]. by rewrite Hu.
    + destruct g2 as [|u r]; [by left|]. right.
      apply is_unit_true in Hu as [Hu ->]. exists u, "". by auto using unit_not_digit.
Qed.

Lemma fullmatch_None (s : string) :
  fullmatch s = None ↔
  ¬ ∃ g1 g2, s = g1 +:+ g2 ∧ g1 ≠ "" ∧ all_digits g1 = true ∧ is_Some (unit_seconds g2).
Proof.
  split.
  - intros E (g1 & g2 & Hs). apply fullmatch_Some in Hs. congruence.
  - intros Hno. destruct (fullmatch s) as [[g1 g2]|] eqn:E; [|done].
    destruct Hno. exists g1, g2. by apply fullmatch_Some.
Qed.

(** ** The digits *)

Lemma digit_value_range (c : ascii) : is_digit c = true → 0 ≤ digit_value c ≤ 9.
Proof.
  unfold is_digit, digit_value. intros [H1 H2]%andb_true_iff.
  apply N.leb_le in H1, H2. lia.
Qed.

Lemma int_digits_nonneg (s : string) (acc : Z) :
  all_digits s = true → 0 ≤ acc → 0 ≤ int_digits acc s.
Proof.
  revert acc. induction s as [|c s IH]; simpl; intros acc Hs Hacc; [done|].
  apply andb_true_iff in Hs as [Hc Hs]. apply IH; [done|].
  pose proof (digit_value_range c Hc). lia.
Qed.

Lemma int_digits_app (a b : string) (acc : Z) :
  int_digits acc (a +:+ b) = int_digits (int_digits acc a) b.
Proof.
  revert acc. induction a as [|c a IH]; intros acc; [done|].
  unfold String.app in *. simpl. by rewrite IH.
Qed.

Lemma all_digits_app (a b : string) :
  all_digits (a +:+ b) = all_digits a && all_digits b.
Proof.
  induction a as [|c a IH]; [done|]. unfold String.app in *. simpl.
  by rewrite IH, andb_assoc.
Qed.

Lemma pretty_N_char_digit (x : N) :
  (x < 10)%N →
  is_digit (pretty_N_char x) = true ∧ digit_value (pretty_N_char x) = Z.of_N x.
Proof.
  intros Hx.
  assert (x = 0 ∨ x = 1 ∨ x = 2 ∨ x = 3 ∨ x = 4 ∨ x = 5 ∨ x = 6 ∨ x = 7
          ∨ x = 8 ∨ x = 9)%N as Hcases by lia.
  repeat (destruct Hcases as [->|Hcases]; [done|]). by subst.
Qed.

(** What [pretty] writes in front of [s] for [x]: digits, whose value is
    [x]. *)
Lemma pretty_N_go_digits (x : N) (s : string) :
  ∃ p, pretty_N_go x s = p +:+ s ∧ all_digits p = true ∧
       int_digits 0 p = Z.of_N x ∧ ((0 < x)%N → p ≠ "").
Proof.
  revert s. induction (N.lt_wf_0 x) as [x _ IH]. intros s.
  destruct (decide (x = 0)%N) as [->|Hx].
  - exists "". rewrite pretty_N_go_0. by split_and!.
  - rewrite pretty_N_go_step by lia.
    destruct (IH (x `div` 10)%N) with (s := String (pretty_N_char (x `mod` 10)) s)
      as (p & -> & Hp & Hv & _); [apply N.div_lt; lia|].
    destruct (pretty_N_char_digit (x `mod` 10)%N) as [Hd Hdv];
      [apply N.mod_lt; lia|].
    exists (p +:+ String (pretty_N_char (x `mod` 10)) "").
    split_and!.
    + clear. induction p as [|c p IHp]; [done|].
      unfold String.app in *. simpl. by rewrite IHp.
    + rewrite all_digits_app, Hp. simpl. by rewrite Hd.
    + rewrite int_digits_app, Hv. simpl. rewrite Hdv.
      rewrite (N.div_mod x 10) at 3 by done. lia.
    + intros _. by destruct p.
Qed.

Lemma pretty_nonneg_digits (n : Z) :
  0 ≤ n →
  pretty n ≠ "" ∧ all_digits (pretty n) = true ∧ int_digits 0 (pretty n) = n.
Proof.
  intros Hn. destruct n as [|x|x]; [done| |lia].
  unfold pretty, pretty_Z, pretty, pretty_positive, pretty, pretty_N.
  rewrite decide_False by done.
  destruct (pretty_N_go_digits (N.pos x) "") as (p & -> & Hp & Hv & Hne).
  assert (p +:+ "" = p) as ->.
  { clear. induction p as [|c p IHp]; [done|]. unfold String.app in *. simpl.
    by rewrite IHp. }
  split_and!; [by apply Hne|done|by rewrite Hv].
Qed.

Lemma pretty_neg_no_match (n : Z) : n < 0 → fullmatch (pretty n) = None.
Proof. intros Hn. by destruct n as [|x|x]; [lia|lia|]. Qed.

(** ** [expire_in_sec] *)

Lemma int_within (limit : option nat) (s : string) :
  (∀ l, limit = Some l → (String.length s ≤ l)%nat) →
  int limit s = Return (int_digits 0 s).
Proof.
  intros Hl. unfold int. destruct limit as [l|]; [|done].
  rewrite bool_decide_eq_false_2; [done|]. specialize (Hl l eq_refl). lia.
Qed.

Lemma timedelta_total_seconds_nonneg (total : Z) :
  0 ≤ total →
  bool_decide (999999999 < Z.abs (total `div` 86400))
  = negb (bool_decide (total ≤ max_seconds)).
Proof.
  intros Ht. unfold max_seconds.
  assert (0 ≤ total `div` 86400) by (apply Z.div_pos; lia).
  rewrite Z.abs_eq by done.
  destruct (bool_decide_reflect (total ≤ 86400 * 1000000000 - 1)) as [Hle|Hgt]; simpl.
  - apply bool_decide_eq_false_2.
    assert (total `div` 86400 < 1000000000); [|lia].
    apply Z.div_lt_upper_bound; lia.
  - apply bool_decide_eq_true_2.
    assert (1000000000 ≤ total `div` 86400); [|lia].
    apply Z.div_le_lower_bound; lia.
Qed.

Lemma string_app_nil_r (s : string) : s +:+ "" = s.
Proof. induction s as [|c s IH]; [done|]. unfold String.app in *. simpl. by rewrite IH. Qed.

Lemma timedelta_total_seconds_total (days seconds minutes hours total : Z) :
  total = days * 86400 + seconds + minutes * 60 + hours * 3600 →
  timedelta_total_seconds days seconds minutes hours
  = timedelta_total_seconds 0 total 0 0.
Proof.
  intros ->. unfold timedelta_total_seconds. cbv zeta.
  by rewrite !Z.mul_0_l, !Z.add_0_l, !Z.add_0_r.
Qed.

Lemma str_within (limit : option nat) (t : pyval) :
  (∀ n, t = PInt n → within limit (String.length (pretty (Z.abs n)))) →
  str limit t = Return (py_str t).
Proof.
  intros Hl. destruct t as [s|n]; [done|]. unfold str. simpl.
  destruct limit as [l|]; [|done].
  rewrite bool_decide_eq_false_2; [done|]. specialize (Hl n eq_refl l eq_refl). lia.
Qed.

Lemma str_beyond (limit : option nat) (n : Z) (l : nat) :
  limit = Some l → (l < String.length (pretty (Z.abs n)))%nat →
  str limit (PInt n) = Throw ValueError.
Proof. intros -> Hl. unfold str. by rewrite bool_decide_eq_true_2. Qed.

Lemma pretty_abs_length (n : Z) :
  (String.length (pretty (Z.abs n)) ≤ String.length (pretty n))%nat.
Proof.
  destruct n as [|x|x]; [done|done|].
  change (pretty (Z.neg x)) with ("-" +:+ pretty (Z.pos x)).
  change (Z.abs (Z.neg x)) with (Z.pos x). rewrite string_app_length. simpl. lia.
Qed.

(** The branch taken for a suffix, once the value matched: all four
    build the duration of the number times the seconds of the unit. *)
Lemma expire_in_sec_matched (assertions : bool) (limit : option nat)
    (t : pyval) (number u : string) (k : Z) :
  str limit t = Return (py_str t) →
  fullmatch (py_str t) = Some (number, u) →
  unit_seconds u = Some k →
  expire_in_sec assertions limit (Some t) =
    n ← int limit number;
    s ← timedelta_total_seconds 0 (n * k) 0 0;
    Return (Some s).
Proof.
  intros Hstr Hm Hu. unfold expire_in_sec. rewrite Hstr. simpl. rewrite Hm.
  apply unit_seconds_cases in Hu.
  destruct Hu as [[[-> | ->] ->]|[[-> ->]|[[-> ->]|[-> ->]]]];
    repeat match goal with
    | |- (if ?b then _ else _) = _ =>
        let b' := eval vm_compute in b in change b with b'; cbv iota
    end;
    destruct (int limit number) as [n|e]; simpl; try done;
    (erewrite timedelta_total_seconds_total; [reflexivity|lia]).
Qed.

Lemma timedelta_total_seconds_seconds (total : Z) :
  0 ≤ total →
  timedelta_total_seconds 0 total 0 0 =
    if bool_decide (total ≤ max_seconds) then Return total else Throw OverflowError.
Proof.
  intros Ht. unfold timedelta_total_seconds.
  replace (0 * 86400 + total + 0 * 60 + 0 * 3600) with total by lia.
  rewrite timedelta_total_seconds_nonneg by done.
  by destruct (bool_decide (total ≤ max_seconds)).
Qed.

Lemma unit_seconds_pos (u : string) (k : Z) : unit_seconds u = Some k → 0 < k.
Proof.
  intros Hu. apply unit_seconds_cases in Hu.
  destruct Hu as [[_ ->]|[[_ ->]|[[_ ->]|[_ ->]]]]; lia.
Qed.

(** X18. A duration is a number in decimal digits followed by at most
    one of the units [s], [m], [h] and [d]: [expire_in_sec] returns the
    number multiplied by the seconds of the unit (1 without a unit), or
    raises [OverflowError] when that is beyond the largest [timedelta],
    999999999 days and 86399 seconds. *)
Theorem expire_in_sec_converts (assertions : bool) (limit : option nat)
    (number u : string) (k : Z) :
  number ≠ "" →
  all_digits number = true →
  unit_seconds u = Some k →
  (∀ l, limit = Some l → (String.length number ≤ l)%nat) →
  let n := int_digits 0 number in
  0 ≤ n ∧
  expire_in_sec assertions limit (Some (PStr (number +:+ u))) =
    if bool_decide (n * k ≤ max_seconds) then Return (Some (n * k))
    else Throw OverflowError.
Proof.
  intros Hne Hd Hu Hl n.
  assert (0 ≤ n) as Hn by (by apply int_digits_nonneg).
  split; [done|].
  assert (fullmatch (py_str (PStr (number +:+ u))) = Some (number, u)) as Hm
    by (apply fullmatch_Some; by eauto).
  rewrite (expire_in_sec_matched assertions limit (PStr (number +:+ u)) number u k
             eq_refl Hm Hu), (int_within _ _ Hl). simpl.
  fold n. pose proof (unit_seconds_pos _ _ Hu).
  rewrite timedelta_total_seconds_seconds by nia.
  by destruct (bool_decide (n * k ≤ max_seconds)).
Qed.

(** X19. An [int] is read through its [str]: a number of seconds that
    is not negative is returned as it is, up to the largest [timedelta],
    beyond which [OverflowError] is raised; a negative number does not
    match the pattern, for its sign, and fails the assertion (or, when
    asserts are compiled out, the call of [group] on [None]). *)
Theorem expire_in_sec_of_int (assertions : bool) (limit : option nat) (n : Z) :
  (∀ l, limit = Some l → (String.length (pretty n) ≤ l)%nat) →
  expire_in_sec assertions limit (Some (PInt n)) =
    if bool_decide (n < 0)
    then Throw (if assertions then AssertionError else AttributeError)
    else if bool_decide (n ≤ max_seconds) then Return (Some n)
    else Throw OverflowError.
Proof.
  intros Hl.
  assert (str limit (PInt n) = Return (py_str (PInt n))) as Hstr.
  { apply str_within. intros ? [= <-] l Hlim. specialize (Hl l Hlim).
    pose proof (pretty_abs_length n). lia. }
  case_bool_decide as Hn.
  - unfold expire_in_sec. rewrite Hstr. simpl. by rewrite (pretty_neg_no_match n Hn).
  - destruct (pretty_nonneg_digits n) as (Hne & Hd & Hv); [lia|].
    assert (fullmatch (py_str (PInt n)) = Some (pretty n, "")) as Hm.
    { apply fullmatch_Some. rewrite string_app_nil_r. by split_and!. }
    rewrite (expire_in_sec_matched _ _ _ _ _ 1 Hstr Hm eq_refl), (int_within _ _ Hl).
    simpl. rewrite Hv, Z.mul_1_r, timedelta_total_seconds_seconds by lia.
    by destruct (bool_decide (n ≤ max_seconds)).
Qed.

(** X20. What a call on a value other than [None] can do. It never
    returns [None]: the last line of the function is not reached. A
    number it returns is a whole number of seconds between 0 and the
    largest [timedelta], and the value then was a duration: digits and
    at most one unit. [ValueError] is raised for more digits than the
    interpreter converts: by [str] on an [int] that long, whatever its
    sign, or by [int] on the digits of a duration. A value that [str]
    prints and that is no duration raises, and no other does,
    [AssertionError], or [AttributeError] when asserts are compiled out.
    [OverflowError] is raised for durations only, by more seconds than a
    [timedelta] holds. *)
Theorem expire_in_sec_outcomes (assertions : bool) (limit : option nat) (t : pyval) :
  match expire_in_sec assertions limit (Some t) with
  | Return None => False
  | Return (Some s) =>
      0 ≤ s ≤ max_seconds ∧
      ∃ number u k, duration (py_str t) number u k ∧
                    within limit (String.length number) ∧
                    s = int_digits 0 number * k
  | Throw AssertionError =>
      assertions = true ∧
      (∀ n, t = PInt n → within limit (String.length (pretty (Z.abs n)))) ∧
      ¬ ∃ number u k, duration (py_str t) number u k
  | Throw AttributeError =>
      assertions = false ∧
      (∀ n, t = PInt n → within limit (String.length (pretty (Z.abs n)))) ∧
      ¬ ∃ number u k, duration (py_str t) number u k
  | Throw ValueError =>
      ∃ l, limit = Some l ∧
           ((∃ n, t = PInt n ∧ (l < String.length (pretty (Z.abs n)))%nat) ∨
            (∃ number u k, duration (py_str t) number u k ∧
                           (l < String.length number)%nat))
  | Throw OverflowError =>
      ∃ number u k, duration (py_str t) number u k ∧
                    within limit (String.length number) ∧
                    max_seconds < int_digits 0 number * k
  end.
Proof.
  destruct (str limit t) as [text|e] eqn:Hstr; last first.
  { unfold expire_in_sec. rewrite Hstr. simpl.
    destruct t as [s|n]; [done|]. unfold str in Hstr.
    destruct limit as [l|]; [|done]. case_bool_decide as Hlen; [|done].
    injection Hstr as <-. exists l. split; [done|]. left. by exists n. }
  assert (text = py_str t ∧
          ∀ n, t = PInt n → within limit (String.length (pretty (Z.abs n))))
    as [-> Hprint].
  { destruct t as [s|n]; [by split; [injection Hstr as <-|]|].
    unfold str in Hstr. destruct limit as [l|].
    - case_bool_decide as Hlen; [done|]. injection Hstr as <-.
      split; [done|]. intros ? [= <-] ? [= <-]. lia.
    - injection Hstr as <-. split; [done|]. by intros ? _ ? ?. }
  destruct (fullmatch (py_str t)) as [[number u]|] eqn:Hm.
  - pose proof Hm as (Hs & Hne & Hd & [k Hu])%fullmatch_Some.
    assert (duration (py_str t) number u k) as Hdur by done.
    rewrite (expire_in_sec_matched _ _ _ _ _ _ Hstr Hm Hu).
    pose proof (int_digits_nonneg number 0 Hd (Z.le_refl 0)) as Hn.
    pose proof (unit_seconds_pos _ _ Hu) as Hk.
    unfold int. destruct limit as [l|]; [case_bool_decide as Hlen|]; simpl.
    + exists l. split; [done|]. right. by exists number, u, k.
    + assert (within (Some l) (String.length number)) as Hw
        by (intros ? [= <-]; lia).
      rewrite timedelta_total_seconds_seconds by nia.
      case_bool_decide; simpl; [split; [nia|]|]; exists number, u, k;
        (split_and!; [done|done|lia]).
    + assert (within None (String.length number)) as Hw by (by intros ? ?).
      rewrite timedelta_total_seconds_seconds by nia.
      case_bool_decide; simpl; [split; [nia|]|]; exists number, u, k;
        (split_and!; [done|done|lia]).
  - unfold expire_in_sec. rewrite Hstr. simpl. rewrite Hm.
    assert (¬ ∃ number u k, duration (py_str t) number u k) as Hno.
    { intros (number & u & k & Hs & Hne & Hd & Hu).
      apply fullmatch_None in Hm. apply Hm. exists number, u. by eauto. }
    by destruct assertions.
Qed.

(** ** The actions of a role *)

Lemma startswith_app (p key : string) :
  startswith p key = true ↔ ∃ rest, key = p +:+ rest.
Proof.
  revert key. induction p as [|a p IH]; intros key; simpl.
  - split; [by eauto|done].
  - destruct key as [|b key]; [split; [done|by intros [? ?]]|].
    rewrite andb_true_iff, bool_decide_eq_true, IH. unfold String.app. simpl. split.
    + intros [-> [rest ->]]. by eauto.
    + intros [rest [= -> ->]]. by eauto.
Qed.

Lemma can_actions_snoc {V} (items : list (string * V)) (key : string) (value : V) :
  can_actions (items ++ [(key, value)]) =
    if startswith "can_" key then <[slice_from 4 key := value]> (can_actions items)
    else can_actions items.
Proof. unfold can_actions. by rewrite foldl_snoc. Qed.

(** X21. The actions of a role are read from the keys of its entry that
    start with [can_]: the action [a] has the value of the key [can_a],
    and is absent when the entry has no such key. Keys that do not start
    with [can_] give no action. *)
Theorem can_actions_lookup {V} (items : list (string * V)) (a : string) :
  NoDup items.*1 →
  can_actions items !! a = (list_to_map items : gmap string V) !! ("can_" +:+ a).
Proof.
  induction items as [|[key value] items IH] using rev_ind; intros Hnd; [done|].
  rewrite fmap_app in Hnd. apply NoDup_app in Hnd as (Hnd & Hfresh & _).
  rewrite can_actions_snoc.
  assert ((list_to_map (items ++ [(key, value)]) : gmap string V) !! ("can_" +:+ a)
          = if decide (key = "can_" +:+ a) then Some value
            else (list_to_map items : gmap string V) !! ("can_" +:+ a)) as ->.
  { rewrite list_to_map_app, lookup_union. simpl.
    case_decide as Hk.
    - subst key. rewrite lookup_insert_eq.
      rewrite (not_elem_of_list_to_map_1 items); [done|].
      intros Hin. apply (Hfresh _ Hin). simpl. by left.
    - rewrite lookup_insert_ne, lookup_empty by done.
      by destruct (list_to_map items !! _). }
  destruct (startswith "can_" key) eqn:Hstart.
  - apply startswith_app in Hstart as [rest ->].
    change (slice_from 4 ("can_" +:+ rest)) with rest.
    destruct (decide (rest = a)) as [->|Hne].
    + by rewrite lookup_insert_eq, decide_True.
    + assert ("can_" +:+ rest ≠ "can_" +:+ a) as Hk
        by (intros E; by apply (inj (String.app "can_")) in E).
      by rewrite lookup_insert_ne, decide_False, IH.
  - assert (key ≠ "can_" +:+ a) as Hk.
    { intros ->.
      assert (startswith "can_" ("can_" +:+ a) = true) as E
        by (apply startswith_app; by eauto).
      congruence. }
    by rewrite decide_False, IH.
Qed.

End helpers_proofs.

(** * One instance, one pool *)

Section singleton_proofs.
Import singleton.

Lemma new_again (c : config) (cls : class_state) (self : nat) :
  _instance cls = Some self → new c cls = (Return self, cls).
Proof. unfold new. by intros ->. Qed.

Lemma news_again (configs : list config) (cls : class_state) (self : nat) :
  _instance cls = Some self →
  news configs cls = (replicate (length configs) (Return self), cls).
Proof.
  intros Hi. induction configs as [|c configs IH]; simpl; [done|].
  by rewrite (new_again _ _ _ Hi), IH.
Qed.

(** X22. [Storage] is a singleton whose configuration is read once:
    when the first [Storage()] returns, the pool was built from the
    host and port configured at that time, and every later [Storage()],
    whatever the configuration has become, returns the same instance,
    builds nothing and leaves that pool in place. *)
Theorem storage_is_built_once (c0 : config) (cls cls1 : class_state) (self : nat)
    (configs : list config) :
  _instance cls = None →
  new c0 cls = (Return self, cls1) →
  (∃ h p id,
     c0 "generic" "storage_db_hostname" = Some h ∧
     c0 "generic" "storage_db_port" = Some p ∧
     storage cls1 self = Return (Pool h p true id)) ∧
  news configs cls1 = (replicate (length configs) (Return self), cls1).
Proof.
  unfold new. intros -> Hnew.
  destruct (c0 "generic" "storage_db_hostname") as [h|] eqn:Hh; [|done].
  destruct (c0 "generic" "storage_db_port") as [p|] eqn:Hp; [|done].
  injection Hnew as <- <-. split.
  - by exists h, p, (S (allocated cls)).
  - by apply news_again.
Qed.

(** X23. The instance is assigned before the configuration is read, so
    a first [Storage()] that raises leaves an instance without a pool:
    every later [Storage()] returns that instance without reading the
    configuration again, and its [storage] raises [AttributeError], also
    once the configuration is in order. *)
Theorem failed_first_call_is_not_retried (c0 : config) (cls cls1 : class_state)
    (e : exn) (configs : list config) :
  _instance cls = None →
  _redis_pool_storage cls = None →
  new c0 cls = (Throw e, cls1) →
  ∃ self,
    news configs cls1 = (replicate (length configs) (Return self), cls1) ∧
    storage cls1 self = Throw AttributeError ∧
    (c0 "generic" "storage_db_hostname" = None ∨
     c0 "generic" "storage_db_port" = None).
Proof.
  unfold new. intros -> Hpool Hnew. exists (allocated cls).
  assert (cls1 = Class (Some (allocated cls)) None (S (allocated cls)) ∧
          (c0 "generic" "storage_db_hostname" = None ∨
           c0 "generic" "storage_db_port" = None)) as [-> Hc].
  { rewrite Hpool in Hnew.
    destruct (c0 "generic" "storage_db_hostname") as [h|];
      [destruct (c0 "generic" "storage_db_port") as [p|]|];
      simplify_eq; by auto. }
  split_and!; [by apply news_again|done|done].
Qed.

End singleton_proofs.

(** * More worked examples *)

Section more_examples.
Import Concrete Examples MoreExamples.

Ltac decided := apply (bool_decide_unpack _); vm_compute; exact I.

(** The session [s1], written, read after half an hour, written again
    and read fifty minutes later. *)
Lemma set_user_refreshes_ttl_witness :
  run (get_user "s1") (elapse 1800 (exec (set_user alice) ∅)) = Ok (alice ∪ ∅) ∧
  run (get_user "s1")
      (elapse 3000 (exec (set_user alice) (elapse 1800 (exec (set_user alice) ∅))))
  = Ok (alice ∪ ∅).
Proof.
  destruct (set_user_refreshes_ttl alice ∅ "s1" ∅ 1800 3000) as (H1 & _ & H2);
    [reflexivity|reflexivity|by eexists|decided|decided|].
  split; [exact H1|exact H2].
Defined.

(** Sessions of no time: the record is gone at once, the id is in the
    index. *)
Lemma set_user_expiry_not_positive_witness :
  run (get_user "s1") (exec (@set_user no_sessions alice) ∅) = Ok ∅ ∧
  run (smembers "users") (exec (@set_user no_sessions alice) ∅) = Ok ({["s1"]} ∪ ∅).
Proof.
  destruct (@set_user_expiry_not_positive no_sessions alice ∅ "s1" ∅ ∅)
    as (_ & H1 & H2); [decided|reflexivity|reflexivity|reflexivity|].
  split; [exact H1|exact H2].
Defined.

(** The two sessions, deleted. *)
Lemma del_users_deletes_index_witness :
  run del_users two_sessions = Ok tt ∧
  exec del_users two_sessions !! "users" = None ∧
  exec del_users two_sessions !! "users:s2" = None ∧
  run get_users (exec del_users two_sessions) = Ok [].
Proof.
  destruct (del_users_deletes_index s1_s2 two_sessions) as (H1 & H2 & H3 & _ & H4);
    [reflexivity|].
  split_and!; [exact H1|exact H2|apply (H3 "s2"); decided|exact H4].
Defined.

(** The session of [carol] has no [last_seen]. *)
Lemma get_users_missing_last_seen_witness :
  run get_users with_carol = Raise (KeyError "last_seen") ∧
  ∀ k, k ≠ "users" → exec get_users with_carol !! k = with_carol !! k.
Proof.
  destruct (get_users_missing_last_seen s1_s2_s3 "s3" with_carol) as (H1 & _ & H2);
    [reflexivity|decided|decided|decided|reflexivity|].
  split; [exact H1|exact H2].
Defined.

(** The observable [ab12-domain], stored and linked to the task [t1]. *)
Lemma linked_observable_is_listed_witness :
  ∃ l, run (get_task_observables "t1")
           (exec (add_task_observable "t1" "ab12" "domain")
                 (exec (set_observable observable1) ∅)) = Ok l ∧
       delete "warninglist" (observable1 ∪ ∅) ∈ l ∧
       Forall (λ d, d ≠ ∅) l.
Proof.
  edestruct linked_observable_is_listed
    with (observable := observable1) (h0 := ∅ : record) (sha256 := "ab12")
         (observable_type := "domain") (last_seen := "2024-05-01T10:00:00")
         (task_uuid := "t1") (z := ∅ : gmap string score)
         (members := ∅ : gset string) (σ := ∅ : db) as (_ & _ & H);
    [reflexivity|reflexivity|reflexivity|reflexivity|reflexivity|reflexivity
    |reflexivity|apply set_Forall_empty|decided|exact H].
Defined.

(** The same observable seen again a month later: the record has the
    new date, and so has the index. *)
Lemma set_observable_merges_and_reindexes_witness :
  (∃ stored,
     run (get_observable None None (Some "ab12-domain"))
         (exec (set_observable observable2) (exec (set_observable observable1) ∅))
     = Ok stored ∧
     stored !! "warninglist" = None ∧
     stored !! "last_seen" = Some "2024-06-01T10:00:00") ∧
  ∃ z', zset_at (exec (set_observable observable2) (exec (set_observable observable1) ∅))
                "observables" = Some z' ∧
        z' !! "ab12-domain" = iso_timestamp "2024-06-01T10:00:00".
Proof.
  edestruct set_observable_merges_and_reindexes
    with (observable := observable2) (sha256 := "ab12") (observable_type := "domain")
         (last_seen := "2024-06-01T10:00:00")
         (σ := exec (set_observable observable1) ∅)
    as (_ & (stored & Hget & Hwl & Hnew & _) & (z' & Hz & Ht & _));
    [reflexivity|reflexivity|reflexivity|reflexivity|reflexivity|reflexivity
    |reflexivity|].
  split.
  - exists stored. split_and!; [exact Hget|exact Hwl|by apply Hnew].
  - exists z'. split; [exact Hz|exact Ht].
Defined.

(** The task [t2], written after [t1], is listed. *)
Lemma set_task_listed_within_bounds_witness :
  ∃ l, run (get_tasks first_date_default last_date_default) two_tasks = Ok l ∧
       run (count_tasks first_date_default last_date_default) two_tasks
       = Ok (length l) ∧
       task2 ∪ ∅ ∈ l.
Proof.
  edestruct set_task_listed_within_bounds
    with (task := task2) (h0 := ∅ : record) (uuid := "t2")
         (save_date := "2024-05-02T09:00:00")
         (a := first_date_default) (b := last_date_default)
         (σ := exec (set_task task1) ∅)
    as (_ & l & Hget & Hcount & Hin & _);
    [reflexivity|reflexivity|reflexivity|reflexivity|reflexivity|decided
    |reflexivity|reflexivity|].
  exists l. split_and!; [exact Hget|exact Hcount|by apply Hin].
Defined.

(** The role [admin], written beside [reader]. *)
Lemma set_role_is_listed_witness :
  run has_roles two_roles = Ok true ∧
  ∃ l, get_roles two_roles = (Ok l, two_roles) ∧ admin ∪ ∅ ∈ l ∧ length l = 2.
Proof.
  destruct (set_role_is_listed admin ∅ "admin" {["reader"]} (exec (set_role reader) ∅))
    as (_ & Hhas & _ & l & Hget & Hin & Hlen);
    [reflexivity|reflexivity|reflexivity|decided|].
  split; [exact Hhas|]. exists l. split_and!; [exact Hget|exact Hin|exact Hlen].
Defined.

(** The record of [admin] is gone, its name is in the index. *)
Lemma get_roles_lists_dangling_as_empty_witness :
  ∃ names,
    get_roles dangling_role = (Ok (role_record dangling_role <$> names), dangling_role) ∧
    ∅ ∈ (role_record dangling_role <$> names) ∧
    length (role_record dangling_role <$> names) = 2.
Proof.
  destruct (get_roles_lists_dangling_as_empty admin_reader "admin" dangling_role)
    as (names & Hget & _ & _ & Hin & Hlen); [reflexivity|decided|decided|reflexivity|].
  exists names. split_and!; [exact Hget|exact Hin|exact Hlen].
Defined.


(** Two tasks extracted from [t1]. *)
Lemma extracted_references_accumulate_witness :
  run (get_extracted_references "t1")
      (exec (add_extracted_reference "t1" "t6")
            (exec (add_extracted_reference "t1" "t5") ∅))
  = Ok ({["t5"; "t6"]} ∪ ∅).
Proof.
  destruct (extracted_references_accumulate "t1" "t5" "t6" ∅ ∅)
    as (_ & _ & _ & H & _); [reflexivity|exact H].
Defined.

(** The references of [t1] and the task [t1:extracted], in both
    orders. *)
Lemma extracted_set_shares_key_with_task_witness :
  run (set_task task_extracted) (exec (add_extracted_reference "t1" "t5") ∅)
  = Raise WrongType ∧
  run (add_extracted_reference "t1" "t5") (exec (set_task task_extracted) ∅)
  = Raise WrongType.
Proof.
  edestruct extracted_set_shares_key_with_task
    with (p := "t1") (e := "t5") (task := task_extracted)
         (save_date := "2024-05-03T09:00:00") (σ := ∅ : db) as [H1 H2];
    [reflexivity|reflexivity|reflexivity|].
  split.
  - destruct (H1 ∅ eq_refl) as (_ & H & _). unfold run. by rewrite H.
  - destruct (H2 ∅ ∅ eq_refl eq_refl) as (_ & H & _). unfold run. by rewrite H.
Defined.

(** One observable on both lists, then taken off the suspicious one. *)
Lemma observable_lists_are_independent_witness :
  run get_legitimate_observables
      (exec (delete_suspicious_observable " evil.example")
         (exec (add_legitimate_observable " evil.example" "domain")
            (exec (add_suspicious_observable " evil.example" "domain") ∅)))
  = Ok (<[strip " evil.example" := strip "domain"]> ∅).
Proof.
  destruct (observable_lists_are_independent " evil.example" "domain" "domain" ∅ ∅ ∅)
    as (_ & _ & _ & _ & H); [reflexivity|reflexivity|exact H].
Defined.

(** The list after one call. *)
Lemma listed_observables_are_trimmed_witness :
  ∃ hs, get_suspicious_observables one_suspicious = (Ok hs, one_suspicious) ∧
        trimmed hs.
Proof.
  destruct (listed_observables_are_trimmed one_suspicious)
    as (hs & hl & Hs & _ & Ht & _).
  - apply reachable_call, reachable_empty.
  - exists hs. split; [exact Hs|exact Ht].
Defined.

(** Ninety minutes. *)
Lemma expire_in_sec_converts_witness :
  helpers.expire_in_sec true (Some 4300%nat) (Some (PStr "90m"))
  = helpers.Return (Some 5400%Z).
Proof.
  destruct (expire_in_sec_converts true (Some 4300%nat) "90" "m" 60)
    as [_ H]; [done|reflexivity|reflexivity| |exact H].
  intros l [= <-]. apply Nat.leb_le. reflexivity.
Defined.

(** One hour, as a number. *)
Lemma expire_in_sec_of_int_witness :
  helpers.expire_in_sec true (Some 4300%nat) (Some (PInt 3600))
  = helpers.Return (Some 3600%Z).
Proof.
  rewrite (expire_in_sec_of_int true (Some 4300%nat) 3600); [reflexivity|].
  intros l [= <-]. apply Nat.leb_le. vm_compute. reflexivity.
Defined.

(** A negative number of more digits than the interpreter converts:
    [str] refuses it before the pattern is tried. *)
Example expire_in_sec_long_negative :
  helpers.expire_in_sec true (Some 640%nat) (Some (PInt (- 10 ^ 640)))
  = helpers.Throw helpers.ValueError.
Proof. vm_compute. reflexivity. Qed.

(** The entry of the role [reader]. *)
Lemma can_actions_lookup_witness :
  helpers.can_actions role_entry !! "read" = Some (helpers.VBool true) ∧
  helpers.can_actions role_entry !! "name" = None.
Proof.
  split.
  - rewrite (can_actions_lookup role_entry "read"); [reflexivity|decided].
  - rewrite (can_actions_lookup role_entry "name"); [reflexivity|decided].
Defined.

(** The class, configured at the first call and not at the second. *)
Lemma storage_is_built_once_witness :
  singleton.news [unconfigured; configured] (singleton.new configured singleton.initial).2
  = ([singleton.Return 0%nat; singleton.Return 0%nat],
     (singleton.new configured singleton.initial).2).
Proof.
  eapply (storage_is_built_once configured singleton.initial _ 0%nat
            [unconfigured; configured]); reflexivity.
Defined.

(** The class, configured only after the first call. *)
Lemma failed_first_call_is_not_retried_witness :
  ∃ self,
    singleton.news [configured] (singleton.new unconfigured singleton.initial).2
    = ([singleton.Return self], (singleton.new unconfigured singleton.initial).2) ∧
    singleton.storage (singleton.new unconfigured singleton.initial).2 self
    = singleton.Throw singleton.AttributeError.
Proof.
  edestruct failed_first_call_is_not_retried
    with (c0 := unconfigured) (cls := singleton.initial) (configs := [configured])
    as (self & H1 & H2 & _);
    [reflexivity|reflexivity|reflexivity|].
  exists self. split; [exact H1|exact H2].
Defined.

(** The populated store keeps the schema. *)
Lemma reachable_schema_inv_witness : schema_inv populated.
Proof. apply reachable_schema_inv, populated_reachable. Defined.

(** The two tasks, listed and counted. *)
Lemma get_tasks_returns_count_witness :
  run (count_tasks first_date_default last_date_default) two_tasks = Ok 2.
Proof.
  apply (get_tasks_returns_count two_tasks _ _ [task2; task1]). reflexivity.
Defined.

(** The session [s1] one hour after it was written. *)
Lemma set_user_then_expired_witness :
  hash_at (elapse 3600 (exec (set_user alice) ∅)) "users:s1" = Some ∅ ∧
  set_at (elapse 3600 (exec (set_user alice) ∅)) "users" = Some ({["s1"]} ∪ ∅).
Proof.
  apply (set_user_then_expired alice ∅ "s1" ∅ ∅ 3600);
    [decided|reflexivity|reflexivity|reflexivity|by left].
Defined.

(** The task [t1] of the index has no record. *)
Lemma get_tasks_missing_witness :
  get_tasks first_date_default last_date_default dangling_task
  = (Raise (KeyError "save_date"), dangling_task).
Proof.
  eapply (get_tasks_missing dangling_task t1_t2);
    [reflexivity|reflexivity|reflexivity|decided|decided].
Defined.

End more_examples.

(** * The key of a report *)

Section reports.
Context `{Runtime}.
Implicit Types (σ : db).

Lemma string_app_assoc (a b c : string) : (a +:+ b) +:+ c = a +:+ b +:+ c.
Proof.
  induction a as [|x a IH]; [done|]. unfold String.app in *. simpl. by rewrite IH.
Qed.

(** X27. The key of a report joins the task and the worker with a dash
    and keeps no trace of where one ends: the report that worker [w']
    stores for the task [t-w] is the one [get_report] returns for worker
    [w-w'] on task [t], merged with what that key held. *)
Theorem report_key_is_ambiguous (report old task : record) (t w w' : string) σ :
  report !! "task_uuid" = Some (t +:+ "-" +:+ w) →
  report !! "worker_name" = Some w' →
  hash_at σ ("reports:" +:+ t +:+ "-" +:+ w +:+ "-" +:+ w') = Some old →
  hash_at σ ("tasks:" +:+ t +:+ "-" +:+ w) = Some task →
  let σ' := exec (set_report report) σ in
  run (set_report report) σ = Ok tt ∧
  run (get_report (t +:+ "-" +:+ w) w') σ' = Ok (report ∪ old) ∧
  run (get_report t (w +:+ "-" +:+ w')) σ' = Ok (report ∪ old).
Proof.
  intros Ht Hw Hold Htask σ'.
  assert ("reports:" +:+ (t +:+ "-" +:+ w) +:+ "-" +:+ w'
          = "reports:" +:+ t +:+ "-" +:+ w +:+ "-" +:+ w') as Hkey
    by (by rewrite <-!string_app_assoc).
  rewrite <-Hkey in Hold.
  destruct (set_report_spec _ _ _ _ _ _ Ht Hw Hold Htask) as (σ2 & Hrun & Hrep & _).
  assert (σ' = σ2) as -> by (unfold σ', exec; by rewrite Hrun).
  unfold run, get_report. split_and!.
  - by rewrite Hrun.
  - by rewrite (hgetall_ok _ _ _ Hrep).
  - rewrite <-Hkey. by rewrite (hgetall_ok _ _ _ Hrep).
Qed.

End reports.

Section report_examples.
Import Concrete Examples.

(** The report of the worker [av] on the task [t1-clam], read as the
    report of the worker [clam-av] on the task [t1]. *)
Lemma report_key_is_ambiguous_witness :
  run (get_report "t1" "clam-av")
      (exec (set_report {[ "task_uuid" := "t1-clam"; "worker_name" := "av" ]}) two_tasks)
  = Ok ({[ "task_uuid" := "t1-clam"; "worker_name" := "av" ]} ∪ ∅).
Proof.
  destruct (report_key_is_ambiguous
              {[ "task_uuid" := "t1-clam"; "worker_name" := "av" ]} ∅ ∅
              "t1" "clam" "av" two_tasks) as (_ & _ & H);
    [reflexivity|reflexivity|reflexivity|reflexivity|exact H].
Defined.

End report_examples.
